(** * ETL orchestration engine: a shallow embedding and its properties

    The development follows the layout of the repository:
    - [core/rate_limiter.py]   : [RateLimiter]
    - [core/models.py]         : the tables ([Coin], [ETLCheckpoint], [ETLRun], raw tables)
    - [schemas/coin.py]        : [CoinBase] / [CoinCreate] validation
    - [ingestion/*.py]         : the three pipelines and [BaseETL]
    - [services/etl_service.py]: [ETLService]

    Conventions.  Python [float] values are idealised as rationals ([Q]),
    with the errors of Python where a result leaves their range;
    [datetime] values are integers (a count of clock ticks); [time.time()]
    and [datetime.utcnow()] are inputs of the model.  Exceptions are values
    of [result]; only [Exception] subclasses are modelled.  Logging and
    [str(e)] are total.  The relational store is an input as well: each
    of its calls either fails, as the world of the run decides, or acts on
    the tables as written out below. *)

From Stdlib Require Import ZArith QArith Qminmax Qpower Qabs Lqa Lia List String Ascii Bool.
From stdpp Require Import base option list strings gmap.
Import ListNotations.

Local Open Scope Z_scope.
Local Open Scope string_scope.
Local Open Scope list_scope.

(* ===================================================================== *)
(** * Part I.  The program                                               *)
(* ===================================================================== *)

(** ** Python values *)

(** A call either returns or raises an [Exception] with a message. *)
Inductive result (A : Type) : Type :=
| Ok (a : A)
| Raise (msg : string).
Arguments Ok {A} a.
Arguments Raise {A} msg.

Definition rbind {A B} (r : result A) (k : A -> result B) : result B :=
  match r with
  | Ok a => k a
  | Raise msg => Raise msg
  end.

Notation "'try!' x := r 'in' k" := (rbind r (fun x => k))
  (at level 10, x name, r at level 100, k at level 200).

(** [[f(x) for x in l]]: the first call that raises ends the comprehension. *)
Fixpoint map_result {A B} (f : A -> result B) (l : list A) : result (list B) :=
  match l with
  | [] => Ok []
  | x :: rest =>
      try! y := f x in
      try! ys := map_result f rest in
      Ok (y :: ys)
  end.

(** [datetime] values. *)
Definition Time := Z.

(** The objects found in decoded JSON and in CSV rows ([Any]). *)
#[warnings="-register-all"] Inductive Value : Type :=
| VNone
| VBool (b : bool)
| VInt (z : Z)
| VFloat (q : Q)
| VStr (s : string)
| VList (l : list Value)
| VDict (d : list (string * Value)).

(** [Dict[str, Any]], in insertion order. *)
Definition Dict := list (string * Value).

Fixpoint lookup_key (d : Dict) (key : string) : option Value :=
  match d with
  | [] => None
  | (k, v) :: rest => if String.eqb k key then Some v else lookup_key rest key
  end.

(** [d.get(key, default)]; [d.get(key)] is [get d key VNone]. *)
Definition get (d : Dict) (key : string) (default : Value) : Value :=
  match lookup_key d key with
  | Some v => v
  | None => default
  end.

(** [str.upper()], on the ASCII range. *)
Definition upper_ascii (c : ascii) : ascii :=
  let n := nat_of_ascii c in
  if ((97 <=? n) && (n <=? 122))%nat then ascii_of_nat (n - 32) else c.

Fixpoint upper (s : string) : string :=
  match s with
  | EmptyString => EmptyString
  | String c rest => String (upper_ascii c) (upper rest)
  end.

(** [str.lower()], on the ASCII range. *)
Definition lower_ascii (c : ascii) : ascii :=
  let n := nat_of_ascii c in
  if ((65 <=? n) && (n <=? 90))%nat then ascii_of_nat (n + 32) else c.

Fixpoint lower (s : string) : string :=
  match s with
  | EmptyString => EmptyString
  | String c rest => String (lower_ascii c) (lower rest)
  end.

(** [if s:] for a string or [None]. *)
Definition truthy (s : option string) : bool :=
  match s with
  | Some (String _ _) => true
  | _ => false
  end.

(** [d[key] = v] on a dict kept in insertion order: a key that is there
    keeps its place. *)
Fixpoint dict_set {V} (d : list (string * V)) (key : string) (v : V)
  : list (string * V) :=
  match d with
  | [] => [(key, v)]
  | (k, x) :: rest =>
      if String.eqb k key then (k, v) :: rest else (k, x) :: dict_set rest key v
  end.

(** [s.replace(c, '')] for a one-character [c]. *)
Fixpoint remove_char (c : ascii) (s : string) : string :=
  match s with
  | EmptyString => EmptyString
  | String a rest =>
      if Ascii.eqb a c then remove_char c rest else String a (remove_char c rest)
  end.

(** Plain decimal literals: an optional sign, digits, at most one point. *)
Definition digit_of (c : ascii) : option Z :=
  let n := nat_of_ascii c in
  if ((48 <=? n) && (n <=? 57))%nat then Some (Z.of_nat (n - 48)) else None.

Fixpoint scan_decimal (s : string) (seen_point : bool)
         (num : Z) (scale : positive) (ndigits : nat) : option Q :=
  match s with
  | EmptyString => if (ndigits =? 0)%nat then None else Some (num # scale)
  | String c rest =>
      match digit_of c with
      | Some d =>
          scan_decimal rest seen_point (10 * num + d)
                       (if seen_point then (10 * scale)%positive else scale)
                       (S ndigits)
      | None =>
          if Ascii.eqb c "."%char && negb seen_point
          then scan_decimal rest true num scale ndigits
          else None
      end
  end.

Definition parse_decimal (s : string) : option Q :=
  match s with
  | String c rest =>
      if Ascii.eqb c "-"%char then option_map Qopp (scan_decimal rest false 0 1 0)
      else if Ascii.eqb c "+"%char then scan_decimal rest false 0 1 0
      else scan_decimal s false 0 1 0
  | EmptyString => None
  end.

(** What the interpreter and pydantic do beyond the cases written out
    below is left open: every result holds for all such behaviours. *)
Record PyRuntime := {
  (** [float(s)] for a string that is not a plain decimal literal
      ([None]: [ValueError]) *)
  float_other : string -> option Q;
  (** [str(v)] for a number, a list or a dict *)
  repr_other : Value -> string;
  (** pydantic's lax coercion to [float] of a value that is neither an
      [int] nor a [float] ([None]: rejected) *)
  lax_float : Value -> option Q;
  (** pydantic's lax coercion to [int] of a value that is not an [int] *)
  lax_int : Value -> option Z;
  (** [float(s)] is an infinity, for a string that is not a plain decimal
      literal (['inf'], ['-Infinity'], ['1e999']) *)
  float_infinite : string -> bool
}.

(** The strictest behaviour: nothing else parses or coerces. *)
Definition strict_runtime : PyRuntime :=
  {| float_other := fun _ => None;
     repr_other := fun _ => "<object>";
     lax_float := fun _ => None;
     lax_int := fun _ => None;
     float_infinite := fun _ => false |}.

(** [str(v)]. *)
Definition py_str (py : PyRuntime) (v : Value) : string :=
  match v with
  | VStr s => s
  | VNone => "None"
  | VBool true => "True"
  | VBool false => "False"
  | _ => repr_other py v
  end.

(** [float(s)] for a string [s]; [None] stands for [ValueError]. *)
Definition py_float (py : PyRuntime) (s : string) : option Q :=
  match parse_decimal s with
  | Some q => Some q
  | None => float_other py s
  end.

(** [int(x)] for a float [x]: truncation towards zero. *)
Definition py_int (q : Q) : Z := Z.quot (Qnum q) (Z.pos (Qden q)).

(** Floats stand for the rationals they denote.  A result of magnitude
    [2^1024 - 2^970] or more is out of their range: it rounds to an
    infinity. *)
Definition float_overflow : Q := inject_Z (2 ^ 1024 - 2 ^ 970).

Definition out_of_range (q : Q) : bool := Qle_bool float_overflow (Qabs q).

(** [float(s)] is an infinity. *)
Definition float_is_infinite (py : PyRuntime) (s : string) : bool :=
  match parse_decimal s with
  | Some q => out_of_range q
  | None => float_infinite py s
  end.

(** ** core/rate_limiter.py *)

Module RateLimiter.

(** The attributes of a [RateLimiter] object (the lock is not modelled:
    [acquire] is one atomic transition). *)
Record limiter := Limiter {
  rate_limit : Z;
  tokens : Q;
  last_update : Q
}.

(** [__init__(rate_limit)], with [now] the reading of [time.time()]. *)
Definition init (rate : Z) (now : Q) : limiter :=
  {| rate_limit := rate; tokens := inject_Z rate; last_update := now |}.

(** [acquire(tokens=n)], with [now] the reading of [time.time()]. *)
Definition acquire (self : limiter) (now : Q) (n : Z) : bool * limiter :=
  let time_passed := (now - last_update self)%Q in
  let refilled :=
    Qmin (inject_Z (rate_limit self))
         (tokens self + time_passed * inject_Z (rate_limit self) / 60)%Q in
  if Qle_bool (inject_Z n) refilled
  then (true,  {| rate_limit := rate_limit self;
                  tokens := (refilled - inject_Z n)%Q;
                  last_update := now |})
  else (false, {| rate_limit := rate_limit self;
                  tokens := refilled;
                  last_update := now |}).

(** A run of calls [acquire(n)], each paired with its clock reading. *)
Fixpoint acquire_all (self : limiter) (calls : list (Q * Z)) : limiter :=
  match calls with
  | [] => self
  | (now, n) :: rest => acquire_all (snd (acquire self now n)) rest
  end.

(** [wait(tokens=n)].  [clock k] is the reading of [time.time()] in the
    call to [acquire] numbered [k]; [time.sleep(0.1)] separates two calls.
    [fuel] bounds the number of calls.  The result is the bucket after the
    granted call and the number of the call that comes next. *)
Fixpoint wait (fuel : nat) (self : limiter) (clock : nat -> Q) (k : nat) (n : Z)
  : option (limiter * nat) :=
  match fuel with
  | O => None
  | S fuel' =>
      let (granted, self') := acquire self (clock k) n in
      if granted then Some (self', S k)
      else wait fuel' self' clock (S k) n
  end.

(** The refill rule in the words of the specification: add
    [elapsed * capacity / 60] to the tokens, capped at the capacity. *)
Definition spec_refill (capacity : Z) (tokens0 elapsed : Q) : Q :=
  let added := (elapsed * inject_Z capacity / 60)%Q in
  if Qle_bool (inject_Z capacity) (tokens0 + added)%Q
  then inject_Z capacity else (tokens0 + added)%Q.

(** Clock readings that never go back and requests of at least one token. *)
Fixpoint well_timed (last : Q) (calls : list (Q * Z)) : Prop :=
  match calls with
  | [] => True
  | (now, n) :: rest => (last <= now)%Q /\ 1 <= n /\ well_timed now rest
  end.

End RateLimiter.

Module RateLimiterRegistry.

(** [self.limiters] (the lock is not modelled).  A caller holds a limiter
    by reference: the object is the entry of its source. *)
Definition registry := gmap string RateLimiter.limiter.

(** [__init__()]. *)
Definition init : registry := ∅.

(** [get_limiter(source, rate_limit)], with [now] the reading of
    [time.time()] should a limiter be created: the registry after the call
    and the limiter returned. *)
Definition get_limiter (self : registry) (source : string) (rate_limit : Z)
           (now : Q) : registry * RateLimiter.limiter :=
  match self !! source with
  | Some limiter => (self, limiter)
  | None =>
      let limiter := RateLimiter.init rate_limit now in
      (<[source := limiter]> self, limiter)
  end.

End RateLimiterRegistry.

(** ** core/models.py *)

(** Rows of [raw_coinpaprika], [raw_coingecko] and [raw_csv]. *)
Module RawRecord.
Record row := Row {
  coin_id : Value;
  raw_data : Dict;
  ingested_at : Time
}.
End RawRecord.

(** Rows of [coins]; unique on [(coin_id, source)]. *)
Module Coin.
Record row := Row {
  id : Z;
  coin_id : string;
  symbol : string;
  name : string;
  current_price : option Q;
  market_cap : option Q;
  volume_24h : option Q;
  price_change_24h : option Q;
  source : string;
  rank : option Z;
  last_updated : option Time;
  created_at : Time;
  updated_at : Time
}.
End Coin.

(** Rows of [etl_checkpoints]; unique on [source]. *)
Module ETLCheckpoint.
Record row := Row {
  id : Z;
  source : string;
  last_run_at : option Time;
  last_success_at : option Time;
  last_failure_at : option Time;
  status : string;
  records_processed : Z;
  error_message : option string;
  run_metadata : option Value;
  created_at : Time;
  updated_at : Time
}.
End ETLCheckpoint.

(** Rows of [etl_runs]; unique on [run_id]. *)
Module ETLRun.
Record row := Row {
  id : Z;
  run_id : string;
  source : string;
  status : string;
  records_processed : Z;
  duration_seconds : Z;
  started_at : Time;
  completed_at : option Time;
  error_message : option string;
  run_metadata : option Value
}.
End ETLRun.

(** The tables, as a session sees them. *)
Record DB := {
  raw_coinpaprika : list RawRecord.row;
  raw_coingecko : list RawRecord.row;
  raw_csv : list RawRecord.row;
  coins : list Coin.row;
  etl_checkpoints : list ETLCheckpoint.row;
  etl_runs : list ETLRun.row
}.

Definition set_raw_coinpaprika (db : DB) (t : list RawRecord.row) : DB :=
  {| raw_coinpaprika := t; raw_coingecko := raw_coingecko db;
     raw_csv := raw_csv db; coins := coins db;
     etl_checkpoints := etl_checkpoints db; etl_runs := etl_runs db |}.

Definition set_raw_coingecko (db : DB) (t : list RawRecord.row) : DB :=
  {| raw_coinpaprika := raw_coinpaprika db; raw_coingecko := t;
     raw_csv := raw_csv db; coins := coins db;
     etl_checkpoints := etl_checkpoints db; etl_runs := etl_runs db |}.

Definition set_raw_csv (db : DB) (t : list RawRecord.row) : DB :=
  {| raw_coinpaprika := raw_coinpaprika db; raw_coingecko := raw_coingecko db;
     raw_csv := t; coins := coins db;
     etl_checkpoints := etl_checkpoints db; etl_runs := etl_runs db |}.

Definition set_coins (db : DB) (t : list Coin.row) : DB :=
  {| raw_coinpaprika := raw_coinpaprika db; raw_coingecko := raw_coingecko db;
     raw_csv := raw_csv db; coins := t;
     etl_checkpoints := etl_checkpoints db; etl_runs := etl_runs db |}.

Definition set_etl_checkpoints (db : DB) (t : list ETLCheckpoint.row) : DB :=
  {| raw_coinpaprika := raw_coinpaprika db; raw_coingecko := raw_coingecko db;
     raw_csv := raw_csv db; coins := coins db;
     etl_checkpoints := t; etl_runs := etl_runs db |}.

Definition set_etl_runs (db : DB) (t : list ETLRun.row) : DB :=
  {| raw_coinpaprika := raw_coinpaprika db; raw_coingecko := raw_coingecko db;
     raw_csv := raw_csv db; coins := coins db;
     etl_checkpoints := etl_checkpoints db; etl_runs := t |}.

(** The next value of a table's [id] sequence (rows are never deleted). *)
Definition next_id {A} (table : list A) : Z := Z.of_nat (length table) + 1.

(** ** schemas/coin.py *)

(** The result of [CoinCreate(...).model_dump()]. *)
Module CoinCreate.
Record t := Make {
  coin_id : string;
  symbol : string;
  name : string;
  current_price : option Q;
  market_cap : option Q;
  volume_24h : option Q;
  price_change_24h : option Q;
  rank : option Z;
  source : string;
  last_updated : option Time
}.
End CoinCreate.

(** The keyword arguments [coin_data] handed to the [CoinCreate] constructor. *)
Record CoinData := {
  cd_coin_id : Value;
  cd_symbol : Value;
  cd_name : Value;
  cd_current_price : Value;
  cd_market_cap : Value;
  cd_volume_24h : Value;
  cd_price_change_24h : Value;
  cd_rank : Value;
  cd_source : string;
  cd_last_updated : Time
}.

Module CoinBase.

(** A field declared [str = Field(..., min_length=1)]. *)
Definition required_str (v : Value) : result string :=
  match v with
  | VStr s => if (1 <=? String.length s)%nat then Ok s
              else Raise "ValidationError"
  | _ => Raise "ValidationError"
  end.

(** A field declared [Optional[float]]. *)
Definition optional_float (py : PyRuntime) (v : Value) : result (option Q) :=
  match v with
  | VNone => Ok None
  | VFloat q => Ok (Some q)
  | VInt z => Ok (Some (inject_Z z))
  | _ => match lax_float py v with
         | Some q => Ok (Some q)
         | None => Raise "ValidationError"
         end
  end.

(** A field declared [Optional[int]]. *)
Definition optional_int (py : PyRuntime) (v : Value) : result (option Z) :=
  match v with
  | VNone => Ok None
  | VInt z => Ok (Some z)
  | _ => match lax_int py v with
         | Some z => Ok (Some z)
         | None => Raise "ValidationError"
         end
  end.

(** [@validator('symbol')]: [v.upper() if v else v]. *)
Definition symbol_uppercase (v : string) : string :=
  match v with
  | EmptyString => v
  | _ => upper v
  end.

(** [@validator('current_price', 'market_cap', 'volume_24h',
    'price_change_24h')]. *)
Definition validate_numeric (v : option Q) : option Q :=
  match v with
  | Some q => if negb (Qle_bool 0 q) (* v < 0 *) then None else v
  | None => v
  end.

End CoinBase.

(** The [CoinCreate] constructor followed by [model_dump()]: each field is checked against
    its declaration, then the field's validator runs. *)
Definition CoinCreate_validate (py : PyRuntime) (d : CoinData)
  : result CoinCreate.t :=
  try! coin_id := CoinBase.required_str (cd_coin_id d) in
  try! symbol := CoinBase.required_str (cd_symbol d) in
  try! name := CoinBase.required_str (cd_name d) in
  try! current_price := CoinBase.optional_float py (cd_current_price d) in
  try! market_cap := CoinBase.optional_float py (cd_market_cap d) in
  try! volume_24h := CoinBase.optional_float py (cd_volume_24h d) in
  try! price_change_24h := CoinBase.optional_float py (cd_price_change_24h d) in
  try! rank := CoinBase.optional_int py (cd_rank d) in
  Ok {| CoinCreate.coin_id := coin_id;
        CoinCreate.symbol := CoinBase.symbol_uppercase symbol;
        CoinCreate.name := name;
        CoinCreate.current_price := CoinBase.validate_numeric current_price;
        CoinCreate.market_cap := CoinBase.validate_numeric market_cap;
        CoinCreate.volume_24h := CoinBase.validate_numeric volume_24h;
        CoinCreate.price_change_24h := CoinBase.validate_numeric price_change_24h;
        CoinCreate.rank := rank;
        CoinCreate.source := cd_source d;
        CoinCreate.last_updated := Some (cd_last_updated d) |}.

(** [CoinResponse]: the fields and validators of [CoinBase] and the
    columns [id], [source], [last_updated], [created_at], [updated_at]. *)
Module CoinResponse.

Record t := Make {
  coin_id : string;
  symbol : string;
  name : string;
  current_price : option Q;
  market_cap : option Q;
  volume_24h : option Q;
  price_change_24h : option Q;
  rank : option Z;
  id : Z;
  source : string;
  last_updated : option Time;
  created_at : Time;
  updated_at : Time
}.

(** [CoinResponse.model_validate(coin)] for a row of [coins]
    ([from_attributes = True]). *)
Definition model_validate (coin : Coin.row) : result t :=
  try! coin_id := CoinBase.required_str (VStr (Coin.coin_id coin)) in
  try! symbol := CoinBase.required_str (VStr (Coin.symbol coin)) in
  try! name := CoinBase.required_str (VStr (Coin.name coin)) in
  Ok {| coin_id := coin_id;
        symbol := CoinBase.symbol_uppercase symbol;
        name := name;
        current_price := CoinBase.validate_numeric (Coin.current_price coin);
        market_cap := CoinBase.validate_numeric (Coin.market_cap coin);
        volume_24h := CoinBase.validate_numeric (Coin.volume_24h coin);
        price_change_24h := CoinBase.validate_numeric (Coin.price_change_24h coin);
        rank := Coin.rank coin;
        id := Coin.id coin;
        source := Coin.source coin;
        last_updated := Coin.last_updated coin;
        created_at := Coin.created_at coin;
        updated_at := Coin.updated_at coin |}.

End CoinResponse.

(** ** The runs: log, store, exceptions *)

(** The records written through [core.logging.logger] by the runner and
    the service, in the order of the calls. *)
Inductive LogEvent : Type :=
| Starting (source run_id : string) (attempt : nat)
| Extracting (source : string)
| Extracted (source : string) (n : nat)
| LoadingRaw (source : string)
| Transforming (source : string)
| Transformed (source : string) (n : nat)
| LoadingNormalized (source : string)
| Completed (source run_id : string) (records_processed : Z)
| Failed (source run_id : string) (attempt : nat) (error : string)
| Retrying (wait_time : Q)
| CheckpointFailed (error : string)
| UnknownSource (source_name : string)
| DispatchFailed (source error : string).

(** What persists when an exception unwinds: the committed tables, the
    attribute [self.records_processed] of the live pipeline object, and
    the log. *)
Record state := State {
  db : DB;
  records_processed : Z;
  log : list LogEvent
}.

Definition set_db (st : state) (d : DB) : state :=
  {| db := d; records_processed := records_processed st; log := log st |}.

(** Computations that read and write the [state], may raise, and may be
    cut short by a bound on their loops ([None]). *)
Definition M (A : Type) : Type := state -> option (result A * state).

Definition mret {A} (a : A) : M A := fun st => Some (Ok a, st).

Definition mraise {A} (msg : string) : M A := fun st => Some (Raise msg, st).

Definition out_of_fuel {A} : M A := fun _ => None.

Definition mbind {A B} (m : M A) (k : A -> M B) : M B :=
  fun st =>
    match m st with
    | Some (Ok a, st') => k a st'
    | Some (Raise msg, st') => Some (Raise msg, st')
    | None => None
    end.

Notation "'let!' x := m 'in' k" := (mbind m (fun x => k))
  (at level 10, x name, m at level 100, k at level 200).
Notation "'do!' m 'in' k" := (mbind m (fun _ => k))
  (at level 10, m at level 100, k at level 200).

(** [try: m except Exception as e: handler e]. *)
Definition try_except {A} (m : M A) (handler : string -> M A) : M A :=
  fun st =>
    match m st with
    | Some (Raise msg, st') => handler msg st'
    | other => other
    end.

Definition lift {A} (r : result A) : M A :=
  match r with
  | Ok a => mret a
  | Raise msg => mraise msg
  end.

(** [logger.info(...)], [logger.warning(...)], [logger.error(...)]. *)
Definition tell (e : LogEvent) : M unit :=
  fun st => Some (Ok tt, {| db := db st;
                            records_processed := records_processed st;
                            log := log st ++ [e] |}).

(** The longest time a C timestamp holds: [2^63 - 1] nanoseconds. *)
Definition sleep_max : Q := 9223372036854775807 # 1000000000.

(** [b ** n] for a float [b] and an [int] [n >= 0]: [OverflowError] when
    the power is out of range. *)
Definition float_pow (b : Q) (n : Z) : result Q :=
  let r := (b ^ n)%Q in
  if out_of_range r then Raise "(34, 'Numerical result out of range')"
  else Ok r.

(** [time.sleep(seconds)]: the length is first converted to a timestamp,
    an [OverflowError] when it does not fit; a negative length is then a
    [ValueError]. *)
Definition sleep (seconds : Q) : M unit :=
  if Qle_bool (Qabs seconds) sleep_max then
    if Qle_bool 0 seconds then mret tt
    else mraise "sleep length must be non-negative"
  else mraise "timestamp too large to convert to C _PyTime_t".

Definition get_records_processed : M Z :=
  fun st => Some (Ok (records_processed st), st).

Definition set_records_processed (n : Z) : M unit :=
  fun st => Some (Ok tt, {| db := db st; records_processed := n; log := log st |}).

(** The part of the world a run talks to.  A run consists of the attempts
    of the retry loop followed, when they are used up, by a final
    bookkeeping transaction. *)
Inductive Phase : Type :=
| Attempt (k : nat)
| Finalize.

Inductive Step : Type :=
| OpSession          (* SessionLocal() *)
| OpLoadRaw          (* clock reading only *)
| OpTransform        (* clock reading only *)
| OpLoadNormalized   (* db.execute(stmt) *)
| OpCheckpoint       (* the query and the write of update_checkpoint *)
| OpRunRecord        (* the write of create_run_record *)
| OpCommit.          (* db.commit() *)

Record Env := {
  (** whether the store fails at this step, and with what message *)
  fault : Phase -> Step -> option string;
  (** the reading of [datetime.utcnow()] at this step *)
  utcnow : Phase -> Step -> Time
}.

Definition store_call (env : Env) (ph : Phase) (op : Step) : M unit :=
  match fault env ph op with
  | Some msg => mraise msg
  | None => mret tt
  end.

(** ** core/database.py *)

(** [with get_db_context() as db: body]: the body works on a session;
    its changes are committed when it ends normally and dropped when it or
    the commit raises. *)
Definition get_db_context {A} (env : Env) (ph : Phase)
           (body : DB -> M (DB * A)) : M A :=
  fun st =>
    match fault env ph OpSession with
    | Some msg => Some (Raise msg, st)
    | None =>
        match body (db st) st with
        | Some (Ok (session, a), st') =>
            match fault env ph OpCommit with
            | Some msg => Some (Raise msg, st')
            | None => Some (Ok a, set_db st' session)
            end
        | Some (Raise msg, st') => Some (Raise msg, st')
        | None => None
        end
    end.

(** ** ingestion/base.py *)

Module BaseETL.

(** A pipeline object: the attributes set by [__init__] and the three
    abstract methods.  [extract k] is the outcome of the call to
    [extract()] made in attempt [k] (the rate limiter's [wait()] and the
    request happen inside it). *)
Record pipeline := Pipeline {
  source_name : string;
  run_id : string;
  started_at : Time;
  extract : nat -> result (list Dict);
  transform : Time -> list Dict -> result (list CoinCreate.t);
  load_raw : Time -> DB -> list Dict -> result DB
}.

(** The conflict target [index_elements=['coin_id', 'source']]. *)
Definition same_key (r : CoinCreate.t) (c : Coin.row) : Prop :=
  Coin.coin_id c = CoinCreate.coin_id r /\ Coin.source c = CoinCreate.source r.

#[global] Instance same_key_dec r c : Decision (same_key r c).
Proof. unfold same_key. apply _. Defined.

(** The row inserted when there is no conflict; [created_at] and
    [updated_at] take their column default. *)
Definition insert_values (now : Time) (fresh : Z) (r : CoinCreate.t) : Coin.row :=
  {| Coin.id := fresh;
     Coin.coin_id := CoinCreate.coin_id r;
     Coin.symbol := CoinCreate.symbol r;
     Coin.name := CoinCreate.name r;
     Coin.current_price := CoinCreate.current_price r;
     Coin.market_cap := CoinCreate.market_cap r;
     Coin.volume_24h := CoinCreate.volume_24h r;
     Coin.price_change_24h := CoinCreate.price_change_24h r;
     Coin.source := CoinCreate.source r;
     Coin.rank := CoinCreate.rank r;
     Coin.last_updated := CoinCreate.last_updated r;
     Coin.created_at := now;
     Coin.updated_at := now |}.

(** [on_conflict_do_update(set_={...})]: the listed columns are taken from
    the proposed row, [updated_at] is set, the others are kept. *)
Definition on_conflict_do_update (now : Time) (c : Coin.row) (r : CoinCreate.t)
  : Coin.row :=
  {| Coin.id := Coin.id c;
     Coin.coin_id := Coin.coin_id c;
     Coin.symbol := CoinCreate.symbol r;
     Coin.name := CoinCreate.name r;
     Coin.current_price := CoinCreate.current_price r;
     Coin.market_cap := CoinCreate.market_cap r;
     Coin.volume_24h := CoinCreate.volume_24h r;
     Coin.price_change_24h := CoinCreate.price_change_24h r;
     Coin.source := Coin.source c;
     Coin.rank := CoinCreate.rank r;
     Coin.last_updated := CoinCreate.last_updated r;
     Coin.created_at := Coin.created_at c;
     Coin.updated_at := now |}.

Definition upsert_row (now : Time) (table : list Coin.row) (r : CoinCreate.t)
  : list Coin.row :=
  match list_find (same_key r) table with
  | Some (i, c) => <[i := on_conflict_do_update now c r]> table
  | None => table ++ [insert_values now (next_id table) r]
  end.

(** [load_normalized(db, normalized_data)]. *)
Definition load_normalized (env : Env) (ph : Phase) (session : DB)
           (normalized_data : list CoinCreate.t) : M DB :=
  match normalized_data with
  | [] => mret session
  | _ =>
      let now := utcnow env ph OpLoadNormalized in
      do! store_call env ph OpLoadNormalized in
      let session' :=
        set_coins session (foldl (upsert_row now) (coins session) normalized_data) in
      let! processed := get_records_processed in
      do! set_records_processed (processed + Z.of_nat (length normalized_data)) in
      mret session'
  end.

(** The checkpoint row after the assignments of the [if checkpoint:] branch. *)
Definition touch_checkpoint (now : Time) (processed : Z) (status : string)
           (error_message : option string) (c : ETLCheckpoint.row)
  : ETLCheckpoint.row :=
  {| ETLCheckpoint.id := ETLCheckpoint.id c;
     ETLCheckpoint.source := ETLCheckpoint.source c;
     ETLCheckpoint.last_run_at := Some now;
     ETLCheckpoint.last_success_at :=
       if String.eqb status "success" then Some now
       else ETLCheckpoint.last_success_at c;
     ETLCheckpoint.last_failure_at :=
       if String.eqb status "success" then ETLCheckpoint.last_failure_at c
       else if String.eqb status "failure" then Some now
       else ETLCheckpoint.last_failure_at c;
     ETLCheckpoint.status := status;
     ETLCheckpoint.records_processed := processed;
     ETLCheckpoint.error_message :=
       if String.eqb status "success" then None
       else if String.eqb status "failure" then error_message
       else ETLCheckpoint.error_message c;
     ETLCheckpoint.run_metadata := ETLCheckpoint.run_metadata c;
     ETLCheckpoint.created_at := ETLCheckpoint.created_at c;
     ETLCheckpoint.updated_at := now |}.

(** The row built in the [else:] branch. *)
Definition new_checkpoint (now : Time) (fresh : Z) (source : string)
           (processed : Z) (status : string) (error_message : option string)
  : ETLCheckpoint.row :=
  {| ETLCheckpoint.id := fresh;
     ETLCheckpoint.source := source;
     ETLCheckpoint.last_run_at := Some now;
     ETLCheckpoint.last_success_at :=
       if String.eqb status "success" then Some now else None;
     ETLCheckpoint.last_failure_at :=
       if String.eqb status "failure" then Some now else None;
     ETLCheckpoint.status := status;
     ETLCheckpoint.records_processed := processed;
     ETLCheckpoint.error_message := error_message;
     ETLCheckpoint.run_metadata := None;
     ETLCheckpoint.created_at := now;
     ETLCheckpoint.updated_at := now |}.

(** [update_checkpoint(db, status, error_message)]. *)
Definition update_checkpoint (self : pipeline) (env : Env) (ph : Phase)
           (session : DB) (status : string) (error_message : option string)
  : M DB :=
  let now := utcnow env ph OpCheckpoint in
  do! store_call env ph OpCheckpoint in
  let! processed := get_records_processed in
  let table := etl_checkpoints session in
  match list_find (fun c => ETLCheckpoint.source c = source_name self) table with
  | Some (i, checkpoint) =>
      mret (set_etl_checkpoints session
              (<[i := touch_checkpoint now processed status error_message checkpoint]>
                 table))
  | None =>
      mret (set_etl_checkpoints session
              (table ++ [new_checkpoint now (next_id table) (source_name self)
                                        processed status error_message]))
  end.

(** [create_run_record(db, status, error_message)]. *)
Definition create_run_record (self : pipeline) (env : Env) (ph : Phase)
           (session : DB) (status : string) (error_message : option string)
  : M DB :=
  let completed_at := utcnow env ph OpRunRecord in
  let duration := completed_at - started_at self in
  do! store_call env ph OpRunRecord in
  let! processed := get_records_processed in
  let table := etl_runs session in
  mret (set_etl_runs session
          (table ++ [{| ETLRun.id := next_id table;
                        ETLRun.run_id := run_id self;
                        ETLRun.source := source_name self;
                        ETLRun.status := status;
                        ETLRun.records_processed := processed;
                        ETLRun.duration_seconds := duration;
                        ETLRun.started_at := started_at self;
                        ETLRun.completed_at := Some completed_at;
                        ETLRun.error_message := error_message;
                        ETLRun.run_metadata := None |}])).

(** The body of [with get_db_context() as db:] inside the retry loop. *)
Definition pipeline_body (self : pipeline) (env : Env) (attempt : nat)
           (session : DB) : M (DB * bool) :=
  let ph := Attempt attempt in
  let src := source_name self in
  do! tell (Extracting src) in
  let! raw_data := lift (extract self attempt) in
  do! tell (Extracted src (length raw_data)) in
  do! tell (LoadingRaw src) in
  let! session1 := lift (load_raw self (utcnow env ph OpLoadRaw) session raw_data) in
  do! tell (Transforming src) in
  let! normalized_data := lift (transform self (utcnow env ph OpTransform) raw_data) in
  do! tell (Transformed src (length normalized_data)) in
  do! tell (LoadingNormalized src) in
  let! session2 := load_normalized env ph session1 normalized_data in
  let! session3 := update_checkpoint self env ph session2 "success" None in
  let! session4 := create_run_record self env ph session3 "success" None in
  let! processed := get_records_processed in
  do! tell (Completed src (run_id self) processed) in
  mret (session4, true).

(** The block after the loop ("All retries failed"). *)
Definition finalize (self : pipeline) (env : Env) (last_error : option string)
  : M bool :=
  do! try_except
        (get_db_context env Finalize (fun session =>
           let! session1 :=
             update_checkpoint self env Finalize session "failure" last_error in
           let! session2 :=
             create_run_record self env Finalize session1 "failure" last_error in
           mret (session2, tt)))
        (fun e => tell (CheckpointFailed e)) in
  mret false.

(** The body of [try:] inside the retry loop. *)
Definition try_body (self : pipeline) (env : Env) (attempt : nat) : M bool :=
  do! tell (Starting (source_name self) (run_id self) (attempt + 1)) in
  get_db_context env (Attempt attempt) (pipeline_body self env attempt).

(** The [while attempt < max_retries:] loop.  [fuel] bounds the number of
    iterations; [run] supplies enough of it. *)
Fixpoint run_loop (self : pipeline) (env : Env) (max_retries : Z)
         (backoff_factor : Q) (fuel : nat) (attempt : nat)
         (last_error : option string) : M bool :=
  match fuel with
  | O => out_of_fuel
  | S fuel' =>
      if (Z.of_nat attempt <? max_retries)%Z then
        try_except
          (try_body self env attempt)
          (fun e =>
             let last_error := Some e in
             let attempt := S attempt in
             do! tell (Failed (source_name self) (run_id self) attempt e) in
             do! (if (Z.of_nat attempt <? max_retries)%Z
                  then
                    let! wait_time :=
                      lift (float_pow backoff_factor (Z.of_nat attempt)) in
                    do! tell (Retrying wait_time) in
                    sleep wait_time
                  else mret tt) in
             run_loop self env max_retries backoff_factor fuel' attempt last_error)
      else finalize self env last_error
  end.

(** [run(max_retries, backoff_factor)]. *)
Definition run (self : pipeline) (env : Env) (max_retries : Z)
           (backoff_factor : Q) : M bool :=
  run_loop self env max_retries backoff_factor
           (S (Z.to_nat max_retries)) 0 None.

End BaseETL.

(** ** The three sources *)

(** [v.upper()] for an arbitrary object: only [str] has the method. *)
Definition call_upper (v : Value) : result string :=
  match v with
  | VStr s => Ok (upper s)
  | _ => Raise "AttributeError"
  end.

(** [v.get(key, default)] for an arbitrary object: only [dict] has it. *)
Definition call_get (v : Value) (key : string) (default : Value) : result Value :=
  match v with
  | VDict d => Ok (get d key default)
  | _ => Raise "AttributeError"
  end.

(** The loop shared by the three [transform] methods: the candidate of
    each item is built and validated inside [try:]; on [except Exception]
    the item is skipped. *)
Fixpoint transform_loop (candidate : Dict -> result CoinCreate.t)
         (raw_data : list Dict) (normalized : list CoinCreate.t)
  : list CoinCreate.t :=
  match raw_data with
  | [] => normalized
  | item :: rest =>
      match candidate item with
      | Ok validated => transform_loop candidate rest (normalized ++ [validated])
      | Raise _ => transform_loop candidate rest normalized
      end
  end.

(** The loop shared by the three [load_raw] methods: one [db.add] per item. *)
Fixpoint load_raw_loop (add : DB -> Dict -> DB) (session : DB)
         (raw_data : list Dict) : DB :=
  match raw_data with
  | [] => session
  | item :: rest => load_raw_loop add (add session item) rest
  end.

(** *** ingestion/coinpaprika.py *)

Module CoinPaprikaETL.

Definition transform_item (py : PyRuntime) (now : Time) (item : Dict)
  : result CoinCreate.t :=
  try! quotes := call_get (get item "quotes" (VDict [])) "USD" (VDict []) in
  try! symbol := call_upper (get item "symbol" (VStr "")) in
  try! price := call_get quotes "price" VNone in
  try! market_cap := call_get quotes "market_cap" VNone in
  try! volume_24h := call_get quotes "volume_24h" VNone in
  try! percent_change_24h := call_get quotes "percent_change_24h" VNone in
  CoinCreate_validate py
    {| cd_coin_id := get item "id" (VStr "");
       cd_symbol := VStr symbol;
       cd_name := get item "name" (VStr "");
       cd_current_price := price;
       cd_market_cap := market_cap;
       cd_volume_24h := volume_24h;
       cd_price_change_24h := percent_change_24h;
       cd_rank := get item "rank" VNone;
       cd_source := "coinpaprika";
       cd_last_updated := now |}.

Definition transform (py : PyRuntime) (now : Time) (raw_data : list Dict)
  : list CoinCreate.t :=
  transform_loop (transform_item py now) raw_data [].

Definition add_raw (now : Time) (session : DB) (item : Dict) : DB :=
  set_raw_coinpaprika session
    (raw_coinpaprika session ++
       [{| RawRecord.coin_id := get item "id" (VStr "unknown");
           RawRecord.raw_data := item;
           RawRecord.ingested_at := now |}]).

Definition load_raw (now : Time) (session : DB) (raw_data : list Dict) : DB :=
  load_raw_loop (add_raw now) session raw_data.

(** [CoinPaprikaETL()], given the identity drawn by [uuid.uuid4()], the
    clock and the behaviour of the remote API. *)
Definition init (py : PyRuntime) (run_id : string) (now : Time)
           (extract : nat -> result (list Dict)) : BaseETL.pipeline :=
  {| BaseETL.source_name := "coinpaprika";
     BaseETL.run_id := run_id;
     BaseETL.started_at := now;
     BaseETL.extract := extract;
     BaseETL.transform := fun t raw => Ok (transform py t raw);
     BaseETL.load_raw := fun t session raw => Ok (load_raw t session raw) |}.

End CoinPaprikaETL.

(** *** ingestion/coingecko.py *)

Module CoinGeckoETL.

Definition transform_item (py : PyRuntime) (now : Time) (item : Dict)
  : result CoinCreate.t :=
  try! symbol := call_upper (get item "symbol" (VStr "")) in
  CoinCreate_validate py
    {| cd_coin_id := get item "id" (VStr "");
       cd_symbol := VStr symbol;
       cd_name := get item "name" (VStr "");
       cd_current_price := get item "current_price" VNone;
       cd_market_cap := get item "market_cap" VNone;
       cd_volume_24h := get item "total_volume" VNone;
       cd_price_change_24h := get item "price_change_percentage_24h" VNone;
       cd_rank := get item "market_cap_rank" VNone;
       cd_source := "coingecko";
       cd_last_updated := now |}.

Definition transform (py : PyRuntime) (now : Time) (raw_data : list Dict)
  : list CoinCreate.t :=
  transform_loop (transform_item py now) raw_data [].

Definition add_raw (now : Time) (session : DB) (item : Dict) : DB :=
  set_raw_coingecko session
    (raw_coingecko session ++
       [{| RawRecord.coin_id := get item "id" (VStr "unknown");
           RawRecord.raw_data := item;
           RawRecord.ingested_at := now |}]).

Definition load_raw (now : Time) (session : DB) (raw_data : list Dict) : DB :=
  load_raw_loop (add_raw now) session raw_data.

Definition init (py : PyRuntime) (run_id : string) (now : Time)
           (extract : nat -> result (list Dict)) : BaseETL.pipeline :=
  {| BaseETL.source_name := "coingecko";
     BaseETL.run_id := run_id;
     BaseETL.started_at := now;
     BaseETL.extract := extract;
     BaseETL.transform := fun t raw => Ok (transform py t raw);
     BaseETL.load_raw := fun t session raw => Ok (load_raw t session raw) |}.

End CoinGeckoETL.

(** *** ingestion/csv_source.py *)

Module CSVSourceETL.

(** [extract()].  [file] is what is found at [csv_path]: nothing, or a file
    whose reading through [csv.DictReader] gives rows or raises. *)
Definition extract (file : option (result (list Dict))) : result (list Dict) :=
  match file with
  | None => Ok []
  | Some rows => rows
  end.

(** [_parse_float(value)]; the result is a [float] or [None]. *)
Definition _parse_float (py : PyRuntime) (value : Value) : Value :=
  match value with
  | VNone => VNone
  | VStr EmptyString => VNone
  | _ =>
      match py_float py (remove_char "$" (remove_char "," (py_str py value))) with
      | Some q => VFloat q
      | None => VNone
      end
  end.

(** [_parse_int(value)]; the result is an [int] or [None].  [int(x)] of an
    infinite float is an [OverflowError], which the [except] clause does
    not list. *)
Definition _parse_int (py : PyRuntime) (value : Value) : result Value :=
  match value with
  | VNone => Ok VNone
  | VStr EmptyString => Ok VNone
  | _ =>
      let s := py_str py value in
      if float_is_infinite py s
      then Raise "cannot convert float infinity to integer"
      else match py_float py s with
           | Some q => Ok (VInt (py_int q))
           | None => Ok VNone
           end
  end.

Definition transform_item (py : PyRuntime) (now : Time) (item : Dict)
  : result CoinCreate.t :=
  try! rank := _parse_int py (get item "rank" VNone) in
  CoinCreate_validate py
    {| cd_coin_id := get item "coin_id" (get item "id" (VStr ""));
       cd_symbol := VStr (upper (py_str py (get item "symbol" (VStr ""))));
       cd_name := get item "name" (VStr "");
       cd_current_price :=
         _parse_float py (get item "price" (get item "current_price" VNone));
       cd_market_cap := _parse_float py (get item "market_cap" VNone);
       cd_volume_24h :=
         _parse_float py (get item "volume" (get item "volume_24h" VNone));
       cd_price_change_24h :=
         _parse_float py (get item "change_24h" (get item "price_change_24h" VNone));
       cd_rank := rank;
       cd_source := "csv";
       cd_last_updated := now |}.

Definition transform (py : PyRuntime) (now : Time) (raw_data : list Dict)
  : list CoinCreate.t :=
  transform_loop (transform_item py now) raw_data [].

Definition add_raw (now : Time) (session : DB) (item : Dict) : DB :=
  set_raw_csv session
    (raw_csv session ++
       [{| RawRecord.coin_id := get item "coin_id" (get item "id" (VStr "unknown"));
           RawRecord.raw_data := item;
           RawRecord.ingested_at := now |}]).

Definition load_raw (now : Time) (session : DB) (raw_data : list Dict) : DB :=
  load_raw_loop (add_raw now) session raw_data.

Definition init (py : PyRuntime) (run_id : string) (now : Time)
           (extract : nat -> result (list Dict)) : BaseETL.pipeline :=
  {| BaseETL.source_name := "csv";
     BaseETL.run_id := run_id;
     BaseETL.started_at := now;
     BaseETL.extract := extract;
     BaseETL.transform := fun t raw => Ok (transform py t raw);
     BaseETL.load_raw := fun t session raw => Ok (load_raw t session raw) |}.

End CSVSourceETL.

(** ** services/etl_service.py *)

Module ETLService.

(** An entry of [self.etl_sources]: calling the class builds a pipeline
    object (or raises); [world] is what the run of that object meets. *)
Record etl_class := {
  construct : result BaseETL.pipeline;
  world : Env
}.

(** [self.etl_sources], in insertion order. *)
Definition registry := list (string * etl_class).

(** What a source meets when its class is called and its pipeline run:
    the identity drawn for the run, the clock, the behaviour of the remote
    API or file, and the store. *)
Record outside := {
  fresh_run_id : string;
  clock : Time;
  remote : nat -> result (list Dict);
  store : Env
}.

(** [__init__]: the three registered classes. *)
Definition init (py : PyRuntime) (coinpaprika coingecko csv : outside) : registry :=
  [ ("coinpaprika",
     {| construct := Ok (CoinPaprikaETL.init py (fresh_run_id coinpaprika)
                           (clock coinpaprika) (remote coinpaprika));
        world := store coinpaprika |});
    ("coingecko",
     {| construct := Ok (CoinGeckoETL.init py (fresh_run_id coingecko)
                           (clock coingecko) (remote coingecko));
        world := store coingecko |});
    ("csv",
     {| construct := Ok (CSVSourceETL.init py (fresh_run_id csv)
                           (clock csv) (remote csv));
        world := store csv |}) ].

Fixpoint lookup_source (etl_sources : registry) (source_name : string)
  : option etl_class :=
  match etl_sources with
  | [] => None
  | (name, cls) :: rest =>
      if String.eqb name source_name then Some cls
      else lookup_source rest source_name
  end.

(** [run_single_source(source_name)]; [etl.run()] takes the defaults
    [max_retries=3], [backoff_factor=2.0]. *)
Definition run_single_source (etl_sources : registry) (source_name : string)
  : M bool :=
  match lookup_source etl_sources source_name with
  | None =>
      do! tell (UnknownSource source_name) in
      mret false
  | Some cls =>
      let! etl := lift (construct cls) in
      do! set_records_processed 0 in
      BaseETL.run etl (world cls) 3 2
  end.

(** The [for future in as_completed(...)] loop; [completed] lists the
    sources in the order in which their futures complete.  The runs of
    the worker threads are taken one after the other, in that order. *)
Fixpoint collect_completed (etl_sources : registry) (completed : list string)
         (results : gmap string bool) : M (gmap string bool) :=
  match completed with
  | [] => mret results
  | source :: rest =>
      let! outcome :=
        try_except (run_single_source etl_sources source)
                   (fun e => do! tell (DispatchFailed source e) in mret false) in
      collect_completed etl_sources rest (<[source := outcome]> results)
  end.

(** The [for source in self.etl_sources.keys()] loop of the sequential
    branch. *)
Fixpoint collect_sequential (etl_sources : registry) (sources : list string)
         (results : gmap string bool) : M (gmap string bool) :=
  match sources with
  | [] => mret results
  | source :: rest =>
      let! outcome := run_single_source etl_sources source in
      collect_sequential etl_sources rest (<[source := outcome]> results)
  end.

(** [run_all_sources(parallel)]. *)
Definition run_all_sources (etl_sources : registry) (parallel : bool)
           (completed : list string) : M (gmap string bool) :=
  if parallel
  then collect_completed etl_sources completed ∅
  else collect_sequential etl_sources (etl_sources.*1) ∅.

(** The value stored per source by [get_etl_status]. *)
Record SourceStatus := {
  ss_last_run : option string;
  ss_last_success : option string;
  ss_last_failure : option string;
  ss_status : string;
  ss_records_processed : Z;
  ss_error_message : option string
}.

Definition status_entry (isoformat : Time -> string) (checkpoint : ETLCheckpoint.row)
  : SourceStatus :=
  {| ss_last_run := option_map isoformat (ETLCheckpoint.last_run_at checkpoint);
     ss_last_success := option_map isoformat (ETLCheckpoint.last_success_at checkpoint);
     ss_last_failure := option_map isoformat (ETLCheckpoint.last_failure_at checkpoint);
     ss_status := ETLCheckpoint.status checkpoint;
     ss_records_processed := ETLCheckpoint.records_processed checkpoint;
     ss_error_message := ETLCheckpoint.error_message checkpoint |}.

(** [get_etl_status()].  [ph] names the transaction in the world [env];
    [isoformat] is [datetime.isoformat].  The rows come in the order of
    the table. *)
Definition get_etl_status (env : Env) (ph : Phase) (isoformat : Time -> string)
  : M (list (string * SourceStatus)) :=
  get_db_context env ph (fun db =>
    do! store_call env ph OpCheckpoint in
    let checkpoints := etl_checkpoints db in
    let status :=
      foldl (fun status checkpoint =>
               dict_set status (ETLCheckpoint.source checkpoint)
                        (status_entry isoformat checkpoint))
            [] checkpoints in
    mret (db, status)).

End ETLService.

(** ** services/data_service.py *)

Module DataService.

(** What the database engine decides: the arrangement of the rows under
    [ORDER BY rank DESC] (the place of [NULL] and the order among equal
    ranks), and the outcome of a query with a negative [OFFSET] or
    [LIMIT]. *)
Record Engine := {
  order_by_desc_rank : list Coin.row -> list Coin.row;
  negative_window : Z -> Z -> list Coin.row -> result (list Coin.row)
}.

(** [query.order_by(desc(Coin.rank)).offset(offset).limit(limit).all()]. *)
Definition page_query (engine : Engine) (query : list Coin.row) (offset limit : Z)
  : result (list Coin.row) :=
  if ((offset <? 0) || (limit <? 0))%Z
  then negative_window engine offset limit query
  else Ok (take (Z.to_nat limit) (drop (Z.to_nat offset)
                                       (order_by_desc_rank engine query))).

(** [get_coins(db, page, page_size, source, symbol)] on a session that
    answers its queries. *)
Definition get_coins (engine : Engine) (session : DB) (page page_size : Z)
           (source symbol : option string) : result (list CoinResponse.t * Z) :=
  let query := coins session in
  let query :=
    match source with
    | Some source =>
        if truthy (Some source)
        then filter (fun c => Coin.source c = lower source) query
        else query
    | None => query
    end in
  let query :=
    match symbol with
    | Some symbol =>
        if truthy (Some symbol)
        then filter (fun c => Coin.symbol c = upper symbol) query
        else query
    | None => query
    end in
  let total_count := Z.of_nat (length query) in
  let offset := (page - 1) * page_size in
  try! coins := page_query engine query offset page_size in
  try! responses := map_result CoinResponse.model_validate coins in
  Ok (responses, total_count).

End DataService.

(** ** api/routes.py *)

Module Routes.

(** The [HealthStatus] response; [etl_last_run], [etl_state] and
    [etl_sources] are the entries ["last_run"], ["status"] and ["sources"]
    of its [etl_status]. *)
Record HealthStatus := {
  status : string;
  database : string;
  etl_last_run : option string;
  etl_state : string;
  etl_sources : list (string * string)
}.

(** The first loop of [health_check] over [etl_status_data.items()]:
    the status of each source, and the overall status. *)
Definition sources_loop (sources_status : list (string * string))
           (overall_status : string)
           (etl_status_data : list (string * ETLService.SourceStatus))
  : list (string * string) * string :=
  foldl (fun '(sources_status, overall_status) '(source, status) =>
           (dict_set sources_status source (ETLService.ss_status status),
            if String.eqb (ETLService.ss_status status) "failure"
            then "degraded" else overall_status))
        (sources_status, overall_status) etl_status_data.

(** The second loop: the most recent run.  Texts are compared as Python
    compares [str] values. *)
Definition latest_run_loop (latest_run : option string)
           (etl_status_data : list (string * ETLService.SourceStatus))
  : option string :=
  foldl (fun latest_run '(source, status) =>
           match ETLService.ss_last_run status with
           | Some last_run =>
               if truthy (Some last_run)
               then match latest_run with
                    | Some latest =>
                        if negb (truthy (Some latest)) || String.ltb latest last_run
                        then Some last_run else latest_run
                    | None => Some last_run
                    end
               else latest_run
           | None => latest_run
           end)
        latest_run etl_status_data.

(** [health_check(db)].  [select_1] is the failure, if any, of
    [db.execute(text("SELECT 1"))] on the injected session; the status of
    the sources is read in a transaction of its own. *)
Definition health_check (select_1 : option string) (env : Env) (ph : Phase)
           (isoformat : Time -> string) : M HealthStatus :=
  let db_status :=
    match select_1 with
    | None => "connected"
    | Some _ => "disconnected"
    end in
  let! etl_status_data := ETLService.get_etl_status env ph isoformat in
  let overall_status :=
    if String.eqb db_status "connected" then "healthy" else "unhealthy" in
  let '(sources_status, overall_status) :=
    sources_loop [] overall_status etl_status_data in
  let '(etl_last_run, etl_state) :=
    match etl_status_data with
    | [] => (None, "unknown")
    | _ =>
        let latest_run := latest_run_loop None etl_status_data in
        if truthy latest_run
        then (latest_run,
              if forallb (fun s => String.eqb s "success") (sources_status.*2)
              then "success"
              else if existsb (fun s => String.eqb s "failure") (sources_status.*2)
                   then "partial_failure"
                   else "running")
        else (None, "unknown")
    end in
  mret {| status := overall_status;
          database := db_status;
          etl_last_run := etl_last_run;
          etl_state := etl_state;
          etl_sources := sources_status |}.

(** The two answers of [trigger_etl]. *)
Inductive TriggerResponse : Type :=
| TriggeredOne (message : string) (success : bool)
| TriggeredAll (message : string) (results : gmap string bool).

(** [trigger_etl(source)]; [completed] is the order in which the futures
    of [run_all_sources] complete.  [HTTPException(status_code=500,
    detail=...)] is raised with its detail as message. *)
Definition trigger_etl (etl_sources : ETLService.registry) (completed : list string)
           (source : option string) : M TriggerResponse :=
  try_except
    (match source with
     | Some (String _ _ as source) =>
         let! success := ETLService.run_single_source etl_sources source in
         mret (TriggeredOne ("ETL triggered for " ++ source) success)
     | _ =>
         let! results := ETLService.run_all_sources etl_sources true completed in
         mret (TriggeredAll "ETL triggered for all sources" results)
     end)
    (fun e => mraise ("Failed to trigger ETL: " ++ e)).

End Routes.

(** ** Vocabulary of the statements *)

(** The record an item contributes to the output of [transform], if any. *)
Definition accepted (candidate : Dict -> result CoinCreate.t) (item : Dict)
  : option CoinCreate.t :=
  match candidate item with
  | Ok r => Some r
  | Raise _ => None
  end.

(** "Numeric fields clamped negative -> absent", in the words of the
    specification. *)
Definition spec_clamp (v : option Q) : option Q :=
  match v with
  | Some q => if Qlt_le_dec q 0 then None else Some q
  | None => None
  end.

(** What the specification promises of a normalized record, [rank] apart. *)
Definition spec_normalized (r : CoinCreate.t) : Prop :=
  upper (CoinCreate.symbol r) = CoinCreate.symbol r
  /\ CoinCreate.coin_id r <> ""
  /\ CoinCreate.symbol r <> ""
  /\ CoinCreate.name r <> ""
  /\ (forall q, CoinCreate.current_price r = Some q -> (0 <= q)%Q)
  /\ (forall q, CoinCreate.market_cap r = Some q -> (0 <= q)%Q)
  /\ (forall q, CoinCreate.volume_24h r = Some q -> (0 <= q)%Q)
  /\ (forall q, CoinCreate.price_change_24h r = Some q -> (0 <= q)%Q).

(** The row a raw item is stored as by [CoinPaprikaETL.load_raw]. *)
Definition coinpaprika_raw_row (now : Time) (item : Dict) : RawRecord.row :=
  {| RawRecord.coin_id := get item "id" (VStr "unknown");
     RawRecord.raw_data := item;
     RawRecord.ingested_at := now |}.

(** The row a raw item is stored as by [CoinGeckoETL.load_raw]. *)
Definition coingecko_raw_row (now : Time) (item : Dict) : RawRecord.row :=
  {| RawRecord.coin_id := get item "id" (VStr "unknown");
     RawRecord.raw_data := item;
     RawRecord.ingested_at := now |}.

(** The row a raw item is stored as by [CSVSourceETL.load_raw]. *)
Definition csv_raw_row (now : Time) (item : Dict) : RawRecord.row :=
  {| RawRecord.coin_id := get item "coin_id" (get item "id" (VStr "unknown"));
     RawRecord.raw_data := item;
     RawRecord.ingested_at := now |}.

(** A row with [updated_at] set and every other column as it was. *)
Definition stamp (now : Time) (c : Coin.row) : Coin.row :=
  {| Coin.id := Coin.id c;
     Coin.coin_id := Coin.coin_id c;
     Coin.symbol := Coin.symbol c;
     Coin.name := Coin.name c;
     Coin.current_price := Coin.current_price c;
     Coin.market_cap := Coin.market_cap c;
     Coin.volume_24h := Coin.volume_24h c;
     Coin.price_change_24h := Coin.price_change_24h c;
     Coin.source := Coin.source c;
     Coin.rank := Coin.rank c;
     Coin.last_updated := Coin.last_updated c;
     Coin.created_at := Coin.created_at c;
     Coin.updated_at := now |}.

(** The constraint [UniqueConstraint('coin_id', 'source')] of [coins]. *)
Definition uq_coin_source (table : list Coin.row) : Prop :=
  forall i j c c',
    table !! i = Some c -> table !! j = Some c' ->
    Coin.coin_id c = Coin.coin_id c' -> Coin.source c = Coin.source c' -> i = j.

(** Two proposed rows that conflict on [(coin_id, source)]. *)
Definition same_target (r r' : CoinCreate.t) : Prop :=
  CoinCreate.coin_id r' = CoinCreate.coin_id r
  /\ CoinCreate.source r' = CoinCreate.source r.

(** [sole r t i c]: row [c], at place [i], is the one row of [t] with the
    key of [r]; [absent r t]: there is none. *)
Definition sole (r : CoinCreate.t) (t : list Coin.row) (i : nat) (c : Coin.row) : Prop :=
  t !! i = Some c /\ BaseETL.same_key r c
  /\ forall j c', t !! j = Some c' -> BaseETL.same_key r c' -> j = i.

Definition absent (r : CoinCreate.t) (t : list Coin.row) : Prop :=
  forall j c', t !! j = Some c' -> ~ BaseETL.same_key r c'.

(** The columns written by the upsert agree with the proposed row. *)
Definition agrees (r : CoinCreate.t) (c : Coin.row) : Prop :=
  Coin.symbol c = CoinCreate.symbol r
  /\ Coin.name c = CoinCreate.name r
  /\ Coin.current_price c = CoinCreate.current_price r
  /\ Coin.market_cap c = CoinCreate.market_cap r
  /\ Coin.volume_24h c = CoinCreate.volume_24h r
  /\ Coin.price_change_24h c = CoinCreate.price_change_24h r
  /\ Coin.rank c = CoinCreate.rank r
  /\ Coin.last_updated c = CoinCreate.last_updated r.

#[global] Instance same_target_dec r r' : Decision (same_target r r').
Proof. unfold same_target. apply _. Defined.

(** Some row of [t] has the key of [r]. *)
Definition present (r : CoinCreate.t) (t : list Coin.row) : Prop :=
  exists i c, t !! i = Some c /\ BaseETL.same_key r c.

(** [m] returns or raises (it is not cut short), leaves the committed
    tables alone, and what it returns satisfies [P]. *)
Definition quiet {A} (m : M A) (P : A -> Prop) : Prop :=
  forall st, exists r st',
    m st = Some (r, st') /\ db st' = db st /\ (forall a, r = Ok a -> P a).

(** The first step of a phase at which the store fails, if any. *)
Fixpoint first_fault (env : Env) (ph : Phase) (steps : list Step) : option string :=
  match steps with
  | [] => None
  | op :: rest =>
      match fault env ph op with
      | Some msg => Some msg
      | None => first_fault env ph rest
      end
  end.

(** The failure, if any, of the final bookkeeping transaction. *)
Definition finalize_fault (env : Env) : option string :=
  first_fault env Finalize [OpSession; OpCheckpoint; OpRunRecord; OpCommit].

(** The number of attempts announced in a log. *)
Definition is_starting (e : LogEvent) : bool :=
  match e with
  | Starting _ _ _ => true
  | _ => false
  end.

Definition attempts_logged (events : list LogEvent) : nat :=
  length (List.filter is_starting events).

(** The number of calls to [extract()] announced in a log. *)
Definition is_extracting (e : LogEvent) : bool :=
  match e with
  | Extracting _ => true
  | _ => false
  end.

Definition extracts_logged (events : list LogEvent) : nat :=
  length (List.filter is_extracting events).

(** The events of the extract, transform and load steps. *)
Definition is_step_event (e : LogEvent) : bool :=
  match e with
  | Extracting _ | Extracted _ _ | LoadingRaw _ | Transforming _
  | Transformed _ _ | LoadingNormalized _ | Completed _ _ _ => true
  | _ => false
  end.

(** The error of attempt [k] of a pipeline whose [extract] fails: that of
    opening the session if the store refuses it, else that of [extract]. *)
Definition attempt_error (self : BaseETL.pipeline) (env : Env) (k : nat) : string :=
  match fault env (Attempt k) OpSession with
  | Some msg => msg
  | None => match BaseETL.extract self k with
            | Raise msg => msg
            | Ok _ => ""
            end
  end.

(** The checkpoint row that [.first()] returns for a source. *)
Definition checkpoint_of (source : string) (d : DB)
  : option (nat * ETLCheckpoint.row) :=
  list_find (fun c => ETLCheckpoint.source c = source) (etl_checkpoints d).

(** The state after more records were logged. *)
Definition logged (st : state) (events : list LogEvent) : state :=
  {| db := db st; records_processed := records_processed st;
     log := log st ++ events |}.

(** What the [except] block of the retry loop logs after attempt
    [attempt] (counted from 0) failed with [e]. *)
Definition failure_events (self : BaseETL.pipeline) (max_retries : Z)
           (backoff_factor : Q) (attempt : nat) (e : string) : list LogEvent :=
  Failed (BaseETL.source_name self) (BaseETL.run_id self) (S attempt) e
  :: (if (Z.of_nat (S attempt) <? max_retries)%Z
      then [Retrying (backoff_factor ^ Z.of_nat (S attempt))%Q]
      else []).

(** What an attempt whose [extract] fails logs before it raises. *)
Definition failed_attempt_events (self : BaseETL.pipeline) (env : Env) (k : nat)
  : list LogEvent :=
  Starting (BaseETL.source_name self) (BaseETL.run_id self) (k + 1)
  :: match fault env (Attempt k) OpSession with
     | Some _ => []
     | None => [Extracting (BaseETL.source_name self)]
     end.

(** A pipeline whose [load_raw] leaves the checkpoint table alone (it
    only adds raw rows). *)
Definition raw_keeps_checkpoints (self : BaseETL.pipeline) : Prop :=
  forall now session raw_data session',
    BaseETL.load_raw self now session raw_data = Ok session' ->
    etl_checkpoints session' = etl_checkpoints session.

(** The checkpoint rows of the other sources are as in [session]. *)
Definition others_kept (self : BaseETL.pipeline) (session session' : DB) : Prop :=
  forall other, other <> BaseETL.source_name self ->
                checkpoint_of other session' = checkpoint_of other session.

(** A registered class whose [extract] fails in every attempt. *)
Definition extract_always_fails (cls : ETLService.etl_class) : Prop :=
  exists etl, ETLService.construct cls = Ok etl
              /\ forall k, exists e, BaseETL.extract etl k = Raise e.

(** A registered class whose first attempt meets no failure: [extract],
    [load_raw] and [transform] return and the store accepts every step. *)
Definition first_attempt_succeeds (cls : ETLService.etl_class) : Prop :=
  exists etl raw_data,
    ETLService.construct cls = Ok etl
    /\ BaseETL.extract etl 0 = Ok raw_data
    /\ (forall now session, exists session',
           BaseETL.load_raw etl now session raw_data = Ok session')
    /\ (forall now, exists data, BaseETL.transform etl now raw_data = Ok data)
    /\ (forall op, fault (ETLService.world cls) (Attempt 0) op = None).

(** Every registered class builds a pipeline named as its key, whose
    [load_raw] only adds raw rows. *)
Definition well_formed_registry (etl_sources : ETLService.registry) : Prop :=
  forall name cls etl,
    (name, cls) ∈ etl_sources -> ETLService.construct cls = Ok etl ->
    BaseETL.source_name etl = name /\ raw_keeps_checkpoints etl.

(** [try: results[source] = future.result() except Exception: ... False]. *)
Definition guarded (etl_sources : ETLService.registry) (source : string) : M bool :=
  try_except (ETLService.run_single_source etl_sources source)
             (fun e => do! tell (DispatchFailed source e) in mret false).


(** A wait that [time.sleep] takes: not negative and, at 9e9 seconds or
    less, well within the range of its timestamp. *)
Definition sleepable (seconds : Q) : Prop :=
  (0 <= seconds <= 9000000000)%Q.

(** The waits [backoff_factor ** k] before the retries [k = 1 .. m] are
    all sleepable. *)
Definition waits_accepted (backoff_factor : Q) (m : Z) : Prop :=
  forall k : nat,
    (1 <= k)%nat -> Z.of_nat k <= m -> sleepable (backoff_factor ^ Z.of_nat k).

(** Each [time.sleep(0.1)] lasts at least a tenth of a second. *)
Definition sleeps (clock : nat -> Q) : Prop :=
  forall k, (clock k + (1 # 10) <= clock (S k))%Q.

(** The key [(coin_id, source)] of a row and of a proposed row. *)
Definition coin_key (c : Coin.row) : string * string :=
  (Coin.coin_id c, Coin.source c).

Definition record_key (r : CoinCreate.t) : string * string :=
  (CoinCreate.coin_id r, CoinCreate.source r).

(** The constraint [unique=True] on [etl_checkpoints.source]. *)
Definition uq_checkpoint_source (table : list ETLCheckpoint.row) : Prop :=
  NoDup (ETLCheckpoint.source <$> table).

(** The waits announced in a log, in order. *)
Definition waits_logged (events : list LogEvent) : list Q :=
  omap (fun e => match e with
                 | Retrying wait_time => Some wait_time
                 | _ => None
                 end) events.

(** A pipeline whose [load_raw] leaves the table of runs alone. *)
Definition raw_keeps_runs (self : BaseETL.pipeline) : Prop :=
  forall now session raw_data session',
    BaseETL.load_raw self now session raw_data = Ok session' ->
    etl_runs session' = etl_runs session.

(** What attempt [k] logs when every step goes through. *)
Definition success_events (self : BaseETL.pipeline) (k : nat)
           (raw_data : list Dict) (data : list CoinCreate.t) (processed : Z)
  : list LogEvent :=
  let src := BaseETL.source_name self in
  [Starting src (BaseETL.run_id self) (k + 1); Extracting src;
   Extracted src (length raw_data); LoadingRaw src; Transforming src;
   Transformed src (length data); LoadingNormalized src;
   Completed src (BaseETL.run_id self) processed].

(** Attempt [k], begun on the tables [session], meets no failure: the
    three steps of the pipeline return and the store accepts every call
    made ([db.execute] is not called for an empty batch). *)
Definition attempt_goes_through (self : BaseETL.pipeline) (env : Env) (k : nat)
           (session : DB) (raw_data : list Dict) (session1 : DB)
           (data : list CoinCreate.t) : Prop :=
  BaseETL.extract self k = Ok raw_data
  /\ BaseETL.load_raw self (utcnow env (Attempt k) OpLoadRaw) session raw_data
     = Ok session1
  /\ BaseETL.transform self (utcnow env (Attempt k) OpTransform) raw_data = Ok data
  /\ fault env (Attempt k) OpSession = None
  /\ (data <> [] -> fault env (Attempt k) OpLoadNormalized = None)
  /\ fault env (Attempt k) OpCheckpoint = None
  /\ fault env (Attempt k) OpRunRecord = None
  /\ fault env (Attempt k) OpCommit = None.

(** What attempt [k] commits: [session1] are the tables as [load_raw]
    left them, [processed] the count of the pipeline object, [final] the
    tables after the commit. *)
Definition committed_by (self : BaseETL.pipeline) (env : Env) (k : nat)
           (session1 : DB) (data : list CoinCreate.t) (processed : Z)
           (final : DB) : Prop :=
  coins final
  = foldl (BaseETL.upsert_row (utcnow env (Attempt k) OpLoadNormalized))
          (coins session1) data
  /\ (raw_coinpaprika final = raw_coinpaprika session1
      /\ raw_coingecko final = raw_coingecko session1
      /\ raw_csv final = raw_csv session1)
  /\ (exists i c,
        checkpoint_of (BaseETL.source_name self) final = Some (i, c)
        /\ ETLCheckpoint.status c = "success"
        /\ ETLCheckpoint.error_message c = None
        /\ ETLCheckpoint.last_run_at c = Some (utcnow env (Attempt k) OpCheckpoint)
        /\ ETLCheckpoint.last_success_at c
           = Some (utcnow env (Attempt k) OpCheckpoint)
        /\ ETLCheckpoint.records_processed c = processed)
  /\ (forall other, other <> BaseETL.source_name self ->
        checkpoint_of other final = checkpoint_of other session1)
  /\ (uq_checkpoint_source (etl_checkpoints session1) ->
      uq_checkpoint_source (etl_checkpoints final))
  /\ (exists rec,
        etl_runs final = etl_runs session1 ++ [rec]
        /\ ETLRun.run_id rec = BaseETL.run_id self
        /\ ETLRun.source rec = BaseETL.source_name self
        /\ ETLRun.status rec = "success"
        /\ ETLRun.records_processed rec = processed
        /\ ETLRun.duration_seconds rec
           = utcnow env (Attempt k) OpRunRecord - BaseETL.started_at self
        /\ ETLRun.started_at rec = BaseETL.started_at self
        /\ ETLRun.completed_at rec = Some (utcnow env (Attempt k) OpRunRecord)
        /\ ETLRun.error_message rec = None).

(** The failure, if any, of a transaction that reads the checkpoints. *)
Definition status_query_fault (env : Env) (ph : Phase) : option string :=
  first_fault env ph [OpSession; OpCheckpoint; OpCommit].

(** The item of [get_etl_status] for a checkpoint row. *)
Definition status_item (isoformat : Time -> string) (c : ETLCheckpoint.row)
  : string * ETLService.SourceStatus :=
  (ETLCheckpoint.source c, ETLService.status_entry isoformat c).

(** A checkpoint whose [last_run_at] is set and prints as a non-empty
    text, and one with a given status. *)
Definition has_last_run (isoformat : Time -> string) (c : ETLCheckpoint.row) : bool :=
  truthy (option_map isoformat (ETLCheckpoint.last_run_at c)).

Definition has_status (status : string) (c : ETLCheckpoint.row) : bool :=
  String.eqb (ETLCheckpoint.status c) status.

(** A value that is absent or not negative. *)
Definition not_negative (v : option Q) : Prop :=
  forall q, v = Some q -> (0 <= q)%Q.

(** A row of [coins] as the validators of [CoinBase] leave a record. *)
Definition valid_row (c : Coin.row) : Prop :=
  Coin.coin_id c <> ""
  /\ Coin.symbol c <> ""
  /\ upper (Coin.symbol c) = Coin.symbol c
  /\ Coin.name c <> ""
  /\ not_negative (Coin.current_price c)
  /\ not_negative (Coin.market_cap c)
  /\ not_negative (Coin.volume_24h c)
  /\ not_negative (Coin.price_change_24h c).

(** The response that shows a row as it is. *)
Definition response_of (c : Coin.row) : CoinResponse.t :=
  {| CoinResponse.coin_id := Coin.coin_id c;
     CoinResponse.symbol := Coin.symbol c;
     CoinResponse.name := Coin.name c;
     CoinResponse.current_price := Coin.current_price c;
     CoinResponse.market_cap := Coin.market_cap c;
     CoinResponse.volume_24h := Coin.volume_24h c;
     CoinResponse.price_change_24h := Coin.price_change_24h c;
     CoinResponse.rank := Coin.rank c;
     CoinResponse.id := Coin.id c;
     CoinResponse.source := Coin.source c;
     CoinResponse.last_updated := Coin.last_updated c;
     CoinResponse.created_at := Coin.created_at c;
     CoinResponse.updated_at := Coin.updated_at c |}.

(** A row passes the filters of a request: a filter that is [None] or
    empty lets every row pass. *)
Definition passes (source symbol : option string) (c : Coin.row) : bool :=
  (if truthy source
   then bool_decide (Some (Coin.source c) = option_map lower source) else true)
  && (if truthy symbol
      then bool_decide (Some (Coin.symbol c) = option_map upper symbol) else true).

(** A text of the ASCII range, or no text: where [upper] and [lower] are
    what [str.upper()] and [str.lower()] are. *)
Definition ascii_text (s : option string) : Prop :=
  match s with
  | Some s => Forall (fun c => (nat_of_ascii c < 128)%nat) (list_ascii_of_string s)
  | None => True
  end.

(** An engine that neither loses nor invents rows when it sorts. *)
Definition rearranges (engine : DataService.Engine) : Prop :=
  forall l, DataService.order_by_desc_rank engine l ≡ₚ l.

(** ** Samples *)

(** A store with empty tables. *)
Definition empty_db : DB :=
  {| raw_coinpaprika := []; raw_coingecko := []; raw_csv := [];
     coins := []; etl_checkpoints := []; etl_runs := [] |}.

(** Raw items. *)
Definition bitcoin_item : Dict :=
  [("id", VStr "bitcoin"); ("symbol", VStr "btc"); ("name", VStr "Bitcoin");
   ("current_price", VFloat (43000 # 1)); ("market_cap_rank", VInt 1)].

Definition nameless_item : Dict :=
  [("id", VStr "ethereum"); ("symbol", VStr "eth")].

Definition negative_price_item : Dict :=
  [("id", VStr "test"); ("symbol", VStr "tst"); ("name", VStr "Test Coin");
   ("current_price", VFloat (-100 # 1))].

Definition negative_rank_item : Dict :=
  [("id", VStr "test"); ("symbol", VStr "tst"); ("name", VStr "Test Coin");
   ("market_cap_rank", VInt (-5))].

Definition bitcoin_row : Dict :=
  [("coin_id", VStr "bitcoin"); ("symbol", VStr "btc"); ("name", VStr "Bitcoin");
   ("price", VStr "43000.50"); ("market_cap", VStr "840,000,000,000");
   ("volume", VStr "$28000000000"); ("change_24h", VStr "2.5");
   ("rank", VStr "1")].

Definition blank_row : Dict :=
  [("coin_id", VStr ""); ("symbol", VStr ""); ("name", VStr "");
   ("price", VStr ""); ("market_cap", VStr ""); ("volume", VStr "");
   ("change_24h", VStr ""); ("rank", VStr "")].


(** A world in which the store never fails; the clock reads [100 + k] in
    attempt [k] and [200] in the final transaction. *)
Definition calm : Env :=
  {| fault := fun _ _ => None;
     utcnow := fun ph _ => match ph with
                           | Attempt k => 100 + Z.of_nat k
                           | Finalize => 200
                           end |}.

(** A world in which the store is down for the final transaction. *)
Definition store_down_at_end : Env :=
  {| fault := fun ph op => match ph, op with
                           | Finalize, OpCommit => Some "connection lost"
                           | _, _ => None
                           end;
     utcnow := utcnow calm |}.

(** A remote API that is down, and one that answers. *)
Definition api_down : nat -> result (list Dict) :=
  fun _ => Raise "503 Service Unavailable".

Definition api_up : nat -> result (list Dict) :=
  fun _ => Ok [bitcoin_item; nameless_item].

Definition failing_etl : BaseETL.pipeline :=
  CoinGeckoETL.init strict_runtime "run-1" 50 api_down.

Definition idle (d : DB) : state :=
  {| db := d; records_processed := 0; log := [] |}.

Definition bitcoin_record : CoinCreate.t :=
  {| CoinCreate.coin_id := "bitcoin";
     CoinCreate.symbol := "BTC";
     CoinCreate.name := "Bitcoin";
     CoinCreate.current_price := Some (43000 # 1);
     CoinCreate.market_cap := None;
     CoinCreate.volume_24h := None;
     CoinCreate.price_change_24h := None;
     CoinCreate.rank := Some 1;
     CoinCreate.source := "coingecko";
     CoinCreate.last_updated := Some 90 |}.

Definition ethereum_record : CoinCreate.t :=
  {| CoinCreate.coin_id := "ethereum";
     CoinCreate.symbol := "ETH";
     CoinCreate.name := "Ethereum";
     CoinCreate.current_price := Some (2250 # 1);
     CoinCreate.market_cap := None;
     CoinCreate.volume_24h := None;
     CoinCreate.price_change_24h := None;
     CoinCreate.rank := Some 2;
     CoinCreate.source := "coingecko";
     CoinCreate.last_updated := Some 90 |}.

Definition old_bitcoin_row : Coin.row :=
  {| Coin.id := 1;
     Coin.coin_id := "bitcoin";
     Coin.symbol := "BTC";
     Coin.name := "Bitcoin";
     Coin.current_price := Some (40000 # 1);
     Coin.market_cap := None;
     Coin.volume_24h := None;
     Coin.price_change_24h := None;
     Coin.source := "coingecko";
     Coin.rank := Some 1;
     Coin.last_updated := Some 10;
     Coin.created_at := 10;
     Coin.updated_at := 10 |}.

Definition coingecko_checkpoint : ETLCheckpoint.row :=
  {| ETLCheckpoint.id := 1;
     ETLCheckpoint.source := "coingecko";
     ETLCheckpoint.last_run_at := Some 10;
     ETLCheckpoint.last_success_at := Some 10;
     ETLCheckpoint.last_failure_at := None;
     ETLCheckpoint.status := "success";
     ETLCheckpoint.records_processed := 2;
     ETLCheckpoint.error_message := None;
     ETLCheckpoint.run_metadata := None;
     ETLCheckpoint.created_at := 10;
     ETLCheckpoint.updated_at := 10 |}.

Definition sample_db : DB :=
  set_etl_checkpoints (set_coins empty_db [old_bitcoin_row]) [coingecko_checkpoint].

(** The service with the first source down and the other two up. *)
Definition sample_sources : ETLService.registry :=
  ETLService.init strict_runtime
    {| ETLService.fresh_run_id := "run-a"; ETLService.clock := 50;
       ETLService.remote := api_down; ETLService.store := calm |}
    {| ETLService.fresh_run_id := "run-b"; ETLService.clock := 50;
       ETLService.remote := api_up; ETLService.store := calm |}
    {| ETLService.fresh_run_id := "run-c"; ETLService.clock := 50;
       ETLService.remote := fun _ => Ok [bitcoin_row; blank_row];
       ETLService.store := calm |}.

(** A remote API that fails once and then answers. *)
Definition api_flaky : nat -> result (list Dict) :=
  fun k => match k with
           | O => Raise "timeout"
           | S _ => Ok [bitcoin_item; nameless_item]
           end.

Definition flaky_etl : BaseETL.pipeline :=
  CoinGeckoETL.init strict_runtime "run-2" 50 api_flaky.

Definition working_etl : BaseETL.pipeline :=
  CoinGeckoETL.init strict_runtime "run-3" 50 api_up.

(** A pipeline whose CSV file is missing. *)
Definition no_file_etl : BaseETL.pipeline :=
  CSVSourceETL.init strict_runtime "run-4" 50 (fun _ => CSVSourceETL.extract None).

(** A world in which the checkpoint update of the first attempt is
    refused. *)
Definition checkpoint_down_once : Env :=
  {| fault := fun ph op => match ph, op with
                           | Attempt O, OpCheckpoint => Some "deadlock detected"
                           | _, _ => None
                           end;
     utcnow := utcnow calm |}.

(** A service whose second class cannot be built. *)
Definition working_class : ETLService.etl_class :=
  {| ETLService.construct := Ok (CoinPaprikaETL.init strict_runtime "run-a" 50 api_down);
     ETLService.world := calm |}.

Definition broken_class : ETLService.etl_class :=
  {| ETLService.construct := Raise "No module named httpx";
     ETLService.world := calm |}.

(** An engine that keeps the order of the table. *)
Definition plain_engine : DataService.Engine :=
  {| DataService.order_by_desc_rank := fun l => l;
     DataService.negative_window := fun _ _ _ => Raise "DataError" |}.

(** A rendering of dates: the day of clock reading [t]. *)
Definition sample_isoformat : Time -> string :=
  fun t => if (t <? 100)%Z then "2024-01-01T00:00:00" else "2024-01-02T00:00:00".

(** A clock read every tenth of a second. *)
Definition tenths : nat -> Q := fun k => (Z.of_nat k # 10)%Q.

(* ===================================================================== *)
(** * Part II.  Properties                                               *)
(* ===================================================================== *)

Section RateLimiterProps.
Import RateLimiter.

Lemma refilled_eq_spec (self : limiter) (now : Q) :
  Qmin (inject_Z (rate_limit self))
       (tokens self + (now - last_update self) * inject_Z (rate_limit self) / 60)%Q
  = spec_refill (rate_limit self) (tokens self) (now - last_update self).
Proof.
  unfold spec_refill, Qmin, GenericMinMax.gmin, Qle_bool, Qcompare, Z.leb.
  now destruct (_ ?= _)%Z.
Qed.

Lemma acquire_rate_limit self now n :
  rate_limit (snd (acquire self now n)) = rate_limit self.
Proof. unfold acquire. now destruct (Qle_bool _ _). Qed.

Lemma acquire_last_update self now n :
  last_update (snd (acquire self now n)) = now.
Proof. unfold acquire. now destruct (Qle_bool _ _). Qed.

(** One call keeps the bucket within [0, rate_limit] when the clock did
    not go back and at least one token is requested. *)
Lemma acquire_bounds self now n :
  (0 <= tokens self <= inject_Z (rate_limit self))%Q ->
  (last_update self <= now)%Q -> 1 <= n ->
  (0 <= tokens (snd (acquire self now n)) <= inject_Z (rate_limit self))%Q.
Proof.
  intros [Hlo Hhi] Hclk Hn.
  assert (Hr : (0 <= inject_Z (rate_limit self))%Q) by lra.
  assert (Hn' : (1 <= inject_Z n)%Q).
  { change 1%Q with (inject_Z 1). rewrite <- Zle_Qle. exact Hn. }
  assert (Hadd : (0 <= (now - last_update self) * inject_Z (rate_limit self) / 60)%Q).
  { unfold Qdiv. apply Qmult_le_0_compat; [apply Qmult_le_0_compat; lra | ].
    apply Qinv_le_0_compat. lra. }
  unfold acquire. cbv zeta.
  set (x := (tokens self + _)%Q) in *.
  assert (Hx : (0 <= x)%Q) by (subst x; lra).
  pose proof (Q.le_min_l (inject_Z (rate_limit self)) x) as Hm1.
  assert (Hm0 : (0 <= Qmin (inject_Z (rate_limit self)) x)%Q)
    by (apply Q.min_glb; assumption).
  destruct (Qle_bool _ _) eqn:E; cbn [snd tokens].
  - apply Qle_bool_iff in E. split; lra.
  - split; assumption.
Qed.

Lemma acquire_all_bounds (calls : list (Q * Z)) : forall self,
  (0 <= tokens self <= inject_Z (rate_limit self))%Q ->
  well_timed (last_update self) calls ->
  (0 <= tokens (acquire_all self calls)
     <= inject_Z (rate_limit (acquire_all self calls)))%Q
  /\ rate_limit (acquire_all self calls) = rate_limit self.
Proof.
  induction calls as [|[now n] rest IH]; intros self Hb Hw.
  - cbn. split; [exact Hb | reflexivity].
  - cbn [acquire_all]. destruct Hw as (Hclk & Hn & Hrest).
    pose proof (acquire_bounds self now n Hb Hclk Hn) as Hb'.
    rewrite <- (acquire_rate_limit self now n) in Hb'.
    rewrite <- (acquire_last_update self now n) in Hrest.
    destruct (IH _ Hb' Hrest) as [H1 H2].
    split; [exact H1 | ]. rewrite H2. apply acquire_rate_limit.
Qed.

(** C6.  [acquire(n)] refills by [elapsed * capacity / 60] capped at the
    capacity, stamps the refill time, and then grants the request, taking
    [n] tokens, exactly when the refilled bucket holds at least [n]; it
    answers at once in both cases.  Hence a limiter built with
    [rate_limit = 1] grants the first [acquire()] and rejects the next one
    made less than a second later. *)
Theorem acquire_refill_then_grant :
  (forall (self : limiter) (now : Q) (n : Z),
      let refilled :=
        spec_refill (rate_limit self) (tokens self) (now - last_update self) in
      let '(granted, self') := acquire self now n in
      last_update self' = now
      /\ rate_limit self' = rate_limit self
      /\ (granted = true <-> (inject_Z n <= refilled)%Q)
      /\ tokens self' = (if granted then (refilled - inject_Z n)%Q else refilled))
  /\ (forall t0 t1 t2 : Q,
        (t0 <= t1)%Q -> (t2 - t1 < 1)%Q ->
        let l0 := init 1 t0 in
        let '(first, l1) := acquire l0 t1 1 in
        let '(second, l2) := acquire l1 t2 1 in
        first = true /\ second = false /\ (tokens l1 == 0)%Q).
Proof.
  split.
  - intros self now n. cbv zeta. unfold acquire. cbv zeta.
    rewrite refilled_eq_spec.
    destruct (Qle_bool _ _) eqn:E; cbn.
    + repeat split; try reflexivity. intros _. now apply Qle_bool_iff.
    + repeat split; try reflexivity; try discriminate.
      intros H. apply Qle_bool_iff in H. congruence.
  - intros t0 t1 t2 H01 H12. cbv zeta.
    unfold init, acquire. cbn [rate_limit tokens last_update].
    set (r1 := Qmin (inject_Z 1) (inject_Z 1 + (t1 - t0) * inject_Z 1 / 60)%Q).
    assert (Hr1 : (r1 == 1)%Q).
    { subst r1. rewrite Q.min_l; [reflexivity | ].
      unfold Qdiv. change (/ 60)%Q with (1 # 60)%Q.
      change (inject_Z 1) with 1%Q. lra. }
    assert (E1 : Qle_bool (inject_Z 1) r1 = true).
    { apply Qle_bool_iff. rewrite Hr1. change (inject_Z 1) with 1%Q. lra. }
    rewrite E1. cbn [rate_limit tokens last_update].
    set (r2 := Qmin _ _).
    assert (Hr2 : (r2 < 1)%Q).
    { subst r2. eapply Qle_lt_trans; [apply Q.le_min_r | ].
      rewrite Hr1. unfold Qdiv. change (/ 60)%Q with (1 # 60)%Q.
      change (inject_Z 1) with 1%Q. lra. }
    assert (E2 : Qle_bool (inject_Z 1) r2 = false).
    { destruct (Qle_bool (inject_Z 1) r2) eqn:E; [ | reflexivity].
      apply Qle_bool_iff in E. change (inject_Z 1) with 1%Q in E. lra. }
    rewrite E2. repeat split; try reflexivity.
    rewrite Hr1. change (inject_Z 1) with 1%Q. lra.
Qed.

Lemma acquire_refill_then_grant_witness :
  (0 <= 0)%Q /\ ((1 # 2) - 0 < 1)%Q
  /\ (let l0 := init 1 0 in
      let '(first, l1) := acquire l0 0 1 in
      let '(second, l2) := acquire l1 (1 # 2) 1 in
      first = true /\ second = false /\ (tokens l1 == 0)%Q).
Proof.
  assert (H1 : (0 <= 0)%Q) by lra.
  assert (H2 : ((1 # 2) - 0 < 1)%Q) by lra.
  split; [exact H1 | split; [exact H2 | ]].
  exact (proj2 acquire_refill_then_grant 0%Q 0%Q (1 # 2)%Q H1 H2).
Defined.

(** Whatever the clock reads, one call leaves at most [rate_limit] tokens. *)
Lemma acquire_capped self now n :
  0 <= n -> (tokens (snd (acquire self now n)) <= inject_Z (rate_limit self))%Q.
Proof.
  intros Hn.
  assert (Hn' : (0 <= inject_Z n)%Q).
  { change 0%Q with (inject_Z 0). rewrite <- Zle_Qle. exact Hn. }
  unfold acquire. cbv zeta.
  set (x := (tokens self + _)%Q).
  pose proof (Q.le_min_l (inject_Z (rate_limit self)) x) as Hm.
  destruct (Qle_bool _ _); cbn [snd tokens]; lra.
Qed.

Lemma acquire_all_capped (calls : list (Q * Z)) : forall self,
  Forall (fun call => 1 <= snd call) calls ->
  (tokens self <= inject_Z (rate_limit self))%Q ->
  (tokens (acquire_all self calls) <= inject_Z (rate_limit self))%Q.
Proof.
  induction calls as [|[now n] rest IH]; intros self Hn Hb; [exact Hb | ].
  cbn [acquire_all]. apply Forall_cons in Hn. destruct Hn as [Hn Hrest].
  cbn [snd] in Hn.
  rewrite <- (acquire_rate_limit self now n). apply IH; [exact Hrest | ].
  rewrite acquire_rate_limit. apply acquire_capped. lia.
Qed.

(** C10 (as the code has it).  A limiter built with [rate_limit >= 0]
    holds at most [rate_limit] tokens after any run of [acquire(n)] calls
    with [n >= 1]: the refill is capped.  Its count is not negative either
    as long as no call reads a clock value earlier than the call before
    it, or than the construction: tokens are taken only when enough are
    there, but the time passed is not clamped at zero. *)
Theorem tokens_within_capacity (rate : Z) (t0 : Q) (calls : list (Q * Z)) :
  0 <= rate ->
  Forall (fun call => 1 <= snd call) calls ->
  (tokens (acquire_all (init rate t0) calls) <= inject_Z rate)%Q
  /\ (well_timed t0 calls ->
      (0 <= tokens (acquire_all (init rate t0) calls))%Q).
Proof.
  intros Hrate Hn. split.
  - apply (acquire_all_capped calls (init rate t0) Hn). cbn. lra.
  - intros Hw.
    assert (Hb : (0 <= tokens (init rate t0)
                    <= inject_Z (rate_limit (init rate t0)))%Q).
    { cbn. split; [ | lra]. change 0%Q with (inject_Z 0). now rewrite <- Zle_Qle. }
    destruct (acquire_all_bounds calls (init rate t0) Hb Hw) as [[H1 _] _].
    exact H1.
Qed.

Lemma tokens_within_capacity_witness :
  let calls := [(1%Q, 1%Z); (1%Q, 1%Z); (2%Q, 3%Z); (31%Q, 1%Z)] in
  (0 <= tokens (acquire_all (init 2 0) calls) <= inject_Z 2)%Q.
Proof.
  destruct (tokens_within_capacity 2 0%Q
              [(1%Q, 1%Z); (1%Q, 1%Z); (2%Q, 3%Z); (31%Q, 1%Z)]) as [Hhi Hlo].
  - lia.
  - repeat constructor; cbn; lia.
  - split; [ | exact Hhi]. apply Hlo. cbn. repeat split; try lia; try lra.
Defined.

(** C10 as stated fails when the clock is set back: after a step back of
    a minute the bucket of a limiter of capacity 1 holds minus one token. *)
Lemma clock_set_back_negative_tokens :
  let self := acquire_all (init 1 100) [(100%Q, 1%Z); (40%Q, 1%Z)] in
  (tokens self == -1)%Q /\ ~ (0 <= tokens self)%Q.
Proof. vm_compute. split; [reflexivity | ]. intros H. now apply H. Qed.

End RateLimiterProps.

Section TransformProps.

Lemma upper_ascii_idem (c : ascii) : upper_ascii (upper_ascii c) = upper_ascii c.
Proof.
  destruct c as [b0 b1 b2 b3 b4 b5 b6 b7].
  destruct b0, b1, b2, b3, b4, b5, b6, b7; reflexivity.
Qed.

Lemma upper_idem (s : string) : upper (upper s) = upper s.
Proof.
  induction s as [|c s IH]; cbn; [reflexivity | ].
  now rewrite upper_ascii_idem, IH.
Qed.

Lemma upper_nonempty (s : string) : s <> "" -> upper s <> "".
Proof. destruct s; cbn; [congruence | discriminate]. Qed.

Lemma symbol_uppercase_upper (s : string) :
  CoinBase.symbol_uppercase s = upper s.
Proof. now destruct s. Qed.

Lemma required_str_ok (v : Value) (s : string) :
  CoinBase.required_str v = Ok s -> v = VStr s /\ s <> "".
Proof.
  destruct v; cbn; try discriminate.
  destruct s0; cbn; [discriminate | ].
  intros [= <-]. split; [reflexivity | discriminate].
Qed.

Lemma validate_numeric_clamp (v : option Q) :
  CoinBase.validate_numeric v = spec_clamp v.
Proof.
  destruct v as [q|]; cbn; [ | reflexivity].
  destruct (Qlt_le_dec q 0) as [Hlt|Hle].
  - destruct (Qle_bool 0 q) eqn:E; [ | reflexivity].
    apply Qle_bool_iff in E. exfalso. eapply Qlt_not_le; eauto.
  - apply Qle_bool_iff in Hle. now rewrite Hle.
Qed.

Lemma spec_clamp_nonneg (v : option Q) (q : Q) :
  spec_clamp v = Some q -> (0 <= q)%Q.
Proof.
  destruct v as [p|]; cbn; [ | discriminate].
  destruct (Qlt_le_dec p 0); [discriminate | ]. now intros [= <-].
Qed.

(** What [CoinCreate] validation returns, whatever the candidate. *)
Lemma CoinCreate_validate_ok (py : PyRuntime) (d : CoinData) (r : CoinCreate.t) :
  CoinCreate_validate py d = Ok r ->
  exists coin_id symbol name price cap volume change rank,
    (cd_coin_id d = VStr coin_id /\ coin_id <> "")
    /\ (cd_symbol d = VStr symbol /\ symbol <> "")
    /\ (cd_name d = VStr name /\ name <> "")
    /\ CoinBase.optional_float py (cd_current_price d) = Ok price
    /\ CoinBase.optional_float py (cd_market_cap d) = Ok cap
    /\ CoinBase.optional_float py (cd_volume_24h d) = Ok volume
    /\ CoinBase.optional_float py (cd_price_change_24h d) = Ok change
    /\ CoinBase.optional_int py (cd_rank d) = Ok rank
    /\ r = {| CoinCreate.coin_id := coin_id;
              CoinCreate.symbol := upper symbol;
              CoinCreate.name := name;
              CoinCreate.current_price := spec_clamp price;
              CoinCreate.market_cap := spec_clamp cap;
              CoinCreate.volume_24h := spec_clamp volume;
              CoinCreate.price_change_24h := spec_clamp change;
              CoinCreate.rank := rank;
              CoinCreate.source := cd_source d;
              CoinCreate.last_updated := Some (cd_last_updated d) |}.
Proof.
  unfold CoinCreate_validate, rbind.
  destruct (CoinBase.required_str (cd_coin_id d)) as [coin_id|] eqn:E1; [ | discriminate].
  destruct (CoinBase.required_str (cd_symbol d)) as [symbol|] eqn:E2; [ | discriminate].
  destruct (CoinBase.required_str (cd_name d)) as [name|] eqn:E3; [ | discriminate].
  destruct (CoinBase.optional_float py (cd_current_price d)) as [price|] eqn:E4;
    [ | discriminate].
  destruct (CoinBase.optional_float py (cd_market_cap d)) as [cap|] eqn:E5;
    [ | discriminate].
  destruct (CoinBase.optional_float py (cd_volume_24h d)) as [volume|] eqn:E6;
    [ | discriminate].
  destruct (CoinBase.optional_float py (cd_price_change_24h d)) as [change|] eqn:E7;
    [ | discriminate].
  destruct (CoinBase.optional_int py (cd_rank d)) as [rank|] eqn:E8; [ | discriminate].
  intros [= <-].
  exists coin_id, symbol, name, price, cap, volume, change, rank.
  rewrite symbol_uppercase_upper, !validate_numeric_clamp.
  apply required_str_ok in E1, E2, E3.
  repeat split; try reflexivity; tauto.
Qed.

Lemma CoinCreate_validate_normalized (py : PyRuntime) (d : CoinData) (r : CoinCreate.t) :
  CoinCreate_validate py d = Ok r -> spec_normalized r.
Proof.
  intros H. apply CoinCreate_validate_ok in H.
  destruct H as (coin_id & symbol & name & price & cap & volume & change & rank
                 & [_ H1] & [_ H2] & [_ H3] & _ & _ & _ & _ & _ & ->).
  unfold spec_normalized; cbn.
  repeat split; try assumption.
  - apply upper_idem.
  - now apply upper_nonempty.
  - apply spec_clamp_nonneg.
  - apply spec_clamp_nonneg.
  - apply spec_clamp_nonneg.
  - apply spec_clamp_nonneg.
Qed.

Lemma transform_loop_spec (candidate : Dict -> result CoinCreate.t)
      (raw_data : list Dict) : forall normalized,
  transform_loop candidate raw_data normalized
  = normalized ++ omap (accepted candidate) raw_data.
Proof.
  induction raw_data as [|item rest IH]; intros normalized; cbn.
  - now rewrite app_nil_r.
  - unfold accepted at 1. destruct (candidate item) as [r|e].
    + rewrite IH, <- app_assoc. reflexivity.
    + apply IH.
Qed.

Lemma transform_loop_elem (candidate : Dict -> result CoinCreate.t)
      (raw_data : list Dict) (r : CoinCreate.t) :
  r ∈ transform_loop candidate raw_data [] ->
  exists item, item ∈ raw_data /\ candidate item = Ok r.
Proof.
  rewrite transform_loop_spec, app_nil_l, list_elem_of_omap.
  intros (item & Hin & Hacc). exists item. split; [exact Hin | ].
  unfold accepted in Hacc. destruct (candidate item); congruence.
Qed.

Lemma CoinGecko_transform_item_normalized py now item r :
  CoinGeckoETL.transform_item py now item = Ok r -> spec_normalized r.
Proof.
  unfold CoinGeckoETL.transform_item, rbind.
  destruct (call_upper _); [ | discriminate]. apply CoinCreate_validate_normalized.
Qed.

Lemma CoinPaprika_transform_item_normalized py now item r :
  CoinPaprikaETL.transform_item py now item = Ok r -> spec_normalized r.
Proof.
  unfold CoinPaprikaETL.transform_item, rbind.
  repeat (match goal with
          | |- context [match ?x with Ok _ => _ | Raise _ => _ end] =>
              destruct x; [ | discriminate]
          end).
  apply CoinCreate_validate_normalized.
Qed.

Lemma CSV_transform_item_normalized py now item r :
  CSVSourceETL.transform_item py now item = Ok r -> spec_normalized r.
Proof.
  unfold CSVSourceETL.transform_item, rbind.
  destruct (CSVSourceETL._parse_int _ _); [ | discriminate].
  apply CoinCreate_validate_normalized.
Qed.

(** C4 (as the code has it).  Every record that [transform] emits has an
    upper-cased symbol, non-empty [coin_id], [symbol] and [name], and its
    four price fields are the validated inputs with negative values replaced
    by null; [rank] is the validated input as it is, negative or not. *)
Theorem transform_output_normalized :
  (forall py now raw_data r,
      r ∈ CoinPaprikaETL.transform py now raw_data
      \/ r ∈ CoinGeckoETL.transform py now raw_data
      \/ r ∈ CSVSourceETL.transform py now raw_data ->
      spec_normalized r)
  /\ (forall py now item r,
        CoinGeckoETL.transform_item py now item = Ok r ->
        exists price cap volume change,
          CoinBase.optional_float py (get item "current_price" VNone) = Ok price
          /\ CoinBase.optional_float py (get item "market_cap" VNone) = Ok cap
          /\ CoinBase.optional_float py (get item "total_volume" VNone) = Ok volume
          /\ CoinBase.optional_float py (get item "price_change_percentage_24h" VNone)
               = Ok change
          /\ CoinCreate.current_price r = spec_clamp price
          /\ CoinCreate.market_cap r = spec_clamp cap
          /\ CoinCreate.volume_24h r = spec_clamp volume
          /\ CoinCreate.price_change_24h r = spec_clamp change
          /\ CoinBase.optional_int py (get item "market_cap_rank" VNone)
               = Ok (CoinCreate.rank r)).
Proof.
  split.
  - intros py now raw_data r [H | [H | H]];
      apply transform_loop_elem in H; destruct H as (item & _ & H).
    + eapply CoinPaprika_transform_item_normalized; eauto.
    + eapply CoinGecko_transform_item_normalized; eauto.
    + eapply CSV_transform_item_normalized; eauto.
  - intros py now item r. unfold CoinGeckoETL.transform_item, rbind.
    destruct (call_upper _); [ | discriminate].
    intros H. apply CoinCreate_validate_ok in H. cbn in H.
    destruct H as (coin_id & symbol & name & price & cap & volume & change & rank
                   & _ & _ & _ & H4 & H5 & H6 & H7 & H8 & ->).
    exists price, cap, volume, change. cbn. repeat split; assumption.
Qed.

Lemma transform_output_normalized_witness :
  exists r,
    CoinGeckoETL.transform_item strict_runtime 0 negative_price_item = Ok r
    /\ spec_normalized r
    /\ CoinCreate.symbol r = "TST"
    /\ CoinCreate.current_price r = None.
Proof.
  eexists. split; [reflexivity | ]. split.
  - apply (proj1 transform_output_normalized strict_runtime 0 [negative_price_item]).
    right; left. apply list_elem_of_singleton. reflexivity.
  - destruct (proj2 transform_output_normalized strict_runtime 0
                negative_price_item _ eq_refl)
      as (price & cap & volume & change & H1 & _ & _ & _ & H5 & _).
    split; [reflexivity | ]. rewrite H5. injection H1 as <-. reflexivity.
Defined.

(** C4 as stated fails on [rank]: the item below is accepted and its
    negative rank goes through unchanged. *)
Lemma negative_rank_not_clamped :
  get negative_rank_item "market_cap_rank" VNone = VInt (-5)
  /\ CoinGeckoETL.transform strict_runtime 0 [negative_rank_item]
     = [ {| CoinCreate.coin_id := "test";
            CoinCreate.symbol := "TST";
            CoinCreate.name := "Test Coin";
            CoinCreate.current_price := None;
            CoinCreate.market_cap := None;
            CoinCreate.volume_24h := None;
            CoinCreate.price_change_24h := None;
            CoinCreate.rank := Some (-5);
            CoinCreate.source := "coingecko";
            CoinCreate.last_updated := Some 0 |} ]
  /\ ~ (forall r, r ∈ CoinGeckoETL.transform strict_runtime 0 [negative_rank_item] ->
                  CoinCreate.rank r = None).
Proof.
  split; [reflexivity | ]. split; [reflexivity | ].
  intros H. specialize (H _ (list_elem_of_here _ _)). discriminate.
Qed.

Lemma transform_loop_split (candidate : Dict -> result CoinCreate.t)
      (before after : list Dict) (item : Dict) :
  transform_loop candidate (before ++ item :: after) []
  = transform_loop candidate before []
      ++ option_list (accepted candidate item)
      ++ transform_loop candidate after [].
Proof.
  rewrite !transform_loop_spec, !app_nil_l, omap_app. cbn.
  destruct (accepted candidate item); reflexivity.
Qed.

Lemma CoinPaprika_load_raw_rows now raw_data : forall session,
  CoinPaprikaETL.load_raw now session raw_data
  = set_raw_coinpaprika session
      (raw_coinpaprika session ++ (coinpaprika_raw_row now <$> raw_data)).
Proof.
  unfold CoinPaprikaETL.load_raw.
  induction raw_data as [|item rest IH]; intros session; cbn.
  - rewrite app_nil_r. now destruct session.
  - rewrite IH. unfold CoinPaprikaETL.add_raw, set_raw_coinpaprika; cbn.
    now rewrite <- app_assoc.
Qed.

Lemma CoinGecko_load_raw_rows now raw_data : forall session,
  CoinGeckoETL.load_raw now session raw_data
  = set_raw_coingecko session
      (raw_coingecko session ++ (coingecko_raw_row now <$> raw_data)).
Proof.
  unfold CoinGeckoETL.load_raw.
  induction raw_data as [|item rest IH]; intros session; cbn.
  - rewrite app_nil_r. now destruct session.
  - rewrite IH. unfold CoinGeckoETL.add_raw, set_raw_coingecko; cbn.
    now rewrite <- app_assoc.
Qed.

Lemma CSV_load_raw_rows now raw_data : forall session,
  CSVSourceETL.load_raw now session raw_data
  = set_raw_csv session (raw_csv session ++ (csv_raw_row now <$> raw_data)).
Proof.
  unfold CSVSourceETL.load_raw.
  induction raw_data as [|item rest IH]; intros session; cbn.
  - rewrite app_nil_r. now destruct session.
  - rewrite IH. unfold CSVSourceETL.add_raw, set_raw_csv; cbn.
    now rewrite <- app_assoc.
Qed.

(** C5.  [transform] returns exactly the records of the items that pass
    validation, in order: an item that fails contributes nothing and takes
    nothing away from its neighbours, and [transform] itself always
    returns.  [load_raw] stores one raw row per item, valid or not.  A
    batch of two with one invalid item gives one normalized record and two
    raw rows. *)
Theorem transform_skips_only_invalid_items :
  (forall py now raw_data,
      CoinGeckoETL.transform py now raw_data
      = omap (accepted (CoinGeckoETL.transform_item py now)) raw_data
      /\ CSVSourceETL.transform py now raw_data
        = omap (accepted (CSVSourceETL.transform_item py now)) raw_data
      /\ CoinPaprikaETL.transform py now raw_data
        = omap (accepted (CoinPaprikaETL.transform_item py now)) raw_data)
  /\ (forall py now before item after,
        CoinGeckoETL.transform py now (before ++ item :: after)
        = CoinGeckoETL.transform py now before
            ++ option_list (accepted (CoinGeckoETL.transform_item py now) item)
            ++ CoinGeckoETL.transform py now after
        /\ CSVSourceETL.transform py now (before ++ item :: after)
          = CSVSourceETL.transform py now before
              ++ option_list (accepted (CSVSourceETL.transform_item py now) item)
              ++ CSVSourceETL.transform py now after
        /\ CoinPaprikaETL.transform py now (before ++ item :: after)
          = CoinPaprikaETL.transform py now before
              ++ option_list (accepted (CoinPaprikaETL.transform_item py now) item)
              ++ CoinPaprikaETL.transform py now after)
  /\ (forall now session raw_data,
        raw_coingecko (CoinGeckoETL.load_raw now session raw_data)
        = raw_coingecko session ++ (coingecko_raw_row now <$> raw_data)
        /\ raw_csv (CSVSourceETL.load_raw now session raw_data)
          = raw_csv session ++ (csv_raw_row now <$> raw_data)
        /\ raw_coinpaprika (CoinPaprikaETL.load_raw now session raw_data)
          = raw_coinpaprika session ++ (coinpaprika_raw_row now <$> raw_data))
  /\ (accepted (CoinGeckoETL.transform_item strict_runtime 0) nameless_item = None
      /\ length (CoinGeckoETL.transform strict_runtime 0
                   [bitcoin_item; nameless_item]) = 1%nat
      /\ length (raw_coingecko (CoinGeckoETL.load_raw 0 empty_db
                                  [bitcoin_item; nameless_item])) = 2%nat)
  /\ (accepted (CSVSourceETL.transform_item strict_runtime 0) blank_row = None
      /\ length (CSVSourceETL.transform strict_runtime 0
                   [bitcoin_row; blank_row]) = 1%nat
      /\ length (raw_csv (CSVSourceETL.load_raw 0 empty_db
                            [bitcoin_row; blank_row])) = 2%nat).
Proof.
  split; [ | split; [ | split; [ | split]]].
  - intros py now raw_data.
    unfold CoinGeckoETL.transform, CSVSourceETL.transform, CoinPaprikaETL.transform.
    now rewrite !transform_loop_spec.
  - intros py now before item after.
    unfold CoinGeckoETL.transform, CSVSourceETL.transform, CoinPaprikaETL.transform.
    repeat split; apply transform_loop_split.
  - intros now session raw_data.
    now rewrite CoinGecko_load_raw_rows, CSV_load_raw_rows, CoinPaprika_load_raw_rows.
  - repeat split; reflexivity.
  - repeat split; reflexivity.
Qed.

End TransformProps.

Section StoreProps.

Lemma store_call_ok env ph op st :
  fault env ph op = None -> store_call env ph op st = Some (Ok tt, st).
Proof. unfold store_call. now intros ->. Qed.

Lemma store_call_raise env ph op msg st :
  fault env ph op = Some msg -> store_call env ph op st = Some (Raise msg, st).
Proof. unfold store_call. now intros ->. Qed.

Lemma list_find_first {A} (P : A -> Prop) `{forall x, Decision (P x)}
      (l : list A) (i : nat) (x : A) :
  l !! i = Some x -> P x ->
  (forall j y, l !! j = Some y -> P y -> (i <= j)%nat) ->
  list_find P l = Some (i, x).
Proof.
  intros Hi HP Hfirst. apply list_find_Some. repeat split; try assumption.
  intros j y Hj Hlt HPy. specialize (Hfirst j y Hj HPy). lia.
Qed.

(** C9.  On a checkpoint row that exists, [update_checkpoint] assigns
    [last_run_at], [status], [records_processed], [updated_at] and the
    fields of the given status: for ['success'], [last_success_at] is set
    and [error_message] cleared, [last_failure_at] kept; for ['failure'],
    [last_failure_at] and [error_message] are set, [last_success_at] kept.
    The row keeps its place, [id], [source], [created_at] and
    [run_metadata]; no row is removed and nothing else is written. *)
Theorem update_checkpoint_touches_only_its_fields
        (self : BaseETL.pipeline) (env : Env) (ph : Phase) (session : DB)
        (status : string) (error_message : option string) (st : state)
        (i : nat) (c : ETLCheckpoint.row) :
  fault env ph OpCheckpoint = None ->
  etl_checkpoints session !! i = Some c ->
  ETLCheckpoint.source c = BaseETL.source_name self ->
  (forall j c', etl_checkpoints session !! j = Some c' ->
                ETLCheckpoint.source c' = BaseETL.source_name self -> (i <= j)%nat) ->
  let now := utcnow env ph OpCheckpoint in
  exists session' c',
    BaseETL.update_checkpoint self env ph session status error_message st
    = Some (Ok session', st)
    /\ etl_checkpoints session' !! i = Some c'
    /\ length (etl_checkpoints session') = length (etl_checkpoints session)
    /\ (forall j, j <> i ->
                  etl_checkpoints session' !! j = etl_checkpoints session !! j)
    /\ (raw_coinpaprika session' = raw_coinpaprika session
        /\ raw_coingecko session' = raw_coingecko session
        /\ raw_csv session' = raw_csv session
        /\ coins session' = coins session
        /\ etl_runs session' = etl_runs session)
    /\ (ETLCheckpoint.id c' = ETLCheckpoint.id c
        /\ ETLCheckpoint.source c' = ETLCheckpoint.source c
        /\ ETLCheckpoint.run_metadata c' = ETLCheckpoint.run_metadata c
        /\ ETLCheckpoint.created_at c' = ETLCheckpoint.created_at c)
    /\ (ETLCheckpoint.last_run_at c' = Some now
        /\ ETLCheckpoint.status c' = status
        /\ ETLCheckpoint.records_processed c' = records_processed st
        /\ ETLCheckpoint.updated_at c' = now)
    /\ (status = "success" ->
        ETLCheckpoint.last_success_at c' = Some now
        /\ ETLCheckpoint.error_message c' = None
        /\ ETLCheckpoint.last_failure_at c' = ETLCheckpoint.last_failure_at c)
    /\ (status = "failure" ->
        ETLCheckpoint.last_failure_at c' = Some now
        /\ ETLCheckpoint.error_message c' = error_message
        /\ ETLCheckpoint.last_success_at c' = ETLCheckpoint.last_success_at c)
    /\ (status <> "success" -> status <> "failure" ->
        ETLCheckpoint.last_success_at c' = ETLCheckpoint.last_success_at c
        /\ ETLCheckpoint.last_failure_at c' = ETLCheckpoint.last_failure_at c
        /\ ETLCheckpoint.error_message c' = ETLCheckpoint.error_message c).
Proof.
  intros Hfault Hi Hsrc Hfirst now.
  pose proof (list_find_first
                (fun c => ETLCheckpoint.source c = BaseETL.source_name self)
                _ i c Hi Hsrc Hfirst) as Hfind.
  eexists _, _. split.
  { unfold BaseETL.update_checkpoint, mbind.
    rewrite (store_call_ok _ _ _ _ Hfault). cbn. rewrite Hfind. reflexivity. }
  cbn [etl_checkpoints set_etl_checkpoints raw_coinpaprika raw_coingecko raw_csv
       coins etl_runs].
  assert (Hlt : (i < length (etl_checkpoints session))%nat)
    by (eapply lookup_lt_Some; eauto).
  split; [now apply list_lookup_insert_eq | ].
  split; [apply length_insert | ].
  split; [intros j Hj; now apply list_lookup_insert_ne | ].
  split; [repeat split | ].
  split; [repeat split | ].
  split; [repeat split | ].
  unfold BaseETL.touch_checkpoint; cbn.
  split; [ | split].
  - intros ->. cbn. repeat split.
  - intros ->. cbn. repeat split.
  - intros Hs Hf.
    destruct (String.eqb_spec status "success") as [|_]; [contradiction | ].
    destruct (String.eqb_spec status "failure") as [|_]; [contradiction | ].
    repeat split.
Qed.

(** *** The upsert *)

Lemma same_key_target r r' c :
  same_target r r' -> BaseETL.same_key r' c -> BaseETL.same_key r c.
Proof. unfold same_target, BaseETL.same_key. intros [-> ->]. tauto. Qed.

Lemma same_key_target_inv r r' c :
  BaseETL.same_key r c -> BaseETL.same_key r' c -> same_target r r'.
Proof. unfold same_target, BaseETL.same_key. intros [<- <-] [<- <-]. tauto. Qed.

Lemma same_key_on_conflict r now c r' :
  BaseETL.same_key r (BaseETL.on_conflict_do_update now c r') <-> BaseETL.same_key r c.
Proof. reflexivity. Qed.

Lemma same_key_insert_values r now fresh :
  BaseETL.same_key r (BaseETL.insert_values now fresh r).
Proof. split; reflexivity. Qed.

Lemma sole_or_absent r t :
  uq_coin_source t -> (exists i c, sole r t i c) \/ absent r t.
Proof.
  intros Huq. destruct (list_find (BaseETL.same_key r) t) as [[i c]|] eqn:E.
  - left. apply list_find_Some in E. destruct E as (Hi & Hk & _).
    exists i, c. repeat split; try assumption; try apply Hk.
    intros j c' Hj [Hk1 Hk2]. destruct Hk as [Hk3 Hk4].
    apply (Huq j i c' c Hj Hi); congruence.
  - right. intros j c' Hj Hk.
    rewrite list_find_None, Forall_forall in E.
    apply (E c'); [ | exact Hk]. apply list_elem_of_lookup. eauto.
Qed.

Lemma sole_find r t i c :
  sole r t i c -> list_find (BaseETL.same_key r) t = Some (i, c).
Proof.
  intros (Hi & Hk & Huq). apply list_find_Some. repeat split; try assumption;
    try apply Hk.
  intros j y Hj Hlt Hy. specialize (Huq j y Hj Hy). lia.
Qed.

Lemma absent_find r t :
  absent r t -> list_find (BaseETL.same_key r) t = None.
Proof.
  intros Ha. apply list_find_None, Forall_forall. intros c Hc.
  apply list_elem_of_lookup in Hc. destruct Hc as [j Hj]. eauto.
Qed.

Lemma upsert_row_hit now t r i c :
  sole r t i c ->
  BaseETL.upsert_row now t r = <[i := BaseETL.on_conflict_do_update now c r]> t.
Proof. intros H. unfold BaseETL.upsert_row. now rewrite (sole_find _ _ _ _ H). Qed.

Lemma upsert_row_miss now t r :
  absent r t ->
  BaseETL.upsert_row now t r = t ++ [BaseETL.insert_values now (next_id t) r].
Proof. intros H. unfold BaseETL.upsert_row. now rewrite (absent_find _ _ H). Qed.

Lemma sole_insert r t i c c' :
  sole r t i c -> BaseETL.same_key r c' -> sole r (<[i := c']> t) i c'.
Proof.
  intros (Hi & Hk & Huq) Hk'.
  assert (Hlt : (i < length t)%nat) by (eapply lookup_lt_Some; eauto).
  repeat split; try apply Hk'.
  - now apply list_lookup_insert_eq.
  - intros j d Hj Hd. destruct (decide (j = i)) as [->|Hne]; [reflexivity | ].
    rewrite list_lookup_insert_ne in Hj by congruence. eauto.
Qed.

(** The row proposed is [r] itself, or another row with the same key. *)
Lemma upsert_row_same_target now t r r' :
  same_target r r' ->
  (forall i c, sole r t i c ->
               sole r (BaseETL.upsert_row now t r') i
                    (BaseETL.on_conflict_do_update now c r'))
  /\ (absent r t ->
      sole r (BaseETL.upsert_row now t r') (length t)
           (BaseETL.insert_values now (next_id t) r')).
Proof.
  intros Hst. split.
  - intros i c Hs.
    assert (Hs' : sole r' t i c).
    { destruct Hs as (Hi & Hk & Huq). repeat split; try assumption.
      - unfold same_target, BaseETL.same_key in *. destruct Hst, Hk. congruence.
      - unfold same_target, BaseETL.same_key in *. destruct Hst, Hk. congruence.
      - intros j c' Hj Hk'. apply (Huq j c' Hj).
        eapply same_key_target; eauto. }
    rewrite (upsert_row_hit _ _ _ _ _ Hs').
    apply (sole_insert r t i c); [exact Hs | ]. destruct Hs as (_ & Hk & _). exact Hk.
  - intros Ha.
    assert (Ha' : absent r' t).
    { intros j c' Hj Hk. apply (Ha j c' Hj). eapply same_key_target; eauto. }
    rewrite (upsert_row_miss _ _ _ Ha'). repeat split.
    + rewrite lookup_app_r by lia. now rewrite Nat.sub_diag.
    + apply Hst.
    + apply Hst.
    + intros j c' Hj Hk. destruct (decide (j < length t)%nat) as [Hlt|Hge].
      * rewrite lookup_app_l in Hj by exact Hlt. exfalso. eapply Ha; eauto.
      * apply lookup_lt_Some in Hj. rewrite length_app in Hj. cbn in Hj. lia.
Qed.

(** The row proposed has another key. *)
Lemma upsert_row_other_target now t r r' :
  ~ same_target r r' ->
  (forall i c, sole r t i c -> sole r (BaseETL.upsert_row now t r') i c)
  /\ (absent r t -> absent r (BaseETL.upsert_row now t r')).
Proof.
  intros Hne. unfold BaseETL.upsert_row.
  destruct (list_find (BaseETL.same_key r') t) as [[j d]|] eqn:E.
  - apply list_find_Some in E. destruct E as (Hj & Hd & _).
    assert (Hnew : ~ BaseETL.same_key r (BaseETL.on_conflict_do_update now d r')).
    { rewrite same_key_on_conflict. intros Hk. apply Hne.
      eapply same_key_target_inv; eauto. }
    split.
    + intros i c (Hi & Hk & Huq).
      assert (Hij : i <> j).
      { intros ->. rewrite Hj in Hi. injection Hi as ->.
        apply Hne. eapply same_key_target_inv; eauto. }
      repeat split; try apply Hk.
      * now rewrite list_lookup_insert_ne by congruence.
      * intros k c' Hk' Hc'. destruct (decide (k = j)) as [->|Hkj].
        -- rewrite list_lookup_insert_eq in Hk' by (eapply lookup_lt_Some; eauto).
           injection Hk' as <-. contradiction.
        -- rewrite list_lookup_insert_ne in Hk' by congruence. eauto.
    + intros Ha k c' Hk' Hc'. destruct (decide (k = j)) as [->|Hkj].
      * rewrite list_lookup_insert_eq in Hk' by (eapply lookup_lt_Some; eauto).
        injection Hk' as <-. contradiction.
      * rewrite list_lookup_insert_ne in Hk' by congruence. eapply Ha; eauto.
  - assert (Hnew : ~ BaseETL.same_key r (BaseETL.insert_values now (next_id t) r')).
    { intros Hk. apply Hne. eapply same_key_target_inv; [exact Hk | ].
      apply same_key_insert_values. }
    split.
    + intros i c (Hi & Hk & Huq).
      assert (Hlt : (i < length t)%nat) by (eapply lookup_lt_Some; eauto).
      repeat split; try apply Hk.
      * now rewrite lookup_app_l.
      * intros k c' Hk' Hc'. destruct (decide (k < length t)%nat) as [Hkl|Hkl].
        -- rewrite lookup_app_l in Hk' by exact Hkl. eauto.
        -- rewrite lookup_app_r in Hk' by lia.
           destruct (k - length t)%nat; cbn in Hk'; [ | discriminate].
           injection Hk' as <-. contradiction.
    + intros Ha k c' Hk' Hc'. destruct (decide (k < length t)%nat) as [Hkl|Hkl].
      * rewrite lookup_app_l in Hk' by exact Hkl. eapply Ha; eauto.
      * rewrite lookup_app_r in Hk' by lia.
        destruct (k - length t)%nat; cbn in Hk'; [ | discriminate].
        injection Hk' as <-. contradiction.
Qed.

Lemma foldl_upsert_other now rs : forall t r,
  Forall (fun r' => ~ same_target r r') rs ->
  (forall i c, sole r t i c -> sole r (foldl (BaseETL.upsert_row now) t rs) i c)
  /\ (absent r t -> absent r (foldl (BaseETL.upsert_row now) t rs)).
Proof.
  induction rs as [|r' rs IH]; intros t r Hall; cbn; [tauto | ].
  apply Forall_cons in Hall. destruct Hall as [Hne Hall].
  destruct (upsert_row_other_target now t r r' Hne) as [H1 H2].
  destruct (IH (BaseETL.upsert_row now t r') r Hall) as [IH1 IH2].
  split; eauto.
Qed.

(** Whatever is proposed, the row of a key keeps its place, [id] and
    [created_at]. *)
Lemma foldl_upsert_keeps_place now rs : forall t r i c,
  sole r t i c ->
  exists c', sole r (foldl (BaseETL.upsert_row now) t rs) i c'
             /\ Coin.id c' = Coin.id c
             /\ Coin.created_at c' = Coin.created_at c.
Proof.
  induction rs as [|r' rs IH]; intros t r i c Hs; cbn; [eauto | ].
  destruct (decide (same_target r r')) as [Hst|Hne].
  - destruct (upsert_row_same_target now t r r' Hst) as [H1 _].
    destruct (IH _ r i _ (H1 i c Hs)) as (c' & Hs' & Hid & Hcr). eauto.
  - destruct (upsert_row_other_target now t r r' Hne) as [H1 _].
    apply IH. eauto.
Qed.

Lemma foldl_upsert_sole_or_absent now rs : forall t r,
  (exists i c, sole r t i c) \/ absent r t ->
  (exists i c, sole r (foldl (BaseETL.upsert_row now) t rs) i c)
  \/ absent r (foldl (BaseETL.upsert_row now) t rs).
Proof.
  induction rs as [|r' rs IH]; intros t r H; cbn; [exact H | ].
  apply IH. destruct (decide (same_target r r')) as [Hst|Hne].
  - destruct (upsert_row_same_target now t r r' Hst) as [H1 H2].
    left. destruct H as [(i & c & Hs)|Ha]; eauto.
  - destruct (upsert_row_other_target now t r r' Hne) as [H1 H2].
    destruct H as [(i & c & Hs)|Ha]; eauto.
Qed.

Lemma agrees_on_conflict now c r : agrees r (BaseETL.on_conflict_do_update now c r).
Proof. repeat split. Qed.

Lemma agrees_insert_values now fresh r : agrees r (BaseETL.insert_values now fresh r).
Proof. repeat split. Qed.

Lemma upsert_row_present_self now t r : present r (BaseETL.upsert_row now t r).
Proof.
  unfold BaseETL.upsert_row.
  destruct (list_find (BaseETL.same_key r) t) as [[j d]|] eqn:E.
  - apply list_find_Some in E. destruct E as (Hj & Hd & _).
    exists j, (BaseETL.on_conflict_do_update now d r). split; [ | exact Hd].
    apply list_lookup_insert_eq. eapply lookup_lt_Some; eauto.
  - exists (length t), (BaseETL.insert_values now (next_id t) r).
    split; [ | apply same_key_insert_values].
    rewrite lookup_app_r by lia. now rewrite Nat.sub_diag.
Qed.

Lemma upsert_row_present_mono now t r r' :
  present r t -> present r (BaseETL.upsert_row now t r').
Proof.
  intros (i & c & Hi & Hk). unfold BaseETL.upsert_row.
  destruct (list_find (BaseETL.same_key r') t) as [[j d]|] eqn:E.
  - apply list_find_Some in E. destruct E as (Hj & Hd & _).
    destruct (decide (i = j)) as [->|Hij].
    + exists j, (BaseETL.on_conflict_do_update now d r'). split.
      * apply list_lookup_insert_eq. eapply lookup_lt_Some; eauto.
      * rewrite Hj in Hi. injection Hi as ->. exact Hk.
    + exists i, c. split; [ | exact Hk]. now rewrite list_lookup_insert_ne by congruence.
  - exists i, c. split; [ | exact Hk]. rewrite lookup_app_l; [exact Hi | ].
    eapply lookup_lt_Some; eauto.
Qed.

Lemma upsert_row_present_length now t r :
  present r t -> length (BaseETL.upsert_row now t r) = length t.
Proof.
  intros (i & c & Hi & Hk). unfold BaseETL.upsert_row.
  destruct (list_find (BaseETL.same_key r) t) as [[j d]|] eqn:E.
  - apply length_insert.
  - exfalso. rewrite list_find_None, Forall_forall in E.
    apply (E c); [ | exact Hk]. apply list_elem_of_lookup. eauto.
Qed.

Lemma foldl_upsert_present now rs : forall t r,
  present r t \/ r ∈ rs -> present r (foldl (BaseETL.upsert_row now) t rs).
Proof.
  induction rs as [|r' rs IH]; intros t r H; cbn.
  - destruct H as [H|H]; [exact H | ]. now apply elem_of_nil in H.
  - apply IH. destruct H as [H|H].
    + left. now apply upsert_row_present_mono.
    + apply elem_of_cons in H. destruct H as [->|H]; [ | now right].
      left. apply upsert_row_present_self.
Qed.

Lemma foldl_upsert_present_length now rs : forall t,
  (forall r, r ∈ rs -> present r t) ->
  length (foldl (BaseETL.upsert_row now) t rs) = length t.
Proof.
  induction rs as [|r' rs IH]; intros t H; cbn; [reflexivity | ].
  rewrite IH.
  - apply upsert_row_present_length, H, elem_of_cons. now left.
  - intros r Hr. apply upsert_row_present_mono, H, elem_of_cons. now right.
Qed.

Lemma filter_none {A} (P : A -> Prop) `{forall x, Decision (P x)} (l : list A) :
  (forall j y, l !! j = Some y -> ~ P y) -> filter P l = [].
Proof.
  induction l as [|x l IH]; intros Hno; [reflexivity | ].
  rewrite filter_cons_False by (apply (Hno 0%nat x); reflexivity).
  apply IH. intros j y Hj. apply (Hno (S j) y). exact Hj.
Qed.

Lemma sole_filter r t i c :
  sole r t i c -> filter (BaseETL.same_key r) t = [c].
Proof.
  revert i. induction t as [|x t IH]; intros i (Hi & Hk & Huq).
  - now rewrite lookup_nil in Hi.
  - destruct i as [|i].
    + cbn in Hi. injection Hi as ->. rewrite filter_cons_True by exact Hk.
      f_equal. apply filter_none. intros j y Hj Hy.
      specialize (Huq (S j) y Hj Hy). discriminate.
    + rewrite filter_cons_False.
      * apply (IH i). repeat split; try apply Hk; [exact Hi | ].
        intros j y Hj Hy. specialize (Huq (S j) y Hj Hy). congruence.
      * intros Hx. specialize (Huq 0%nat x eq_refl Hx). discriminate.
Qed.

Lemma load_normalized_ok env ph session data st :
  data <> [] -> fault env ph OpLoadNormalized = None ->
  BaseETL.load_normalized env ph session data st
  = Some (Ok (set_coins session
                (foldl (BaseETL.upsert_row (utcnow env ph OpLoadNormalized))
                       (coins session) data)),
          {| db := db st;
             records_processed := records_processed st + Z.of_nat (length data);
             log := log st |}).
Proof.
  intros Hne Hfault. unfold BaseETL.load_normalized.
  destruct data as [|r data]; [congruence | ].
  unfold mbind. rewrite (store_call_ok _ _ _ _ Hfault). reflexivity.
Qed.

(** One batch that proposes [r], last among the rows with its key. *)
Lemma foldl_upsert_batch now before after r t :
  Forall (fun r' => ~ same_target r r') after ->
  (exists i c, sole r t i c) \/ absent r t ->
  exists i c1,
    sole r (foldl (BaseETL.upsert_row now) t (before ++ r :: after)) i c1
    /\ agrees r c1
    /\ Coin.updated_at c1 = now
    /\ (forall c, sole r t i c ->
                  Coin.id c1 = Coin.id c /\ Coin.created_at c1 = Coin.created_at c).
Proof.
  intros Hafter Hslot. rewrite foldl_app. cbn [foldl].
  set (t1 := foldl (BaseETL.upsert_row now) t before).
  assert (Hst : same_target r r) by (split; reflexivity).
  destruct (upsert_row_same_target now t1 r r Hst) as [Hhit Hmiss].
  destruct (foldl_upsert_other now after (BaseETL.upsert_row now t1 r) r Hafter)
    as [Hkeep _].
  destruct Hslot as [(i & c & Hs)|Ha].
  - destruct (foldl_upsert_keeps_place now before t r i c Hs) as (c' & Hs' & Hid & Hcr).
    exists i, (BaseETL.on_conflict_do_update now c' r).
    split; [apply Hkeep, Hhit, Hs' | ].
    split; [apply agrees_on_conflict | ].
    split; [reflexivity | ].
    intros c0 (Hi0 & _). destruct Hs as (Hi & _). rewrite Hi in Hi0.
    injection Hi0 as <-. cbn. split; assumption.
  - destruct (foldl_upsert_sole_or_absent now before t r (or_intror Ha))
      as [(i & c & Hs)|Ha'].
    + exists i, (BaseETL.on_conflict_do_update now c r).
      split; [apply Hkeep, Hhit, Hs | ].
      split; [apply agrees_on_conflict | ].
      split; [reflexivity | ].
      intros c0 (Hi0 & Hk0 & _). exfalso. eapply Ha; eauto.
    + exists (length t1), (BaseETL.insert_values now (next_id t1) r).
      split; [apply Hkeep, Hmiss, Ha' | ].
      split; [apply agrees_insert_values | ].
      split; [reflexivity | ].
      intros c0 (Hi0 & Hk0 & _). exfalso. eapply Ha; eauto.
Qed.

(** C3.  Loading the same batch twice leaves exactly one row for the key
    [(coin_id, source)] of each of its records [r]: the second load finds
    the row of the first (no row is added) and rewrites it in place;
    [updated_at] becomes the time of the second load, every other column,
    [created_at] and [id] included, is as the first load left it. *)
Theorem load_normalized_twice_one_row
        (env : Env) (ph1 ph2 : Phase) (session : DB) (st : state)
        (before after : list CoinCreate.t) (r : CoinCreate.t) :
  fault env ph1 OpLoadNormalized = None ->
  fault env ph2 OpLoadNormalized = None ->
  uq_coin_source (coins session) ->
  Forall (fun r' => ~ same_target r r') after ->
  let batch := before ++ r :: after in
  exists session1 st1 session2 st2 i c1,
    BaseETL.load_normalized env ph1 session batch st = Some (Ok session1, st1)
    /\ BaseETL.load_normalized env ph2 session1 batch st1 = Some (Ok session2, st2)
    /\ (coins session1 !! i = Some c1 /\ BaseETL.same_key r c1 /\ agrees r c1)
    /\ coins session2 !! i = Some (stamp (utcnow env ph2 OpLoadNormalized) c1)
    /\ filter (BaseETL.same_key r) (coins session2)
       = [stamp (utcnow env ph2 OpLoadNormalized) c1]
    /\ length (coins session2) = length (coins session1).
Proof.
  intros Hf1 Hf2 Huq Hafter batch.
  assert (Hne : batch <> []) by (subst batch; destruct before; discriminate).
  set (now1 := utcnow env ph1 OpLoadNormalized).
  set (now2 := utcnow env ph2 OpLoadNormalized).
  set (t1 := foldl (BaseETL.upsert_row now1) (coins session) batch).
  set (t2 := foldl (BaseETL.upsert_row now2) t1 batch).
  destruct (foldl_upsert_batch now1 before after r (coins session) Hafter
              (sole_or_absent r _ Huq)) as (i & c1 & Hs1 & Hag1 & _ & _).
  fold batch in Hs1. fold t1 in Hs1.
  destruct (foldl_upsert_batch now2 before after r t1 Hafter
              (or_introl (ex_intro _ i (ex_intro _ c1 Hs1))))
    as (i2 & c2 & Hs2 & Hag2 & Hup2 & Hsame).
  fold batch in Hs2. fold t2 in Hs2.
  assert (Hi : i2 = i).
  { (* the place of the row is kept by the second load *)
    destruct (foldl_upsert_keeps_place now2 batch t1 r i c1 Hs1)
      as (c' & (Hi' & Hk' & _) & _).
    destruct Hs2 as (_ & _ & Huq2). symmetry. exact (Huq2 i c' Hi' Hk'). }
  subst i2. destruct (Hsame c1 Hs1) as [Hid Hcr].
  assert (Hc2 : c2 = stamp now2 c1).
  { destruct Hs1 as (_ & [K1 K2] & _). destruct Hs2 as (_ & [K3 K4] & _).
    destruct Hag1 as (A1 & A2 & A3 & A4 & A5 & A6 & A7 & A8).
    destruct Hag2 as (B1 & B2 & B3 & B4 & B5 & B6 & B7 & B8).
    destruct c1, c2; unfold stamp; cbn in *. congruence. }
  subst c2.
  eexists _, _, _, _, i, c1.
  split; [apply load_normalized_ok; assumption | ].
  split; [apply load_normalized_ok; assumption | ].
  cbn [coins set_coins]. fold now1 now2 batch. fold t1. fold t2.
  split; [destruct Hs1 as (H1 & H2 & _); auto | ].
  split; [apply Hs2 | ].
  split; [eapply sole_filter; eauto | ].
  apply foldl_upsert_present_length.
  intros r' Hr'. apply foldl_upsert_present. now right.
Qed.

Lemma load_normalized_twice_one_row_witness :
  exists session1 st1 session2 st2 i c1,
    BaseETL.load_normalized calm (Attempt 0) sample_db
      ([ethereum_record] ++ bitcoin_record :: []) (idle sample_db)
    = Some (Ok session1, st1)
    /\ BaseETL.load_normalized calm (Attempt 1) session1
         ([ethereum_record] ++ bitcoin_record :: []) st1
       = Some (Ok session2, st2)
    /\ (coins session1 !! i = Some c1 /\ BaseETL.same_key bitcoin_record c1
        /\ agrees bitcoin_record c1)
    /\ coins session2 !! i = Some (stamp 101 c1)
    /\ filter (BaseETL.same_key bitcoin_record) (coins session2) = [stamp 101 c1]
    /\ length (coins session2) = length (coins session1).
Proof.
  apply (load_normalized_twice_one_row calm (Attempt 0) (Attempt 1) sample_db
           (idle sample_db) [ethereum_record] [] bitcoin_record).
  - reflexivity.
  - reflexivity.
  - intros [|i] [|j] c c'; cbn; try discriminate; reflexivity.
  - constructor.
Defined.

Lemma update_checkpoint_touches_only_its_fields_witness :
  exists session' c',
    BaseETL.update_checkpoint failing_etl calm Finalize sample_db "failure"
      (Some "503 Service Unavailable") (idle sample_db)
    = Some (Ok session', idle sample_db)
    /\ etl_checkpoints session' = [c']
    /\ coins session' = coins sample_db
    /\ ETLCheckpoint.status c' = "failure"
    /\ ETLCheckpoint.last_failure_at c' = Some 200
    /\ ETLCheckpoint.error_message c' = Some "503 Service Unavailable"
    /\ ETLCheckpoint.last_success_at c' = Some 10.
Proof.
  destruct (update_checkpoint_touches_only_its_fields failing_etl calm Finalize
              sample_db "failure" (Some "503 Service Unavailable") (idle sample_db)
              0%nat coingecko_checkpoint)
    as (session' & c' & Hrun & Hi & Hlen & _ & Htabs & _ & Hcommon & _ & Hfail & _).
  - reflexivity.
  - reflexivity.
  - reflexivity.
  - intros j c'' _ _. lia.
  - exists session', c'.
    destruct (Hfail eq_refl) as (H1 & H2 & H3).
    destruct Htabs as (_ & _ & _ & Hcoins & _).
    destruct Hcommon as (_ & Hstatus & _).
    repeat split; try assumption.
    destruct (etl_checkpoints session') as [|x [|y l]]; cbn in Hi, Hlen;
      try discriminate. now injection Hi as ->.
Defined.

End StoreProps.

Section RunProps.

Lemma mbind_ok {A B} (m : M A) (k : A -> M B) st a st' :
  m st = Some (Ok a, st') -> mbind m k st = k a st'.
Proof. unfold mbind. now intros ->. Qed.

Lemma mbind_tell {B} (e : LogEvent) (k : unit -> M B) st :
  mbind (tell e) k st = k tt (logged st [e]).
Proof. reflexivity. Qed.

Lemma quiet_ret {A} (a : A) (P : A -> Prop) : P a -> quiet (mret a) P.
Proof. intros HP st. exists (Ok a), st. repeat split. now intros ? [= <-]. Qed.

Lemma quiet_raise {A} (msg : string) (P : A -> Prop) : quiet (mraise msg) P.
Proof. intros st. exists (Raise msg), st. repeat split. discriminate. Qed.

Lemma quiet_bind {A B} (m : M A) (k : A -> M B) (P : A -> Prop) (Q : B -> Prop) :
  quiet m P -> (forall a, P a -> quiet (k a) Q) -> quiet (mbind m k) Q.
Proof.
  intros Hm Hk st. destruct (Hm st) as (r & st1 & E & Hdb & HP).
  unfold mbind. rewrite E. destruct r as [a|msg].
  - destruct (Hk a (HP a eq_refl) st1) as (r2 & st2 & E2 & Hdb2 & HQ).
    exists r2, st2. repeat split; [exact E2 | congruence | exact HQ].
  - exists (Raise msg), st1. repeat split; [exact Hdb | discriminate].
Qed.

Lemma quiet_lift {A} (r : result A) : quiet (lift r) (fun a => r = Ok a).
Proof.
  destruct r as [a|msg]; cbn.
  - now apply quiet_ret.
  - apply quiet_raise.
Qed.

Lemma quiet_weaken {A} (m : M A) (P Q : A -> Prop) :
  quiet m P -> (forall a, P a -> Q a) -> quiet m Q.
Proof.
  intros Hm HPQ st. destruct (Hm st) as (r & st1 & E & Hdb & HP).
  exists r, st1. repeat split; auto.
Qed.

Lemma quiet_tell (e : LogEvent) : quiet (tell e) (fun _ => True).
Proof. intros st. eexists _, _. repeat split. Qed.

Lemma quiet_get_records_processed : quiet get_records_processed (fun _ => True).
Proof. intros st. eexists _, _. repeat split. Qed.

Lemma quiet_set_records_processed n : quiet (set_records_processed n) (fun _ => True).
Proof. intros st. eexists _, _. repeat split. Qed.

Lemma quiet_store_call env ph op : quiet (store_call env ph op) (fun _ => True).
Proof.
  unfold store_call. destruct (fault env ph op).
  - apply quiet_raise.
  - now apply quiet_ret.
Qed.

Ltac quiet_step :=
  first
    [ eapply quiet_bind;
      [ first [ apply quiet_tell | apply quiet_store_call
              | apply quiet_get_records_processed
              | apply quiet_set_records_processed | apply quiet_lift ]
      | intros ? _ ]
    | apply quiet_ret
    | apply quiet_raise ].

Lemma checkpoint_of_same other session session' :
  etl_checkpoints session' = etl_checkpoints session ->
  checkpoint_of other session' = checkpoint_of other session.
Proof. unfold checkpoint_of. now intros ->. Qed.

Lemma quiet_load_normalized env ph session data :
  quiet (BaseETL.load_normalized env ph session data)
        (fun session' => etl_checkpoints session' = etl_checkpoints session).
Proof.
  unfold BaseETL.load_normalized. destruct data; [now apply quiet_ret | ].
  cbv zeta. repeat quiet_step. reflexivity.
Qed.

Lemma quiet_create_run_record self env ph session status err :
  quiet (BaseETL.create_run_record self env ph session status err)
        (fun session' => etl_checkpoints session' = etl_checkpoints session).
Proof.
  unfold BaseETL.create_run_record. cbv zeta. repeat quiet_step. reflexivity.
Qed.

(** *** Looking a row up after a write *)

Lemma find_replaced {A} (P : A -> Prop) `{forall x, Decision (P x)}
      (t : list A) (i : nat) (c c' : A) :
  list_find P t = Some (i, c) -> P c' -> list_find P (<[i := c']> t) = Some (i, c').
Proof.
  intros Hfind HP. apply list_find_Some in Hfind. destruct Hfind as (Hi & _ & Hfirst).
  apply list_find_Some. split; [ | split; [exact HP | ]].
  - apply list_lookup_insert_eq. eapply lookup_lt_Some; eauto.
  - intros j y Hj Hlt. rewrite list_lookup_insert_ne in Hj by lia. eauto.
Qed.

Lemma find_appended {A} (P : A -> Prop) `{forall x, Decision (P x)}
      (t : list A) (x : A) :
  list_find P t = None -> P x -> list_find P (t ++ [x]) = Some (length t, x).
Proof.
  intros Hnone HP. rewrite list_find_None, Forall_forall in Hnone.
  apply list_find_Some. split; [ | split; [exact HP | ]].
  - rewrite lookup_app_r by lia. now rewrite Nat.sub_diag.
  - intros j y Hj Hlt. rewrite lookup_app_l in Hj by exact Hlt.
    apply Hnone. apply list_elem_of_lookup. eauto.
Qed.

Lemma find_other_replaced {A} (Q : A -> Prop) `{forall x, Decision (Q x)}
      (t : list A) : forall (i : nat) (c c' : A),
  t !! i = Some c -> ~ Q c -> ~ Q c' ->
  list_find Q (<[i := c']> t) = list_find Q t.
Proof.
  induction t as [|x t IH]; intros i c c' Hi Hc Hc'; [reflexivity | ].
  destruct i as [|i]; cbn in Hi |- *.
  - injection Hi as ->. now rewrite !decide_False by assumption.
  - destruct (decide (Q x)); [reflexivity | ]. f_equal. now apply (IH i c c').
Qed.

Lemma find_other_appended {A} (Q : A -> Prop) `{forall x, Decision (Q x)}
      (t : list A) (x : A) :
  ~ Q x -> list_find Q (t ++ [x]) = list_find Q t.
Proof.
  intros Hx. induction t as [|y t IH]; cbn.
  - now rewrite decide_False by assumption.
  - destruct (decide (Q y)); [reflexivity | ]. f_equal. exact IH.
Qed.

(** What a call to [update_checkpoint] that the store accepts leaves. *)
Lemma update_checkpoint_result self env ph session status err st :
  fault env ph OpCheckpoint = None ->
  exists session' i c,
    BaseETL.update_checkpoint self env ph session status err st
    = Some (Ok session', st)
    /\ checkpoint_of (BaseETL.source_name self) session' = Some (i, c)
    /\ ETLCheckpoint.status c = status
    /\ (status = "failure" -> ETLCheckpoint.error_message c = err)
    /\ (status = "success" -> err = None -> ETLCheckpoint.error_message c = None)
    /\ (forall other, other <> BaseETL.source_name self ->
                      checkpoint_of other session' = checkpoint_of other session)
    /\ (raw_coinpaprika session' = raw_coinpaprika session
        /\ raw_coingecko session' = raw_coingecko session
        /\ raw_csv session' = raw_csv session
        /\ coins session' = coins session
        /\ etl_runs session' = etl_runs session).
Proof.
  intros Hfault. unfold BaseETL.update_checkpoint, mbind, checkpoint_of.
  rewrite (store_call_ok _ _ _ _ Hfault). cbn.
  destruct (list_find _ (etl_checkpoints session)) as [[i c]|] eqn:E.
  - eexists _, i, _. split; [reflexivity | ]. cbn.
    pose proof E as E'. apply list_find_Some in E'. destruct E' as (Hi & Hsrc & _).
    split; [apply (find_replaced _ _ _ _ _ E); exact Hsrc | ].
    split; [reflexivity | ].
    split; [now intros -> | ].
    split; [now intros -> _ | ].
    split; [ | repeat split].
    intros other Hother. apply (find_other_replaced _ _ i c); [exact Hi | | ]; cbn;
      congruence.
  - eexists _, (length (etl_checkpoints session)), _. split; [reflexivity | ]. cbn.
    split; [apply (find_appended _ _ _ E); reflexivity | ].
    split; [reflexivity | ].
    split; [reflexivity | ].
    split; [now intros _ -> | ].
    split; [ | repeat split].
    intros other Hother. apply find_other_appended. cbn. congruence.
Qed.

Lemma update_checkpoint_raise self env ph session status err st msg :
  fault env ph OpCheckpoint = Some msg ->
  BaseETL.update_checkpoint self env ph session status err st = Some (Raise msg, st).
Proof.
  intros Hfault. unfold BaseETL.update_checkpoint, mbind.
  now rewrite (store_call_raise _ _ _ _ _ Hfault).
Qed.

Lemma create_run_record_result self env ph session status err st :
  fault env ph OpRunRecord = None ->
  exists rec,
    BaseETL.create_run_record self env ph session status err st
    = Some (Ok (set_etl_runs session (etl_runs session ++ [rec])), st)
    /\ ETLRun.run_id rec = BaseETL.run_id self
    /\ ETLRun.source rec = BaseETL.source_name self
    /\ ETLRun.status rec = status
    /\ ETLRun.error_message rec = err.
Proof.
  intros Hfault. unfold BaseETL.create_run_record, mbind.
  rewrite (store_call_ok _ _ _ _ Hfault). cbn.
  eexists. split; [reflexivity | ]. repeat split.
Qed.

Lemma create_run_record_raise self env ph session status err st msg :
  fault env ph OpRunRecord = Some msg ->
  BaseETL.create_run_record self env ph session status err st = Some (Raise msg, st).
Proof.
  intros Hfault. unfold BaseETL.create_run_record, mbind.
  now rewrite (store_call_raise _ _ _ _ _ Hfault).
Qed.

(** The final transaction fails: the failure is logged and swallowed. *)
Lemma finalize_failed self env last_error st msg :
  finalize_fault env = Some msg ->
  BaseETL.finalize self env last_error st
  = Some (Ok false, {| db := db st;
                       records_processed := records_processed st;
                       log := log st ++ [CheckpointFailed msg] |}).
Proof.
  unfold finalize_fault. cbn [first_fault].
  destruct (fault env Finalize OpSession) as [e1|] eqn:E1.
  { intros [= ->]. unfold BaseETL.finalize, mbind, try_except, get_db_context.
    now rewrite E1. }
  destruct (fault env Finalize OpCheckpoint) as [e2|] eqn:E2.
  { intros [= ->]. unfold BaseETL.finalize, mbind, try_except, get_db_context.
    rewrite E1. now rewrite (update_checkpoint_raise _ _ _ _ _ _ _ _ E2). }
  destruct (update_checkpoint_result self env Finalize (db st) "failure" last_error
              st E2) as (s1 & i & c & Hup & _).
  destruct (fault env Finalize OpRunRecord) as [e3|] eqn:E3.
  { intros [= ->]. unfold BaseETL.finalize, mbind, try_except, get_db_context.
    rewrite E1, Hup. now rewrite (create_run_record_raise _ _ _ _ _ _ _ _ E3). }
  destruct (create_run_record_result self env Finalize s1 "failure" last_error
              st E3) as (rec & Hrec & _).
  destruct (fault env Finalize OpCommit) as [e4|] eqn:E4; [ | discriminate].
  intros [= ->]. unfold BaseETL.finalize, mbind, try_except, get_db_context.
  rewrite E1, Hup, Hrec. cbn. now rewrite E4.
Qed.

(** The final transaction goes through: the failure is on record. *)
Lemma finalize_committed self env last_error st :
  finalize_fault env = None ->
  exists session' i c rec,
    BaseETL.finalize self env last_error st = Some (Ok false, set_db st session')
    /\ checkpoint_of (BaseETL.source_name self) session' = Some (i, c)
    /\ ETLCheckpoint.status c = "failure"
    /\ ETLCheckpoint.error_message c = last_error
    /\ etl_runs session' = etl_runs (db st) ++ [rec]
    /\ (ETLRun.run_id rec = BaseETL.run_id self
        /\ ETLRun.source rec = BaseETL.source_name self
        /\ ETLRun.status rec = "failure"
        /\ ETLRun.error_message rec = last_error)
    /\ (forall other, other <> BaseETL.source_name self ->
                      checkpoint_of other session' = checkpoint_of other (db st))
    /\ (raw_coinpaprika session' = raw_coinpaprika (db st)
        /\ raw_coingecko session' = raw_coingecko (db st)
        /\ raw_csv session' = raw_csv (db st)
        /\ coins session' = coins (db st)).
Proof.
  unfold finalize_fault. cbn [first_fault].
  destruct (fault env Finalize OpSession) as [e1|] eqn:E1; [discriminate | ].
  destruct (fault env Finalize OpCheckpoint) as [e2|] eqn:E2; [discriminate | ].
  destruct (fault env Finalize OpRunRecord) as [e3|] eqn:E3; [discriminate | ].
  destruct (fault env Finalize OpCommit) as [e4|] eqn:E4; [discriminate | ].
  intros _.
  destruct (update_checkpoint_result self env Finalize (db st) "failure" last_error
              st E2) as (s1 & i & c & Hup & Hfind & Hstatus & Herr & _ & Hother & Htabs).
  destruct (create_run_record_result self env Finalize s1 "failure" last_error
              st E3) as (rec & Hrec & Hrec').
  exists (set_etl_runs s1 (etl_runs s1 ++ [rec])), i, c, rec.
  split.
  { unfold BaseETL.finalize, mbind, try_except, get_db_context.
    rewrite E1, Hup, Hrec. cbn. now rewrite E4. }
  destruct Htabs as (T1 & T2 & T3 & T4 & T5).
  split; [exact Hfind | ].
  split; [exact Hstatus | ].
  split; [now apply Herr | ].
  split; [cbn; now rewrite T5 | ].
  split; [exact Hrec' | ].
  split; [exact Hother | ].
  cbn. auto.
Qed.

Lemma quiet_update_checkpoint self env ph session status err :
  quiet (BaseETL.update_checkpoint self env ph session status err)
        (others_kept self session).
Proof.
  intros st. destruct (fault env ph OpCheckpoint) as [e|] eqn:Hfault.
  - rewrite (update_checkpoint_raise _ _ _ _ _ _ _ _ Hfault).
    eexists _, _. repeat split. discriminate.
  - destruct (update_checkpoint_result self env ph session status err st Hfault)
      as (session' & i & c & Hrun & _ & _ & _ & _ & Hother & _).
    rewrite Hrun. eexists _, _. repeat split. now intros ? [= <-].
Qed.

(** The body of an attempt returns [True] if it returns; when [load_raw]
    only adds raw rows, the checkpoints of the other sources are kept. *)
Lemma quiet_pipeline_body self env attempt session :
  quiet (BaseETL.pipeline_body self env attempt session)
        (fun x => x.2 = true
                  /\ (raw_keeps_checkpoints self -> others_kept self session x.1)).
Proof.
  unfold BaseETL.pipeline_body. cbv zeta.
  eapply quiet_bind; [apply quiet_tell | intros _ _].
  eapply quiet_bind; [apply quiet_lift | intros raw_data _].
  eapply quiet_bind; [apply quiet_tell | intros _ _].
  eapply quiet_bind; [apply quiet_tell | intros _ _].
  eapply quiet_bind; [apply quiet_lift | intros s1 H1].
  eapply quiet_bind; [apply quiet_tell | intros _ _].
  eapply quiet_bind; [apply quiet_lift | intros data _].
  eapply quiet_bind; [apply quiet_tell | intros _ _].
  eapply quiet_bind; [apply quiet_tell | intros _ _].
  eapply quiet_bind; [apply quiet_load_normalized | intros s2 H2].
  eapply quiet_bind; [apply quiet_update_checkpoint | intros s3 H3].
  eapply quiet_bind; [apply quiet_create_run_record | intros s4 H4].
  eapply quiet_bind; [apply quiet_get_records_processed | intros processed _].
  eapply quiet_bind; [apply quiet_tell | intros _ _].
  apply quiet_ret. split; [reflexivity | ]. cbn.
  intros Hraw other Hother.
  rewrite (checkpoint_of_same other s3 s4 H4), (H3 other Hother),
    (checkpoint_of_same other s1 s2 H2).
  apply checkpoint_of_same. cbv beta in H1. exact (Hraw _ _ _ _ H1).
Qed.

(** *** The retry loop *)

Lemma logged_logged st l1 l2 : logged (logged st l1) l2 = logged st (l1 ++ l2).
Proof. unfold logged; cbn. now rewrite app_assoc. Qed.

Lemma logged_nil st : logged st [] = st.
Proof. unfold logged. rewrite app_nil_r. now destruct st. Qed.

(** An attempt returns [True] or raises; if it raises nothing is committed. *)
Lemma try_body_outcome self env attempt st :
  exists r st',
    BaseETL.try_body self env attempt st = Some (r, st')
    /\ ((r = Ok true
         /\ (raw_keeps_checkpoints self -> others_kept self (db st) (db st')))
        \/ exists e, r = Raise e /\ db st' = db st).
Proof.
  set (st0 := logged st [Starting (BaseETL.source_name self) (BaseETL.run_id self)
                                  (attempt + 1)]).
  change (BaseETL.try_body self env attempt st)
    with (get_db_context env (Attempt attempt)
            (BaseETL.pipeline_body self env attempt) st0).
  unfold get_db_context.
  destruct (fault env (Attempt attempt) OpSession) as [e|].
  { eexists _, _. split; [reflexivity | ]. right. eauto. }
  destruct (quiet_pipeline_body self env attempt (db st0) st0)
    as (r & st2 & E & Hdb & HP).
  rewrite E. change (db st0) with (db st) in Hdb. destruct r as [[session b]|e].
  - destruct (fault env (Attempt attempt) OpCommit) as [e|].
    + eexists _, _. split; [reflexivity | ]. right. eauto.
    + eexists _, _. split; [reflexivity | ]. left.
      destruct (HP _ eq_refl) as [HP' Hkept]. cbn in HP', Hkept. subst b.
      split; [reflexivity | exact Hkept].
  - eexists _, _. split; [reflexivity | ]. right. eauto.
Qed.

Lemma run_loop_done self env max_retries backoff fuel attempt last_error st :
  (Z.of_nat attempt <? max_retries)%Z = false ->
  BaseETL.run_loop self env max_retries backoff (S fuel) attempt last_error st
  = BaseETL.finalize self env last_error st.
Proof. intros H. cbn [BaseETL.run_loop]. now rewrite H. Qed.

Lemma run_loop_success self env max_retries backoff fuel attempt last_error st b st1 :
  (Z.of_nat attempt <? max_retries)%Z = true ->
  BaseETL.try_body self env attempt st = Some (Ok b, st1) ->
  BaseETL.run_loop self env max_retries backoff (S fuel) attempt last_error st
  = Some (Ok b, st1).
Proof.
  intros H E. cbn [BaseETL.run_loop]. rewrite H. unfold try_except. now rewrite E.
Qed.

Lemma sleepable_in_range (seconds : Q) :
  sleepable seconds -> out_of_range seconds = false.
Proof.
  intros [H0 H1]. unfold out_of_range.
  destruct (Qle_bool float_overflow (Qabs seconds)) eqn:E; [ | reflexivity].
  apply Qle_bool_iff in E. rewrite Qabs_pos in E by exact H0.
  assert (Hbig : (9000000000 < float_overflow)%Q) by (vm_compute; reflexivity).
  lra.
Qed.

Lemma float_pow_ok (b : Q) (n : Z) :
  sleepable (b ^ n) -> float_pow b n = Ok (b ^ n)%Q.
Proof. intros H. unfold float_pow. cbv zeta. now rewrite sleepable_in_range. Qed.

Lemma sleep_ok (seconds : Q) st :
  sleepable seconds -> sleep seconds st = Some (Ok tt, st).
Proof.
  intros [H0 H1]. unfold sleep.
  assert (E1 : Qle_bool (Qabs seconds) sleep_max = true).
  { apply Qle_bool_iff. rewrite Qabs_pos by exact H0.
    assert (Hmax : (9000000000 <= sleep_max)%Q) by (vm_compute; discriminate).
    lra. }
  apply Qle_bool_iff in H0. now rewrite E1, H0.
Qed.

Lemma run_loop_retry self env max_retries backoff fuel attempt last_error st e st1 :
  ((Z.of_nat (S attempt) <? max_retries)%Z = true ->
   sleepable (backoff ^ Z.of_nat (S attempt))) ->
  (Z.of_nat attempt <? max_retries)%Z = true ->
  BaseETL.try_body self env attempt st = Some (Raise e, st1) ->
  BaseETL.run_loop self env max_retries backoff (S fuel) attempt last_error st
  = BaseETL.run_loop self env max_retries backoff fuel (S attempt) (Some e)
      (logged st1 (failure_events self max_retries backoff attempt e)).
Proof.
  intros Hb H E. cbn [BaseETL.run_loop]. rewrite H. unfold try_except. rewrite E.
  unfold failure_events. rewrite mbind_tell.
  destruct (Z.of_nat (S attempt) <? max_retries)%Z.
  - specialize (Hb eq_refl). unfold mbind at 1.
    rewrite (float_pow_ok _ _ Hb). cbn [lift]. unfold mret at 1.
    unfold mbind at 1. rewrite mbind_tell.
    rewrite sleep_ok by exact Hb.
    now rewrite logged_logged.
  - reflexivity.
Qed.

Lemma waits_accepted_le backoff m m' :
  m' <= m -> waits_accepted backoff m -> waits_accepted backoff m'.
Proof. intros Hle H k H1 H2. apply H; lia. Qed.

(** The defaults of [run]: waits of 2 and 4 seconds. *)
Lemma default_backoff : waits_accepted 2 (3 - 1).
Proof.
  intros k H1 H2. assert (Hk : k = 1%nat \/ k = 2%nat) by lia.
  destruct Hk as [-> | ->]; split; vm_compute; discriminate.
Qed.

(** The same under the hypothesis on all the waits of a run. *)
Lemma run_loop_retry_all self env max_retries backoff fuel attempt last_error st e st1 :
  waits_accepted backoff (max_retries - 1) ->
  (Z.of_nat attempt <? max_retries)%Z = true ->
  BaseETL.try_body self env attempt st = Some (Raise e, st1) ->
  BaseETL.run_loop self env max_retries backoff (S fuel) attempt last_error st
  = BaseETL.run_loop self env max_retries backoff fuel (S attempt) (Some e)
      (logged st1 (failure_events self max_retries backoff attempt e)).
Proof.
  intros Hb. apply run_loop_retry. intros Hc. apply Z.ltb_lt in Hc.
  apply Hb; lia.
Qed.

Lemma run_loop_returns self env max_retries backoff fuel :
  waits_accepted backoff (max_retries - 1) ->
  forall attempt last_error st,
    (Z.to_nat (max_retries - Z.of_nat attempt) < fuel)%nat ->
    exists b st',
      BaseETL.run_loop self env max_retries backoff fuel attempt last_error st
      = Some (Ok b, st')
      /\ (b = false -> forall e, finalize_fault env = Some e ->
           db st' = db st /\ last (log st') = Some (CheckpointFailed e)).
Proof.
  intros Hback.
  induction fuel as [|fuel IH]; intros attempt last_error st Hfuel; [lia | ].
  destruct (Z.of_nat attempt <? max_retries)%Z eqn:Hcond.
  - destruct (try_body_outcome self env attempt st)
      as (r & st1 & E & [[-> _]|(e & -> & Hdb)]).
    + exists true, st1. split; [ | discriminate].
      now apply run_loop_success.
    + rewrite (run_loop_retry_all _ _ _ _ _ _ _ _ e st1 Hback Hcond E).
      apply Z.ltb_lt in Hcond.
      destruct (IH (S attempt) (Some e)
                   (logged st1 (failure_events self max_retries backoff attempt e)))
        as (b & st' & Hrun & Hfin); [lia | ].
      exists b, st'. split; [exact Hrun | ].
      intros Hb e' He'. destruct (Hfin Hb e' He') as [H1 H2].
      split; [ | exact H2]. cbn in H1. congruence.
  - rewrite run_loop_done by exact Hcond.
    destruct (finalize_fault env) as [e|] eqn:Hff.
    + rewrite (finalize_failed _ _ _ _ _ Hff). eexists _, _. split; [reflexivity | ].
      intros _ e' [= <-]. cbn. split; [reflexivity | apply last_snoc].
    + destruct (finalize_committed self env last_error st Hff)
        as (session' & i & c & rec & Hrun & _).
      eexists _, _. split; [exact Hrun | ]. intros _ e' [=].
Qed.

Lemma finalize_returns_false self env last_error st :
  exists st', BaseETL.finalize self env last_error st = Some (Ok false, st').
Proof.
  destruct (finalize_fault env) as [e|] eqn:Hff.
  - rewrite (finalize_failed _ _ _ _ _ Hff). eauto.
  - destruct (finalize_committed self env last_error st Hff)
      as (session' & i & c & rec & Hrun & _). eauto.
Qed.

Lemma run_returns self env max_retries backoff st :
  waits_accepted backoff (max_retries - 1) ->
  exists b st', BaseETL.run self env max_retries backoff st = Some (Ok b, st').
Proof.
  intros Hb.
  destruct (run_loop_returns self env max_retries backoff
              (S (Z.to_nat max_retries)) Hb 0%nat None st) as (b & st' & H & _);
    [lia | eauto].
Qed.

(** C2 (as the code has it).  With a backoff factor whose waits
    [backoff_factor ** k], [k = 1 .. max_retries - 1], are lengths that
    [time.sleep] takes (from 0 to 9e9 seconds), [run] returns a boolean
    whatever [extract], [transform], [load_raw], the store and the clock
    do: no exception leaves it.  The block after the loop returns [False]
    also when its checkpoint transaction fails: that failure is logged and
    swallowed, and after such a run the committed tables are as the caller
    left them. *)
Theorem run_returns_boolean
        (self : BaseETL.pipeline) (env : Env) (max_retries : Z)
        (backoff_factor : Q) (st : state) :
  waits_accepted backoff_factor (max_retries - 1) ->
  (exists b st',
      BaseETL.run self env max_retries backoff_factor st = Some (Ok b, st')
      /\ (b = false -> forall e, finalize_fault env = Some e ->
           db st' = db st /\ last (log st') = Some (CheckpointFailed e)))
  /\ (forall last_error st0,
        exists st1,
          BaseETL.finalize self env last_error st0 = Some (Ok false, st1)
          /\ forall e, finalize_fault env = Some e ->
                       st1 = logged st0 [CheckpointFailed e]).
Proof.
  intros Hb. split.
  - unfold BaseETL.run. apply run_loop_returns; [exact Hb | lia].
  - intros last_error st0. destruct (finalize_fault env) as [e|] eqn:Hff.
    + rewrite (finalize_failed _ _ _ _ _ Hff). eexists. split; [reflexivity | ].
      now intros e' [= <-].
    + destruct (finalize_committed self env last_error st0 Hff)
        as (session' & i & c & rec & Hrun & _).
      eexists. split; [exact Hrun | ]. intros e' [=].
Qed.


Lemma attempts_logged_app l1 l2 :
  attempts_logged (l1 ++ l2) = (attempts_logged l1 + attempts_logged l2)%nat.
Proof. unfold attempts_logged. now rewrite List.filter_app, length_app. Qed.

Lemma attempts_logged_failed_attempt self env k :
  attempts_logged (failed_attempt_events self env k) = 1%nat.
Proof.
  unfold failed_attempt_events. now destruct (fault env (Attempt k) OpSession).
Qed.

Lemma attempts_logged_failure self max_retries backoff attempt e :
  attempts_logged (failure_events self max_retries backoff attempt e) = 0%nat.
Proof.
  unfold failure_events. now destruct (Z.of_nat (S attempt) <? max_retries)%Z.
Qed.

Lemma extracts_logged_app l1 l2 :
  extracts_logged (l1 ++ l2) = (extracts_logged l1 + extracts_logged l2)%nat.
Proof. unfold extracts_logged. now rewrite List.filter_app, length_app. Qed.

Lemma extracts_logged_failed_attempt self env k :
  fault env (Attempt k) OpSession = None ->
  extracts_logged (failed_attempt_events self env k) = 1%nat.
Proof. unfold failed_attempt_events. now intros ->. Qed.

Lemma extracts_logged_failure self max_retries backoff attempt e :
  extracts_logged (failure_events self max_retries backoff attempt e) = 0%nat.
Proof.
  unfold failure_events. now destruct (Z.of_nat (S attempt) <? max_retries)%Z.
Qed.

Lemma try_body_extract_fails self env k st e :
  BaseETL.extract self k = Raise e ->
  BaseETL.try_body self env k st
  = Some (Raise (attempt_error self env k),
          logged st (failed_attempt_events self env k)).
Proof.
  intros He.
  unfold BaseETL.try_body, mbind, tell, get_db_context, attempt_error,
    failed_attempt_events, logged. cbn.
  destruct (fault env (Attempt k) OpSession) as [e'|]; [reflexivity | ].
  unfold BaseETL.pipeline_body, mbind, tell. cbn. rewrite He. cbn.
  now rewrite <- app_assoc.
Qed.

(** With an [extract] that always fails the loop goes on to its end. *)
Lemma run_loop_all_fail self env max_retries backoff :
  waits_accepted backoff (max_retries - 1) ->
  (forall k, exists e, BaseETL.extract self k = Raise e) ->
  forall fuel attempt last_error st,
    (Z.to_nat (max_retries - Z.of_nat attempt) < fuel)%nat ->
    exists events,
      BaseETL.run_loop self env max_retries backoff fuel attempt last_error st
      = BaseETL.finalize self env
          (if (Z.of_nat attempt <? max_retries)%Z
           then Some (attempt_error self env (Z.to_nat max_retries - 1))
           else last_error)
          (logged st events)
      /\ attempts_logged events = Z.to_nat (max_retries - Z.of_nat attempt)
      /\ ((forall k, fault env (Attempt k) OpSession = None) ->
          extracts_logged events = Z.to_nat (max_retries - Z.of_nat attempt)).
Proof.
  intros Hb Hfail. induction fuel as [|fuel IH]; intros attempt last_error st Hfuel;
    [lia | ].
  destruct (Z.of_nat attempt <? max_retries)%Z eqn:Hcond.
  - destruct (Hfail attempt) as [e He].
    rewrite (run_loop_retry_all _ _ _ _ _ _ _ _ _ _ Hb Hcond
               (try_body_extract_fails self env attempt st e He)).
    apply Z.ltb_lt in Hcond.
    destruct (IH (S attempt) (Some (attempt_error self env attempt))
                 (logged (logged st (failed_attempt_events self env attempt))
                         (failure_events self max_retries backoff attempt
                                         (attempt_error self env attempt))))
      as (events & Hrun & Hcount & Hcalls); [lia | ].
    eexists. rewrite Hrun, !logged_logged. split; [ | split].
    + f_equal. destruct (Z.of_nat (S attempt) <? max_retries)%Z eqn:Hnext;
        [reflexivity | ].
      apply Z.ltb_ge in Hnext. do 2 f_equal. lia.
    + rewrite !attempts_logged_app, attempts_logged_failed_attempt,
        attempts_logged_failure, Hcount. lia.
    + intros Hopen.
      rewrite !extracts_logged_app, extracts_logged_failed_attempt,
        extracts_logged_failure, (Hcalls Hopen) by apply Hopen. lia.
  - exists []. rewrite logged_nil, run_loop_done by exact Hcond.
    apply Z.ltb_ge in Hcond.
    split; [reflexivity | ]. split; [cbn; lia | ]. intros _. cbn. lia.
Qed.

Lemma run_extract_fails self env max_retries backoff st :
  waits_accepted backoff (max_retries - 1) ->
  (forall k, exists e, BaseETL.extract self k = Raise e) ->
  exists st', BaseETL.run self env max_retries backoff st = Some (Ok false, st').
Proof.
  intros Hb Hfail.
  destruct (run_loop_all_fail self env max_retries backoff Hb Hfail
              (S (Z.to_nat max_retries)) 0%nat None st) as (events & Hrun & _);
    [lia | ].
  unfold BaseETL.run. rewrite Hrun. apply finalize_returns_false.
Qed.

Lemma run_returns_boolean_witness :
  exists st',
    BaseETL.run failing_etl store_down_at_end 3 2 (idle sample_db)
    = Some (Ok false, st')
    /\ db st' = sample_db
    /\ last (log st') = Some (CheckpointFailed "connection lost").
Proof.
  pose proof default_backoff as Hb.
  destruct (run_returns_boolean failing_etl store_down_at_end 3 2 (idle sample_db) Hb)
    as [(b & st' & Hrun & Hfin) _].
  destruct (run_extract_fails failing_etl store_down_at_end 3 2 (idle sample_db) Hb)
    as (st0 & Hrun0); [intros k; eexists; reflexivity | ].
  rewrite Hrun0 in Hrun. injection Hrun as <- <-.
  exists st0. split; [exact Hrun0 | ].
  exact (Hfin eq_refl "connection lost" eq_refl).
Defined.

(** C2 as stated fails for a negative backoff factor: [time.sleep] is
    called in the [except] block, outside any [try], and its [ValueError]
    leaves [run] after the first attempt; nothing is recorded. *)
Lemma negative_backoff_raises :
  exists st',
    BaseETL.run failing_etl calm 3 (-2) (idle sample_db)
    = Some (Raise "sleep length must be non-negative", st')
    /\ attempts_logged (log st') = 1%nat
    /\ db st' = sample_db.
Proof. eexists. vm_compute. repeat split. Qed.

(** C1 as stated fails for a backoff factor of 1e10: the first wait is
    beyond what [time.sleep] converts to a timestamp, and its
    [OverflowError] leaves [run] after one attempt of the three, with no
    checkpoint and no run record written. *)
Lemma oversized_backoff_raises :
  exists st',
    BaseETL.run failing_etl calm 3 10000000000 (idle sample_db)
    = Some (Raise "timestamp too large to convert to C _PyTime_t", st')
    /\ attempts_logged (log st') = 1%nat
    /\ db st' = sample_db.
Proof. eexists. vm_compute. repeat split. Qed.

(** C1 (as the code has it).  With [max_retries >= 1], an [extract] that
    fails in every attempt and a backoff factor whose waits
    [backoff_factor ** k], [k = 1 .. max_retries - 1], are lengths that
    [time.sleep] takes (from 0 to 9e9 seconds), [run] makes exactly
    [max_retries] attempts and returns [False]; when the store opens a
    session for each of them, [extract] is called exactly [max_retries]
    times.  Every run record it leaves is a failure record of this
    [run_id]; when the final transaction goes through, the checkpoint of
    the source has status ['failure'] and the error of the last attempt,
    and exactly one run record, with that status and error, was added. *)
Theorem run_stops_after_max_retries
        (self : BaseETL.pipeline) (env : Env) (max_retries : Z)
        (backoff_factor : Q) (st : state) :
  1 <= max_retries ->
  waits_accepted backoff_factor (max_retries - 1) ->
  (forall k, exists e, BaseETL.extract self k = Raise e) ->
  let last_error := attempt_error self env (Z.to_nat max_retries - 1) in
  exists st' events,
    BaseETL.run self env max_retries backoff_factor st = Some (Ok false, st')
    /\ log st' = log st ++ events
    /\ attempts_logged events = Z.to_nat max_retries
    /\ ((forall k, fault env (Attempt k) OpSession = None) ->
        extracts_logged events = Z.to_nat max_retries)
    /\ (forall rec, rec ∈ etl_runs (db st') ->
                    rec ∈ etl_runs (db st)
                    \/ (ETLRun.run_id rec = BaseETL.run_id self
                        /\ ETLRun.status rec = "failure"))
    /\ (finalize_fault env = None ->
        exists i c rec,
          checkpoint_of (BaseETL.source_name self) (db st') = Some (i, c)
          /\ ETLCheckpoint.status c = "failure"
          /\ ETLCheckpoint.error_message c = Some last_error
          /\ etl_runs (db st') = etl_runs (db st) ++ [rec]
          /\ ETLRun.run_id rec = BaseETL.run_id self
          /\ ETLRun.status rec = "failure"
          /\ ETLRun.error_message rec = Some last_error)
    /\ (forall e, finalize_fault env = Some e -> db st' = db st).
Proof.
  intros Hmax Hb Hfail last_error.
  destruct (run_loop_all_fail self env max_retries backoff_factor Hb Hfail
              (S (Z.to_nat max_retries)) 0%nat None st)
    as (events & Hrun & Hcount & Hcalls); [lia | ].
  unfold BaseETL.run. rewrite Hrun.
  assert (Hcond : (Z.of_nat 0 <? max_retries)%Z = true) by (apply Z.ltb_lt; lia).
  rewrite Hcond. fold last_error.
  replace (Z.to_nat (max_retries - Z.of_nat 0)) with (Z.to_nat max_retries)
    in Hcount, Hcalls by lia.
  destruct (finalize_fault env) as [e|] eqn:Hff.
  - rewrite (finalize_failed _ _ _ _ _ Hff).
    exists (logged (logged st events) [CheckpointFailed e]),
      (events ++ [CheckpointFailed e]).
    split; [reflexivity | ].
    split; [cbn; now rewrite app_assoc | ].
    split; [rewrite attempts_logged_app, Hcount; cbn; lia | ].
    split; [intros Hopen; rewrite extracts_logged_app, (Hcalls Hopen); cbn; lia | ].
    split; [intros rec Hrec; now left | ].
    split; [discriminate | ]. reflexivity.
  - destruct (finalize_committed self env (Some last_error) (logged st events) Hff)
      as (session' & i & c & rec & Hfin & Hfind & Hstatus & Herr & Hruns
          & (R1 & _ & R3 & R4) & _).
    rewrite Hfin. exists (set_db (logged st events) session'), events.
    split; [reflexivity | ].
    split; [reflexivity | ].
    split; [exact Hcount | ].
    split; [exact Hcalls | ].
    cbn [db set_db logged] in *.
    split.
    { intros rec' Hrec'. rewrite Hruns in Hrec'.
      apply elem_of_app in Hrec'. destruct Hrec' as [H|H]; [now left | ].
      apply list_elem_of_singleton in H. subst rec'. right. split; assumption. }
    split; [ | discriminate].
    intros _. exists i, c, rec. repeat split; assumption.
Qed.

Lemma run_stops_after_max_retries_witness :
  exists st' events,
    BaseETL.run failing_etl calm 3 2 (idle sample_db) = Some (Ok false, st')
    /\ log st' = events
    /\ attempts_logged events = 3%nat
    /\ extracts_logged events = 3%nat
    /\ (exists i c rec,
          checkpoint_of "coingecko" (db st') = Some (i, c)
          /\ ETLCheckpoint.status c = "failure"
          /\ ETLCheckpoint.error_message c = Some "503 Service Unavailable"
          /\ etl_runs (db st') = [rec]
          /\ ETLRun.run_id rec = "run-1"
          /\ ETLRun.status rec = "failure"
          /\ ETLRun.error_message rec = Some "503 Service Unavailable").
Proof.
  destruct (run_stops_after_max_retries failing_etl calm 3 2 (idle sample_db))
    as (st' & events & Hrun & Hlog & Hcount & Hcalls & _ & Hfin & _).
  - lia.
  - exact default_backoff.
  - intros k. exists "503 Service Unavailable". reflexivity.
  - exists st', events. repeat split; try assumption.
    + exact (Hcalls (fun _ => eq_refl)).
    + exact (Hfin eq_refl).
Defined.

(** C8.  With [max_retries <= 0] the loop body never runs: no attempt is
    announced, [extract], [transform] and the loads are not called (none of
    their records is logged, no raw or normalized row is written,
    [records_processed] stays), and [run] returns [False]; the final
    transaction, when it goes through, leaves the checkpoint with status
    ['failure'] and adds one failure run record, both with a null
    [error_message]. *)
Theorem run_without_attempts
        (self : BaseETL.pipeline) (env : Env) (max_retries : Z)
        (backoff_factor : Q) (st : state) :
  max_retries <= 0 ->
  exists st' events,
    BaseETL.run self env max_retries backoff_factor st = Some (Ok false, st')
    /\ log st' = log st ++ events
    /\ attempts_logged events = 0%nat
    /\ List.filter is_step_event events = []
    /\ records_processed st' = records_processed st
    /\ (raw_coinpaprika (db st') = raw_coinpaprika (db st)
        /\ raw_coingecko (db st') = raw_coingecko (db st)
        /\ raw_csv (db st') = raw_csv (db st)
        /\ coins (db st') = coins (db st))
    /\ (finalize_fault env = None ->
        events = []
        /\ exists i c rec,
            checkpoint_of (BaseETL.source_name self) (db st') = Some (i, c)
            /\ ETLCheckpoint.status c = "failure"
            /\ ETLCheckpoint.error_message c = None
            /\ etl_runs (db st') = etl_runs (db st) ++ [rec]
            /\ ETLRun.run_id rec = BaseETL.run_id self
            /\ ETLRun.status rec = "failure"
            /\ ETLRun.error_message rec = None).
Proof.
  intros Hmax. unfold BaseETL.run.
  rewrite run_loop_done by (apply Z.ltb_ge; cbn; lia).
  destruct (finalize_fault env) as [e|] eqn:Hff.
  - rewrite (finalize_failed _ _ _ _ _ Hff).
    eexists _, [CheckpointFailed e]. split; [reflexivity | ].
    repeat split; discriminate.
  - destruct (finalize_committed self env None st Hff)
      as (session' & i & c & rec & Hfin & Hfind & Hstatus & Herr & Hruns
          & (R1 & _ & R3 & R4) & _ & Htabs).
    rewrite Hfin. exists (set_db st session'), [].
    split; [reflexivity | ].
    split; [cbn; now rewrite app_nil_r | ].
    split; [reflexivity | ].
    split; [reflexivity | ].
    split; [reflexivity | ].
    split; [exact Htabs | ].
    intros _. split; [reflexivity | ].
    exists i, c, rec. cbn [db set_db]. repeat split; assumption.
Qed.

Lemma run_without_attempts_witness :
  exists st',
    BaseETL.run failing_etl calm 0 2 (idle sample_db) = Some (Ok false, st')
    /\ log st' = []
    /\ coins (db st') = [old_bitcoin_row]
    /\ exists i c rec,
        checkpoint_of "coingecko" (db st') = Some (i, c)
        /\ ETLCheckpoint.status c = "failure"
        /\ ETLCheckpoint.error_message c = None
        /\ etl_runs (db st') = [rec]
        /\ ETLRun.status rec = "failure"
        /\ ETLRun.error_message rec = None.
Proof.
  destruct (run_without_attempts failing_etl calm 0 2 (idle sample_db))
    as (st' & events & Hrun & Hlog & _ & _ & _ & (_ & _ & _ & Hcoins) & Hfin).
  - lia.
  - destruct (Hfin eq_refl) as (-> & i & c & rec & H1 & H2 & H3 & H4 & _ & H6 & H7).
    exists st'. repeat split; try assumption.
    exists i, c, rec. repeat split; assumption.
Defined.

End RunProps.

Section ServiceProps.

(** A run leaves the checkpoints of the other sources alone. *)
Lemma run_loop_keeps_others self env max_retries backoff :
  waits_accepted backoff (max_retries - 1) ->
  raw_keeps_checkpoints self ->
  forall fuel attempt last_error st b st',
    BaseETL.run_loop self env max_retries backoff fuel attempt last_error st
    = Some (Ok b, st') ->
    others_kept self (db st) (db st').
Proof.
  intros Hb Hraw.
  induction fuel as [|fuel IH]; intros attempt last_error st b st' Hrun;
    [discriminate | ].
  destruct (Z.of_nat attempt <? max_retries)%Z eqn:Hcond.
  - destruct (try_body_outcome self env attempt st)
      as (r & st1 & E & [[-> Hkept]|(e & -> & Hdb)]).
    + rewrite (run_loop_success _ _ _ _ _ _ _ _ _ _ Hcond E) in Hrun.
      injection Hrun as <- <-. now apply Hkept.
    + rewrite (run_loop_retry_all _ _ _ _ _ _ _ _ _ _ Hb Hcond E) in Hrun.
      apply IH in Hrun. cbn [db logged] in Hrun. now rewrite Hdb in Hrun.
  - rewrite run_loop_done in Hrun by exact Hcond.
    destruct (finalize_fault env) as [e|] eqn:Hff.
    + rewrite (finalize_failed _ _ _ _ _ Hff) in Hrun. injection Hrun as <- <-.
      intros other _. reflexivity.
    + destruct (finalize_committed self env last_error st Hff)
        as (session' & i & c & rec & Hfin & _ & _ & _ & _ & _ & Hother & _).
      rewrite Hfin in Hrun. injection Hrun as <- <-. exact Hother.
Qed.

(** A first attempt that meets no failure commits a success checkpoint. *)
Lemma try_body_goes_through self env st raw_data :
  BaseETL.extract self 0 = Ok raw_data ->
  (forall now session, exists session',
      BaseETL.load_raw self now session raw_data = Ok session') ->
  (forall now, exists data, BaseETL.transform self now raw_data = Ok data) ->
  (forall op, fault env (Attempt 0) op = None) ->
  exists st' i c,
    BaseETL.try_body self env 0 st = Some (Ok true, st')
    /\ checkpoint_of (BaseETL.source_name self) (db st') = Some (i, c)
    /\ ETLCheckpoint.status c = "success"
    /\ ETLCheckpoint.error_message c = None.
Proof.
  intros Hextract Hload Htransform Hfault.
  destruct (Hload (utcnow env (Attempt 0) OpLoadRaw) (db st)) as [s1 Hs1].
  destruct (Htransform (utcnow env (Attempt 0) OpTransform)) as [data Hdata].
  unfold BaseETL.try_body. rewrite mbind_tell. unfold get_db_context.
  rewrite (Hfault OpSession), (Hfault OpCommit).
  unfold BaseETL.pipeline_body. cbv zeta.
  rewrite mbind_tell, Hextract. cbn [lift]. rewrite (mbind_ok (mret raw_data) _ _ _ _ eq_refl).
  rewrite !mbind_tell. cbn [db logged]. rewrite Hs1. cbn [lift].
  rewrite (mbind_ok (mret s1) _ _ _ _ eq_refl).
  rewrite mbind_tell, Hdata. cbn [lift].
  rewrite (mbind_ok (mret data) _ _ _ _ eq_refl).
  rewrite !mbind_tell.
  match goal with
  | |- context [mbind (BaseETL.load_normalized ?e ?ph ?s ?d) _ ?st0] =>
      destruct (quiet_load_normalized e ph s d st0) as (r2 & st2 & E2 & _ & _);
      assert (exists s2, r2 = Ok s2) as [s2 ->]
  end.
  { revert E2. unfold BaseETL.load_normalized. destruct data as [|r data].
    - intros [= <- <-]. eauto.
    - unfold mbind. rewrite (store_call_ok _ _ _ _ (Hfault OpLoadNormalized)). cbn.
      intros [= <- <-]. eauto. }
  rewrite (mbind_ok _ _ _ _ _ E2).
  destruct (update_checkpoint_result self env (Attempt 0) s2 "success" None st2
              (Hfault OpCheckpoint))
    as (s3 & i & c & E3 & Hfind & Hstatus & _ & Herr & _).
  rewrite (mbind_ok _ _ _ _ _ E3).
  destruct (create_run_record_result self env (Attempt 0) s3 "success" None st2
              (Hfault OpRunRecord)) as (rec & E4 & _).
  rewrite (mbind_ok _ _ _ _ _ E4). cbn.
  eexists _, i, c. split; [reflexivity | ]. cbn.
  split; [exact Hfind | ]. split; [exact Hstatus | ]. now apply Herr.
Qed.

(** *** The registry *)

Lemma lookup_source_None etl_sources name :
  name ∉ etl_sources.*1 -> ETLService.lookup_source etl_sources name = None.
Proof.
  induction etl_sources as [|[n cls] rest IH]; cbn; [reflexivity | ].
  intros Hnot. apply not_elem_of_cons in Hnot. destruct Hnot as [Hne Hrest].
  destruct (String.eqb_spec n name); [congruence | now apply IH].
Qed.

Lemma lookup_source_elem etl_sources name cls :
  NoDup (etl_sources.*1) -> (name, cls) ∈ etl_sources ->
  ETLService.lookup_source etl_sources name = Some cls.
Proof.
  induction etl_sources as [|[n c] rest IH]; cbn; intros Hnd Hin.
  - now apply elem_of_nil in Hin.
  - apply NoDup_cons in Hnd. destruct Hnd as [Hn Hnd].
    apply elem_of_cons in Hin. destruct Hin as [[= -> ->]|Hin].
    + now rewrite String.eqb_refl.
    + destruct (String.eqb_spec n name) as [->|_]; [ | now apply IH].
      exfalso. apply Hn. apply list_elem_of_fmap. exists (name, cls). auto.
Qed.

Lemma lookup_source_Some etl_sources name cls :
  ETLService.lookup_source etl_sources name = Some cls -> (name, cls) ∈ etl_sources.
Proof.
  induction etl_sources as [|[n c] rest IH]; cbn; [discriminate | ].
  destruct (String.eqb_spec n name) as [->|_].
  - intros [= ->]. apply elem_of_cons. now left.
  - intros H. apply elem_of_cons. right. now apply IH.
Qed.

(** *** One source *)

Lemma run_single_source_unknown etl_sources name st :
  ETLService.lookup_source etl_sources name = None ->
  ETLService.run_single_source etl_sources name st
  = Some (Ok false, logged st [UnknownSource name]).
Proof. unfold ETLService.run_single_source. now intros ->. Qed.

Lemma run_single_source_construct_raises etl_sources name cls e st :
  ETLService.lookup_source etl_sources name = Some cls ->
  ETLService.construct cls = Raise e ->
  ETLService.run_single_source etl_sources name st = Some (Raise e, st).
Proof. unfold ETLService.run_single_source. now intros -> ->. Qed.

Lemma run_single_source_runs etl_sources name cls etl st :
  ETLService.lookup_source etl_sources name = Some cls ->
  ETLService.construct cls = Ok etl ->
  ETLService.run_single_source etl_sources name st
  = BaseETL.run etl (ETLService.world cls) 3 2
      {| db := db st; records_processed := 0; log := log st |}.
Proof. unfold ETLService.run_single_source. now intros -> ->. Qed.

Lemma guarded_ok etl_sources name st b st' :
  ETLService.run_single_source etl_sources name st = Some (Ok b, st') ->
  guarded etl_sources name st = Some (Ok b, st').
Proof. unfold guarded, try_except. now intros ->. Qed.

(** The dispatch of a source always yields a boolean. *)
Lemma guarded_returns etl_sources name st :
  exists b st', guarded etl_sources name st = Some (Ok b, st').
Proof.
  destruct (ETLService.lookup_source etl_sources name) as [cls|] eqn:Hlook.
  - destruct (ETLService.construct cls) as [etl|e] eqn:Hnew.
    + destruct (run_returns etl (ETLService.world cls) 3 2
                  {| db := db st; records_processed := 0; log := log st |}
                  default_backoff)
        as (b & st' & Hrun).
      exists b, st'. apply guarded_ok.
      now rewrite (run_single_source_runs _ _ _ _ _ Hlook Hnew).
    + eexists _, _. unfold guarded, try_except.
      rewrite (run_single_source_construct_raises _ _ _ _ _ Hlook Hnew). reflexivity.
  - eexists _, _. apply guarded_ok. now apply run_single_source_unknown.
Qed.

Lemma guarded_construct_raises etl_sources name cls e st :
  ETLService.lookup_source etl_sources name = Some cls ->
  ETLService.construct cls = Raise e ->
  guarded etl_sources name st = Some (Ok false, logged st [DispatchFailed name e]).
Proof.
  intros Hlook Hnew. unfold guarded, try_except.
  now rewrite (run_single_source_construct_raises _ _ _ _ _ Hlook Hnew).
Qed.

Lemma guarded_extract_fails etl_sources name cls st :
  ETLService.lookup_source etl_sources name = Some cls ->
  extract_always_fails cls ->
  exists st', guarded etl_sources name st = Some (Ok false, st').
Proof.
  intros Hlook (etl & Hnew & Hfail).
  destruct (run_extract_fails etl (ETLService.world cls) 3 2
              {| db := db st; records_processed := 0; log := log st |}
              default_backoff Hfail)
    as (st' & Hrun).
  exists st'. apply guarded_ok.
  now rewrite (run_single_source_runs _ _ _ _ _ Hlook Hnew).
Qed.

Lemma guarded_first_attempt_succeeds etl_sources name cls st :
  ETLService.lookup_source etl_sources name = Some cls ->
  first_attempt_succeeds cls ->
  exists st' etl i c,
    ETLService.construct cls = Ok etl
    /\ guarded etl_sources name st = Some (Ok true, st')
    /\ checkpoint_of (BaseETL.source_name etl) (db st') = Some (i, c)
    /\ ETLCheckpoint.status c = "success".
Proof.
  intros Hlook (etl & raw_data & Hnew & Hextract & Hload & Htransform & Hfault).
  destruct (try_body_goes_through etl (ETLService.world cls)
              {| db := db st; records_processed := 0; log := log st |}
              raw_data Hextract Hload Htransform Hfault)
    as (st' & i & c & Htry & Hfind & Hstatus & _).
  exists st', etl, i, c. split; [exact Hnew | ]. split; [ | split; assumption].
  apply guarded_ok. rewrite (run_single_source_runs _ _ _ _ _ Hlook Hnew).
  unfold BaseETL.run. now apply run_loop_success.
Qed.

(** The dispatch of a source leaves the checkpoints of the others alone. *)
Lemma guarded_keeps_others etl_sources name other st b st' :
  well_formed_registry etl_sources ->
  other <> name ->
  guarded etl_sources other st = Some (Ok b, st') ->
  checkpoint_of name (db st') = checkpoint_of name (db st).
Proof.
  intros Hwf Hne.
  destruct (ETLService.lookup_source etl_sources other) as [cls|] eqn:Hlook.
  - destruct (ETLService.construct cls) as [etl|e] eqn:Hnew.
    + unfold guarded, try_except.
      rewrite (run_single_source_runs _ _ _ _ _ Hlook Hnew).
      destruct (Hwf other cls etl (lookup_source_Some _ _ _ Hlook) Hnew)
        as [Hname Hraw].
      destruct (BaseETL.run etl (ETLService.world cls) 3 2 _)
        as [[[b0|e0] st0]|] eqn:Hrun; try discriminate.
      * intros [= <- <-].
        apply (run_loop_keeps_others _ _ _ _ default_backoff Hraw) in Hrun.
        apply Hrun. congruence.
      * (* [run] does not raise *)
        destruct (run_returns etl (ETLService.world cls) 3 2
                    {| db := db st; records_processed := 0; log := log st |}
                    default_backoff)
          as (b1 & st1 & Hrun1). congruence.
    + rewrite (guarded_construct_raises _ _ _ _ _ Hlook Hnew). now intros [= <- <-].
  - unfold guarded, try_except. rewrite (run_single_source_unknown _ _ _ Hlook).
    now intros [= <- <-].
Qed.

(** *** All sources *)

Lemma collect_completed_cons etl_sources source rest results st b st1 :
  guarded etl_sources source st = Some (Ok b, st1) ->
  ETLService.collect_completed etl_sources (source :: rest) results st
  = ETLService.collect_completed etl_sources rest (<[source := b]> results) st1.
Proof.
  intros H. cbn [ETLService.collect_completed].
  change (try_except _ _) with (guarded etl_sources source).
  now rewrite (mbind_ok _ _ _ _ _ H).
Qed.

(** The loop over the completed futures ends with one entry per future;
    the entries of the other keys are kept. *)
Lemma collect_completed_returns etl_sources completed :
  forall results st,
  exists results' st',
    ETLService.collect_completed etl_sources completed results st
    = Some (Ok results', st')
    /\ (forall name, name ∉ completed -> results' !! name = results !! name)
    /\ (forall name, name ∈ completed -> is_Some (results' !! name)).
Proof.
  induction completed as [|source rest IH]; intros results st.
  - exists results, st. split; [reflexivity | ]. split; [reflexivity | ].
    intros name H. now apply elem_of_nil in H.
  - destruct (guarded_returns etl_sources source st) as (b & st1 & Hg).
    destruct (IH (<[source := b]> results) st1) as (results' & st' & Hrun & Hout & Hin).
    exists results', st'. rewrite (collect_completed_cons _ _ _ _ _ _ _ Hg).
    split; [exact Hrun | ]. split.
    + intros name Hname. apply not_elem_of_cons in Hname. destruct Hname as [Hne Hrest].
      rewrite (Hout name Hrest). now apply lookup_insert_ne.
    + intros name Hname. destruct (decide (name ∈ rest)) as [Hrest|Hrest];
        [now apply Hin | ].
      apply elem_of_cons in Hname. destruct Hname as [->|Hname]; [ | contradiction].
      rewrite (Hout source Hrest), lookup_insert_eq. eauto.
Qed.

(** The entry of a source is the outcome of its own dispatch. *)
Lemma collect_completed_entry etl_sources name b completed :
  (forall st, exists st', guarded etl_sources name st = Some (Ok b, st')) ->
  NoDup completed -> name ∈ completed ->
  forall results st results' st',
    ETLService.collect_completed etl_sources completed results st
    = Some (Ok results', st') ->
    results' !! name = Some b.
Proof.
  intros Hname. induction completed as [|source rest IH];
    intros Hnd Hin results st results' st' Hrun.
  - now apply elem_of_nil in Hin.
  - apply NoDup_cons in Hnd. destruct Hnd as [Hfresh Hnd].
    destruct (guarded_returns etl_sources source st) as (b0 & st1 & Hg).
    rewrite (collect_completed_cons _ _ _ _ _ _ _ Hg) in Hrun.
    apply elem_of_cons in Hin. destruct Hin as [->|Hin].
    + destruct (Hname st) as [st2 Hg']. rewrite Hg' in Hg. injection Hg as <- <-.
      destruct (collect_completed_returns etl_sources rest (<[source := b]> results) st2)
        as (r2 & s2 & Hrun2 & Hout & _).
      rewrite Hrun2 in Hrun. injection Hrun as <- <-.
      rewrite (Hout source Hfresh). apply lookup_insert_eq.
    + eapply IH; eauto.
Qed.

(** A property of the store that the other sources preserve survives the
    rest of the loop. *)
Lemma collect_completed_preserves etl_sources (Q : DB -> Prop) completed :
  (forall other st b st',
      other ∈ completed -> guarded etl_sources other st = Some (Ok b, st') ->
      Q (db st) -> Q (db st')) ->
  forall results st results' st',
    ETLService.collect_completed etl_sources completed results st
    = Some (Ok results', st') ->
    Q (db st) -> Q (db st').
Proof.
  induction completed as [|source rest IH]; intros Hpres results st results' st' Hrun HQ.
  - injection Hrun as <- <-. exact HQ.
  - destruct (guarded_returns etl_sources source st) as (b0 & st1 & Hg).
    rewrite (collect_completed_cons _ _ _ _ _ _ _ Hg) in Hrun.
    eapply IH; [ | exact Hrun | ].
    + intros other s b s' Hother. apply Hpres. apply elem_of_cons. now right.
    + eapply Hpres; [ | exact Hg | exact HQ]. apply elem_of_cons. now left.
Qed.

(** The success checkpoint of a source is still there when the loop ends. *)
Lemma collect_completed_checkpoint etl_sources name cls completed :
  well_formed_registry etl_sources ->
  ETLService.lookup_source etl_sources name = Some cls ->
  first_attempt_succeeds cls ->
  NoDup completed -> name ∈ completed ->
  forall results st results' st',
    ETLService.collect_completed etl_sources completed results st
    = Some (Ok results', st') ->
    exists i c, checkpoint_of name (db st') = Some (i, c)
                /\ ETLCheckpoint.status c = "success".
Proof.
  intros Hwf Hlook Hgood. induction completed as [|source rest IH];
    intros Hnd Hin results st results' st' Hrun.
  - now apply elem_of_nil in Hin.
  - apply NoDup_cons in Hnd. destruct Hnd as [Hfresh Hnd].
    apply elem_of_cons in Hin. destruct Hin as [->|Hin].
    + destruct (guarded_first_attempt_succeeds etl_sources source cls st Hlook Hgood)
        as (st1 & etl & i & c & Hnew & Hg & Hfind & Hstatus).
      destruct (Hwf source cls etl (lookup_source_Some _ _ _ Hlook) Hnew) as [Hname _].
      rewrite Hname in Hfind.
      rewrite (collect_completed_cons _ _ _ _ _ _ _ Hg) in Hrun.
      apply (collect_completed_preserves etl_sources
               (fun d => exists i c, checkpoint_of source d = Some (i, c)
                                     /\ ETLCheckpoint.status c = "success")
               rest) in Hrun; [exact Hrun | | eauto].
      intros other s b s' Hother Hg' (i' & c' & Hf' & Hs').
      exists i', c'. split; [ | exact Hs'].
      rewrite <- Hf'. eapply guarded_keeps_others; eauto.
      intros ->. contradiction.
    + destruct (guarded_returns etl_sources source st) as (b0 & st1 & Hg).
      rewrite (collect_completed_cons _ _ _ _ _ _ _ Hg) in Hrun.
      eapply IH; eauto.
Qed.

(** When no class raises on construction the sequential loop does what the
    loop over the futures does. *)
Lemma collect_sequential_completed etl_sources sources :
  (forall name cls e, ETLService.lookup_source etl_sources name = Some cls ->
                      ETLService.construct cls <> Raise e) ->
  forall results st,
    ETLService.collect_sequential etl_sources sources results st
    = ETLService.collect_completed etl_sources sources results st.
Proof.
  intros Hnew. induction sources as [|source rest IH]; intros results st;
    [reflexivity | ].
  assert (Hsame : exists b st1,
             ETLService.run_single_source etl_sources source st = Some (Ok b, st1)).
  { destruct (ETLService.lookup_source etl_sources source) as [cls|] eqn:Hlook.
    - destruct (ETLService.construct cls) as [etl|e] eqn:Hc.
      + rewrite (run_single_source_runs _ _ _ _ _ Hlook Hc).
        apply run_returns, default_backoff.
      + exfalso. eapply Hnew; eauto.
    - rewrite (run_single_source_unknown _ _ _ Hlook). eauto. }
  destruct Hsame as (b & st1 & Hrun).
  rewrite (collect_completed_cons _ _ _ _ _ _ _ (guarded_ok _ _ _ _ _ Hrun)).
  cbn [ETLService.collect_sequential]. rewrite (mbind_ok _ _ _ _ _ Hrun). apply IH.
Qed.

(** The registry of the service is well formed. *)
Lemma init_well_formed py coinpaprika coingecko csv :
  well_formed_registry (ETLService.init py coinpaprika coingecko csv).
Proof.
  intros name cls etl Hin Hnew. unfold ETLService.init in Hin.
  repeat (apply elem_of_cons in Hin; destruct Hin as [[= -> ->]|Hin]);
    try (now apply elem_of_nil in Hin);
    cbn in Hnew; injection Hnew as <-; (split; [reflexivity | ]);
    intros now session raw_data session' [= <-]; cbn.
  - now rewrite CoinPaprika_load_raw_rows.
  - now rewrite CoinGecko_load_raw_rows.
  - now rewrite CSV_load_raw_rows.
Qed.


(** X26.  [run_all_sources(parallel=True)] returns a mapping with one boolean
    per registered source, whatever the sources do and in whatever order
    they complete.  The entry of a source is decided by that source alone:
    [False] if its class raises or its [extract] fails in every attempt,
    [True] if its first attempt meets no failure, and in that case its
    checkpoint has status ['success'] at the end, whatever the other
    sources did.  The sequential branch gives the same mapping as long as
    no class raises on construction. *)
Theorem run_all_sources_isolates_failures
        (etl_sources : ETLService.registry) (completed : list string) (st : state) :
  NoDup (etl_sources.*1) ->
  NoDup completed ->
  (forall name, name ∈ completed <-> name ∈ etl_sources.*1) ->
  exists results st',
    ETLService.run_all_sources etl_sources true completed st = Some (Ok results, st')
    /\ (forall name, is_Some (results !! name) <-> name ∈ etl_sources.*1)
    /\ (forall name cls,
          (name, cls) ∈ etl_sources ->
          (forall e, ETLService.construct cls = Raise e -> results !! name = Some false)
          /\ (extract_always_fails cls -> results !! name = Some false)
          /\ (first_attempt_succeeds cls ->
              results !! name = Some true
              /\ (well_formed_registry etl_sources ->
                  exists i c, checkpoint_of name (db st') = Some (i, c)
                              /\ ETLCheckpoint.status c = "success")))
    /\ ((forall name cls e, (name, cls) ∈ etl_sources ->
                            ETLService.construct cls <> Raise e) ->
        ETLService.run_all_sources etl_sources false completed st
        = ETLService.run_all_sources etl_sources true (etl_sources.*1) st).
Proof.
  intros Hkeys Hnd Hperm. unfold ETLService.run_all_sources.
  destruct (collect_completed_returns etl_sources completed ∅ st)
    as (results & st' & Hrun & Hout & Hin).
  exists results, st'. split; [exact Hrun | ]. split; [ | split].
  - intros name. rewrite <- Hperm. split; [ | apply Hin].
    intros Hsome. destruct (decide (name ∈ completed)) as [H|H]; [exact H | ].
    rewrite (Hout name H), lookup_empty in Hsome. now destruct Hsome.
  - intros name cls Hcls.
    pose proof (lookup_source_elem _ _ _ Hkeys Hcls) as Hlook.
    assert (Hname : name ∈ completed).
    { apply Hperm, list_elem_of_fmap. exists (name, cls). auto. }
    split; [ | split].
    + intros e Hnew.
      apply (collect_completed_entry etl_sources name false completed)
        with (results := ∅) (st := st) (st' := st'); try assumption.
      intros s. eexists. now apply (guarded_construct_raises _ _ cls e).
    + intros Hfail.
      apply (collect_completed_entry etl_sources name false completed)
        with (results := ∅) (st := st) (st' := st'); try assumption.
      intros s. now apply (guarded_extract_fails _ _ cls).
    + intros Hgood. split.
      * apply (collect_completed_entry etl_sources name true completed)
          with (results := ∅) (st := st) (st' := st'); try assumption.
        intros s.
        destruct (guarded_first_attempt_succeeds etl_sources name cls s Hlook Hgood)
          as (s' & etl & i & c & _ & Hg & _). eauto.
      * intros Hwf.
        eapply (collect_completed_checkpoint etl_sources name cls completed); eauto.
  - intros Hnew. apply collect_sequential_completed.
    intros name cls e Hlook. apply (Hnew name cls e).
    now apply lookup_source_Some.
Qed.

Lemma run_all_sources_isolates_failures_witness :
  exists results st',
    ETLService.run_all_sources sample_sources true ["csv"; "coingecko"; "coinpaprika"]
      (idle empty_db) = Some (Ok results, st')
    /\ results !! "coinpaprika" = Some false
    /\ results !! "coingecko" = Some true
    /\ (exists i c, checkpoint_of "coingecko" (db st') = Some (i, c)
                    /\ ETLCheckpoint.status c = "success").
Proof.
  destruct (run_all_sources_isolates_failures sample_sources
              ["csv"; "coingecko"; "coinpaprika"] (idle empty_db))
    as (results & st' & Hrun & _ & Hentries & _).
  - apply (bool_decide_unpack _). vm_compute. exact I.
  - apply (bool_decide_unpack _). vm_compute. exact I.
  - intros name. cbn. rewrite !elem_of_cons, !elem_of_nil. tauto.
  - exists results, st'. split; [exact Hrun | ].
    destruct (Hentries "coinpaprika"
                {| ETLService.construct :=
                     Ok (CoinPaprikaETL.init strict_runtime "run-a" 50 api_down);
                   ETLService.world := calm |}) as (_ & Hdown & _).
    { apply elem_of_cons. left. reflexivity. }
    destruct (Hentries "coingecko"
                {| ETLService.construct :=
                     Ok (CoinGeckoETL.init strict_runtime "run-b" 50 api_up);
                   ETLService.world := calm |}) as (_ & _ & Hup).
    { apply elem_of_cons. right. apply elem_of_cons. left. reflexivity. }
    split.
    { apply Hdown. eexists. split; [reflexivity | ].
      intros k. eexists. reflexivity. }
    destruct Hup as [Htrue Hcheckpoint].
    { eexists _, _. split; [reflexivity | ]. split; [reflexivity | ].
      split; [intros; eexists; reflexivity | ].
      split; [intros; eexists; reflexivity | ]. reflexivity. }
    split; [exact Htrue | ]. apply Hcheckpoint. apply init_well_formed.
Defined.

End ServiceProps.

Section RateLimiterWaitProps.
Import RateLimiter.

(** The bucket after the refill of a call made at [now]. *)
Lemma acquire_cases self now n :
  let refilled :=
    Qmin (inject_Z (rate_limit self))
         (tokens self + (now - last_update self) * inject_Z (rate_limit self) / 60)%Q in
  ((inject_Z n <= refilled)%Q
   /\ acquire self now n
      = (true, {| rate_limit := rate_limit self;
                  tokens := (refilled - inject_Z n)%Q;
                  last_update := now |}))
  \/ ((refilled < inject_Z n)%Q
      /\ acquire self now n
         = (false, {| rate_limit := rate_limit self;
                      tokens := refilled;
                      last_update := now |})).
Proof.
  cbv zeta. unfold acquire. cbv zeta.
  destruct (Qle_bool _ _) eqn:E.
  - left. split; [now apply Qle_bool_iff | reflexivity].
  - right. split; [ | reflexivity].
    apply Qnot_le_lt. intros H. apply Qle_bool_iff in H. congruence.
Qed.

Lemma refill_amount (dt rate : Q) (lo : Q) :
  (lo <= dt)%Q -> (0 <= rate)%Q -> (lo * rate * (1 # 60) <= dt * rate / 60)%Q.
Proof.
  intros Hdt Hrate. unfold Qdiv. change (/ 60)%Q with (1 # 60)%Q.
  apply Qmult_le_compat_r; [ | discriminate].
  apply Qmult_le_compat_r; assumption.
Qed.

Lemma acquire_oversized self now n :
  rate_limit self < n ->
  acquire self now n
  = (false, {| rate_limit := rate_limit self;
               tokens := Qmin (inject_Z (rate_limit self))
                              (tokens self + (now - last_update self)
                                             * inject_Z (rate_limit self) / 60)%Q;
               last_update := now |}).
Proof.
  intros Hn. destruct (acquire_cases self now n) as [[Hle _]|[_ E]]; [ | exact E].
  exfalso. pose proof (Q.le_min_l (inject_Z (rate_limit self))
    (tokens self + (now - last_update self) * inject_Z (rate_limit self) / 60)%Q) as Hm.
  assert (Hq : (inject_Z n <= inject_Z (rate_limit self))%Q) by lra.
  rewrite <- Zle_Qle in Hq. lia.
Qed.

(** X1.  A request for more tokens than [rate_limit] is never granted.  A
    refill stops at [rate_limit] tokens, so [acquire] returns [False] at
    every time, and [wait] never returns: however often it polls, it is
    still polling. *)
Theorem wait_oversized_never_returns (self : limiter) (clock : nat -> Q) (n : Z) :
  rate_limit self < n ->
  (forall now, fst (acquire self now n) = false)
  /\ (forall fuel k, wait fuel self clock k n = None).
Proof.
  intros Hn. split.
  - intros now. now rewrite acquire_oversized.
  - intros fuel. revert self Hn.
    induction fuel as [|fuel IH]; intros self Hn k; [reflexivity | ].
    cbn [wait]. rewrite acquire_oversized by exact Hn. apply IH. exact Hn.
Qed.

Lemma wait_oversized_never_returns_witness :
  fst (acquire (init 10 0) 3600 11) = false
  /\ wait 1000 (init 10 0) tenths 0 11 = None.
Proof.
  destruct (wait_oversized_never_returns (init 10 0) tenths 11) as [H1 H2].
  - cbn. lia.
  - split; [apply H1 | apply H2].
Defined.

(** Once a sleep has passed, [S fuel] more calls are enough when the
    bucket lacks at most [S fuel] refills of a tenth of a second. *)
Lemma wait_progress (clock : nat -> Q) (n : Z) :
  sleeps clock ->
  forall fuel self k,
    1 <= n <= rate_limit self ->
    (last_update self + (1 # 10) <= clock k)%Q ->
    ((inject_Z n - tokens self) * 600
     <= inject_Z (Z.of_nat (S fuel)) * inject_Z (rate_limit self))%Q ->
    exists self' polls,
      wait (S fuel) self clock k n = Some (self', polls)
      /\ (k < polls <= k + S fuel)%nat
      /\ (0 <= tokens self')%Q
      /\ last_update self' = clock (polls - 1)%nat
      /\ rate_limit self' = rate_limit self.
Proof.
  intros Hclock. induction fuel as [|fuel IH]; intros self k Hn Hdt Hlack.
  all: assert (HnR : (inject_Z n <= inject_Z (rate_limit self))%Q)
         by (rewrite <- Zle_Qle; lia).
  all: assert (Hn1 : (1 <= inject_Z n)%Q)
         by (change 1%Q with (inject_Z 1); rewrite <- Zle_Qle; lia).
  all: pose proof (refill_amount (clock k - last_update self)
                     (inject_Z (rate_limit self)) (1 # 10)) as Hy.
  all: cbn [wait].
  all: destruct (acquire_cases self (clock k) n) as [[Hle ->]|[Hlt ->]].
  all: cbv zeta in *.
  all: set (y := ((clock k - last_update self) * inject_Z (rate_limit self) / 60)%Q) in *.
  all: try (exists {| rate_limit := rate_limit self;
                      tokens := (Qmin (inject_Z (rate_limit self)) (tokens self + y)
                                 - inject_Z n)%Q;
                      last_update := clock k |}, (S k);
            split; [reflexivity | ];
            split; [lia | ];
            split; [cbn; lra | ];
            split; [cbn; f_equal; lia | reflexivity]).
  - (* the last refill fills what is lacking *)
    exfalso.
    destruct (Q.min_spec (inject_Z (rate_limit self)) (tokens self + y)) as [[_ E]|[_ E]];
      rewrite E in Hlt; [lra | ].
    change (inject_Z (Z.of_nat 1)) with 1%Q in Hlack.
    assert (Hy' : ((1 # 10) * inject_Z (rate_limit self) * (1 # 60) <= y)%Q)
      by (apply Hy; lra).
    lra.
  - destruct (Q.min_spec (inject_Z (rate_limit self)) (tokens self + y)) as [[_ E]|[_ E]].
    { rewrite E in Hlt. lra. }
    assert (Hy' : ((1 # 10) * inject_Z (rate_limit self) * (1 # 60) <= y)%Q)
      by (apply Hy; lra).
    destruct (IH {| rate_limit := rate_limit self;
                    tokens := Qmin (inject_Z (rate_limit self)) (tokens self + y);
                    last_update := clock k |} (S k))
      as (self' & polls & Hwait & Hpolls & Htok & Hlast & Hrate).
    + exact Hn.
    + cbn. apply Hclock.
    + cbn [tokens rate_limit]. rewrite E.
      rewrite (Nat2Z.inj_succ (S fuel)), <- Z.add_1_r, inject_Z_plus in Hlack.
      change (inject_Z 1) with 1%Q in Hlack. lra.
    + exists self', polls. split; [exact Hwait | ].
      split; [lia | ]. split; [exact Htok | ]. split; [exact Hlast | exact Hrate].
Qed.

(** In exact arithmetic a minute of polls is enough. *)
Lemma wait_a_minute (self : limiter) (clock : nat -> Q) (n : Z) :
  1 <= n <= rate_limit self ->
  (0 <= tokens self)%Q ->
  (last_update self <= clock 0%nat)%Q ->
  sleeps clock ->
  exists self' polls,
    wait 601 self clock 0 n = Some (self', polls)
    /\ (1 <= polls <= 601)%nat
    /\ (0 <= tokens self')%Q
    /\ last_update self' = clock (polls - 1)%nat
    /\ rate_limit self' = rate_limit self.
Proof.
  intros Hn Htok Hstart Hclock.
  assert (HnR : (inject_Z n <= inject_Z (rate_limit self))%Q)
    by (rewrite <- Zle_Qle; lia).
  assert (Hn1 : (1 <= inject_Z n)%Q)
    by (change 1%Q with (inject_Z 1); rewrite <- Zle_Qle; lia).
  pose proof (refill_amount (clock 0%nat - last_update self)
                (inject_Z (rate_limit self)) 0) as Hy.
  change 601%nat with (S 600) at 1. cbn [wait].
  destruct (acquire_cases self (clock 0%nat) n) as [[Hle ->]|[Hlt ->]];
    cbv zeta in *;
    set (y := ((clock 0%nat - last_update self) * inject_Z (rate_limit self) / 60)%Q) in *.
  - eexists _, 1%nat. split; [reflexivity | ]. split; [lia | ].
    split; [cbn; lra | ]. split; reflexivity.
  - destruct (Q.min_spec (inject_Z (rate_limit self)) (tokens self + y)) as [[_ E]|[_ E]].
    { rewrite E in Hlt. lra. }
    assert (Hy' : (0 * inject_Z (rate_limit self) * (1 # 60) <= y)%Q)
      by (apply Hy; lra).
    destruct (wait_progress clock n Hclock 599
                {| rate_limit := rate_limit self;
                   tokens := Qmin (inject_Z (rate_limit self)) (tokens self + y);
                   last_update := clock 0%nat |} 1%nat)
      as (self' & polls & Hwait & Hpolls & Htok' & Hlast & Hrate).
    + exact Hn.
    + cbn. apply Hclock.
    + cbn [tokens rate_limit]. rewrite E.
      change (inject_Z (Z.of_nat 600)) with 600%Q. lra.
    + exists self', polls. split; [exact Hwait | ].
      split; [lia | ]. split; [exact Htok' | ]. split; [exact Hlast | exact Hrate].
Qed.

(** More fuel does not change the outcome of [wait]. *)
Lemma wait_more_fuel (n : Z) (clock : nat -> Q) (fuel : nat) :
  forall fuel' self k r,
    (fuel <= fuel')%nat ->
    wait fuel self clock k n = Some r -> wait fuel' self clock k n = Some r.
Proof.
  induction fuel as [|fuel IH]; intros fuel' self k r Hle H; [discriminate | ].
  destruct fuel' as [|fuel']; [lia | ]. cbn [wait] in *.
  destruct (acquire self (clock k) n) as [[|] self']; [exact H | ].
  apply (IH fuel'); [lia | exact H].
Qed.

(** X2.  [wait] returns for a request of at most [rate_limit] tokens.  For
    a bucket whose count of tokens is not negative and whose last update
    is not later than the first poll, with each poll at least the 0.1 s of
    [time.sleep] after the one before, the request is granted within two
    minutes, that is after at most 1201 calls of [acquire]; in exact
    arithmetic 601 are enough, the bound leaves room for the rounding of
    floats.  The bucket is left with a count of tokens that is not
    negative, stamped with the time of the granting call, and with its
    [rate_limit] as it was. *)
Theorem wait_granted_within_two_minutes
        (self : limiter) (clock : nat -> Q) (n : Z) :
  1 <= n <= rate_limit self ->
  (0 <= tokens self)%Q ->
  (last_update self <= clock 0%nat)%Q ->
  sleeps clock ->
  exists self' polls,
    wait 1201 self clock 0 n = Some (self', polls)
    /\ (1 <= polls <= 1201)%nat
    /\ (0 <= tokens self')%Q
    /\ last_update self' = clock (polls - 1)%nat
    /\ rate_limit self' = rate_limit self.
Proof.
  intros Hn Htok Hstart Hclock.
  destruct (wait_a_minute self clock n Hn Htok Hstart Hclock)
    as (self' & polls & Hwait & Hpolls & Htok' & Hlast & Hrate).
  exists self', polls.
  split; [apply (wait_more_fuel n clock 601); [lia | exact Hwait] | ].
  split; [lia | ]. split; [exact Htok' | ]. split; [exact Hlast | exact Hrate].
Qed.

Lemma tenths_sleeps : sleeps tenths.
Proof.
  intros k. unfold tenths, Qle, Qplus. cbn [Qnum Qden].
  rewrite Nat2Z.inj_succ. lia.
Qed.

Lemma wait_granted_within_two_minutes_witness :
  exists self' polls,
    wait 1201 {| rate_limit := 10; tokens := 0; last_update := 0 |} tenths 0 1
    = Some (self', polls)
    /\ (1 <= polls <= 1201)%nat
    /\ (0 <= tokens self')%Q.
Proof.
  destruct (wait_granted_within_two_minutes
              {| rate_limit := 10; tokens := 0; last_update := 0 |} tenths 1)
    as (self' & polls & H1 & H2 & H3 & _).
  - cbn. lia.
  - cbn. lra.
  - vm_compute. discriminate.
  - exact tenths_sleeps.
  - exists self', polls. auto.
Defined.



End RateLimiterWaitProps.

Section RegistryProps.
Import RateLimiterRegistry.

(** X4.  [get_limiter] creates the limiter of a source once.  A second call
    for the same source returns the limiter of the first call and leaves
    the registry as it is, whatever [rate_limit] it is given: the argument
    counts only for a source that has no limiter yet.  The limiters of the
    other sources are not touched. *)
Theorem get_limiter_keeps_first
        (self : registry) (source : string) (r1 r2 : Z) (t1 t2 : Q) :
  let '(self1, first) := get_limiter self source r1 t1 in
  get_limiter self1 source r2 t2 = (self1, first)
  /\ self1 !! source = Some first
  /\ (forall other, other <> source -> self1 !! other = self !! other)
  /\ (self !! source = None -> first = RateLimiter.init r1 t1).
Proof.
  unfold get_limiter. destruct (self !! source) as [l|] eqn:E; cbv beta iota zeta.
  - rewrite E. repeat split. discriminate.
  - unfold registry in *. rewrite lookup_insert_eq. split; [reflexivity | ].
    split; [reflexivity | ].
    split; [ | reflexivity].
    intros other Hne. now apply lookup_insert_ne.
Qed.

End RegistryProps.

Section UpsertProps.

Lemma uq_coin_source_keys t : uq_coin_source t <-> NoDup (coin_key <$> t).
Proof.
  rewrite NoDup_alt. unfold uq_coin_source. split.
  - intros Huq i j x Hi Hj. rewrite list_lookup_fmap in Hi, Hj.
    destruct (t !! i) as [c|] eqn:Ei; [ | discriminate].
    destruct (t !! j) as [c'|] eqn:Ej; [ | discriminate].
    cbn in Hi, Hj. injection Hi as Hi. injection Hj as Hj. subst x.
    unfold coin_key in Hj. injection Hj as H1 H2.
    apply (Huq i j c c' Ei Ej); congruence.
  - intros Hnd i j c c' Hi Hj H1 H2. apply (Hnd i j (coin_key c)).
    + now rewrite list_lookup_fmap, Hi.
    + rewrite list_lookup_fmap, Hj. cbn. unfold coin_key. now rewrite H1, H2.
Qed.

Lemma same_key_coin_key r c : BaseETL.same_key r c <-> coin_key c = record_key r.
Proof.
  unfold BaseETL.same_key, coin_key, record_key. split.
  - now intros [-> ->].
  - now intros [= -> ->].
Qed.

(** One proposed row: the keys of the table are kept, and the key of the
    row is added at the end if it was not there. *)
Lemma upsert_row_keys now t r :
  coin_key <$> BaseETL.upsert_row now t r
  = if decide (record_key r ∈ coin_key <$> t)
    then coin_key <$> t else (coin_key <$> t) ++ [record_key r].
Proof.
  unfold BaseETL.upsert_row.
  destruct (list_find (BaseETL.same_key r) t) as [[i c]|] eqn:E.
  - apply list_find_Some in E. destruct E as (Hi & Hk & _).
    rewrite decide_True.
    + rewrite list_fmap_insert. apply list_insert_id.
      rewrite list_lookup_fmap, Hi. reflexivity.
    + apply list_elem_of_fmap. exists c. split.
      * symmetry. now apply same_key_coin_key.
      * apply list_elem_of_lookup. eauto.
  - rewrite list_find_None, Forall_forall in E.
    rewrite decide_False.
    + rewrite fmap_app. reflexivity.
    + intros Hin. apply list_elem_of_fmap in Hin. destruct Hin as (c & Hc & Hin).
      apply (E c Hin). now apply same_key_coin_key.
Qed.

Lemma upsert_row_keeps_unique now t r :
  uq_coin_source t -> uq_coin_source (BaseETL.upsert_row now t r).
Proof.
  rewrite !uq_coin_source_keys, upsert_row_keys.
  destruct (decide _) as [Hin|Hout]; [tauto | ].
  intros Hnd. apply NoDup_app. split; [exact Hnd | ]. split.
  - intros x Hx Hx'. apply list_elem_of_singleton in Hx'. congruence.
  - apply NoDup_singleton.
Qed.

Lemma foldl_upsert_keeps_unique now rs : forall t,
  uq_coin_source t -> uq_coin_source (foldl (BaseETL.upsert_row now) t rs).
Proof.
  induction rs as [|r rs IH]; intros t Huq; cbn; [exact Huq | ].
  apply IH. now apply upsert_row_keeps_unique.
Qed.

(** What [load_normalized] leaves when it returns. *)
Lemma load_normalized_returns env ph session data st session' st' :
  BaseETL.load_normalized env ph session data st = Some (Ok session', st') ->
  coins session'
  = foldl (BaseETL.upsert_row (utcnow env ph OpLoadNormalized)) (coins session) data
  /\ (raw_coinpaprika session' = raw_coinpaprika session
      /\ raw_coingecko session' = raw_coingecko session
      /\ raw_csv session' = raw_csv session
      /\ etl_checkpoints session' = etl_checkpoints session
      /\ etl_runs session' = etl_runs session)
  /\ db st' = db st
  /\ log st' = log st
  /\ records_processed st' = records_processed st + Z.of_nat (length data).
Proof.
  unfold BaseETL.load_normalized. destruct data as [|r data].
  - intros [= <- <-]. cbn. repeat split. lia.
  - unfold mbind, store_call. destruct (fault env ph OpLoadNormalized); [discriminate | ].
    cbn. intros [= <- <-]. repeat split.
Qed.

(** X5.  [load_normalized] keeps the constraint [uq_coin_source]: if no two
    rows of [coins] have the same [(coin_id, source)] before the upsert,
    none have after it. *)
Theorem load_normalized_keeps_unique
        (env : Env) (ph : Phase) (session : DB) (data : list CoinCreate.t)
        (st : state) (session' : DB) (st' : state) :
  uq_coin_source (coins session) ->
  BaseETL.load_normalized env ph session data st = Some (Ok session', st') ->
  uq_coin_source (coins session').
Proof.
  intros Huq Hrun. apply load_normalized_returns in Hrun. destruct Hrun as [-> _].
  now apply foldl_upsert_keeps_unique.
Qed.

Lemma sample_db_unique : uq_coin_source (coins sample_db).
Proof. intros [|i] [|j] c c'; cbn; try discriminate; reflexivity. Qed.

Lemma load_normalized_keeps_unique_witness :
  exists session' st',
    BaseETL.load_normalized calm (Attempt 0) sample_db
      [bitcoin_record; ethereum_record] (idle sample_db) = Some (Ok session', st')
    /\ uq_coin_source (coins session').
Proof.
  pose proof (load_normalized_ok calm (Attempt 0) sample_db
                [bitcoin_record; ethereum_record] (idle sample_db)
                ltac:(discriminate) eq_refl) as Hrun.
  eexists _, _. split; [exact Hrun | ].
  exact (load_normalized_keeps_unique calm (Attempt 0) sample_db
           [bitcoin_record; ethereum_record] (idle sample_db) _ _
           sample_db_unique Hrun).
Defined.

(** One proposed row leaves every row at its place; a row of another key
    is not touched, a row of its key keeps [id] and [created_at]. *)
Lemma upsert_row_keeps_rows now t r i c :
  t !! i = Some c ->
  exists c', BaseETL.upsert_row now t r !! i = Some c'
             /\ coin_key c' = coin_key c
             /\ Coin.id c' = Coin.id c
             /\ Coin.created_at c' = Coin.created_at c
             /\ (~ BaseETL.same_key r c -> c' = c).
Proof.
  intros Hi. unfold BaseETL.upsert_row.
  destruct (list_find (BaseETL.same_key r) t) as [[j d]|] eqn:E.
  - apply list_find_Some in E. destruct E as (Hj & Hk & _).
    destruct (decide (i = j)) as [->|Hne].
    + rewrite Hj in Hi. injection Hi as ->.
      exists (BaseETL.on_conflict_do_update now c r).
      split; [apply list_lookup_insert_eq; eapply lookup_lt_Some; eauto | ].
      repeat split. intros Hno. contradiction.
    + exists c. rewrite list_lookup_insert_ne by congruence. auto.
  - exists c. rewrite lookup_app_l by (eapply lookup_lt_Some; eauto). auto.
Qed.

Lemma foldl_upsert_keeps_rows now rs : forall t i c,
  t !! i = Some c ->
  exists c', foldl (BaseETL.upsert_row now) t rs !! i = Some c'
             /\ coin_key c' = coin_key c
             /\ Coin.id c' = Coin.id c
             /\ Coin.created_at c' = Coin.created_at c
             /\ (Forall (fun r => ~ BaseETL.same_key r c) rs -> c' = c).
Proof.
  induction rs as [|r rs IH]; intros t i c Hi; cbn.
  - exists c. auto.
  - destruct (upsert_row_keeps_rows now t r i c Hi) as (c1 & H1 & K1 & I1 & C1 & U1).
    destruct (IH _ i c1 H1) as (c2 & H2 & K2 & I2 & C2 & U2).
    exists c2. split; [exact H2 | ]. repeat split; try congruence.
    intros Hall. apply Forall_cons in Hall. destruct Hall as [Hr Hrs].
    rewrite <- (U1 Hr). apply U2. now rewrite (U1 Hr).
Qed.

Lemma upsert_row_length now t r :
  (length t <= length (BaseETL.upsert_row now t r))%nat.
Proof.
  unfold BaseETL.upsert_row. destruct (list_find _ t) as [[j d]|].
  - now rewrite length_insert.
  - rewrite length_app. lia.
Qed.

Lemma foldl_upsert_length now rs : forall t,
  (length t <= length (foldl (BaseETL.upsert_row now) t rs))%nat.
Proof.
  induction rs as [|r rs IH]; intros t; cbn; [lia | ].
  etransitivity; [apply (upsert_row_length now t r) | apply IH].
Qed.

(** X6.  [load_normalized] removes no row of [coins] and moves none, and it
    never changes the key, the [id] or [created_at] of a row; a row whose
    key is not in the batch is left as it is, in every column. *)
Theorem load_normalized_keeps_other_rows
        (env : Env) (ph : Phase) (session : DB) (data : list CoinCreate.t)
        (st : state) (session' : DB) (st' : state) :
  BaseETL.load_normalized env ph session data st = Some (Ok session', st') ->
  (length (coins session) <= length (coins session'))%nat
  /\ forall i c,
      coins session !! i = Some c ->
      exists c', coins session' !! i = Some c'
                 /\ Coin.coin_id c' = Coin.coin_id c
                 /\ Coin.source c' = Coin.source c
                 /\ Coin.id c' = Coin.id c
                 /\ Coin.created_at c' = Coin.created_at c
                 /\ (Forall (fun r => ~ BaseETL.same_key r c) data -> c' = c).
Proof.
  intros Hrun. apply load_normalized_returns in Hrun. destruct Hrun as [-> _].
  split; [apply foldl_upsert_length | ].
  intros i c Hi.
  destruct (foldl_upsert_keeps_rows (utcnow env ph OpLoadNormalized) data _ i c Hi)
    as (c' & H1 & K & I & C & U).
  exists c'. unfold coin_key in K. injection K as K1 K2.
  repeat split; assumption.
Qed.

Lemma load_normalized_keeps_other_rows_witness :
  exists session' st',
    BaseETL.load_normalized calm (Attempt 0) sample_db [ethereum_record]
      (idle sample_db) = Some (Ok session', st')
    /\ (length (coins sample_db) <= length (coins session'))%nat
    /\ coins session' !! 0%nat = Some old_bitcoin_row.
Proof.
  pose proof (load_normalized_ok calm (Attempt 0) sample_db [ethereum_record]
                (idle sample_db) ltac:(discriminate) eq_refl) as Hrun.
  eexists _, _. split; [exact Hrun | ].
  destruct (load_normalized_keeps_other_rows calm (Attempt 0) sample_db
              [ethereum_record] (idle sample_db) _ _ Hrun) as [Hlen Hrows].
  split; [exact Hlen | ].
  destruct (Hrows 0%nat old_bitcoin_row eq_refl) as (c' & Hc' & _ & _ & _ & _ & Hsame).
  rewrite Hc'. f_equal. apply Hsame.
  repeat constructor. intros [H _]. discriminate.
Defined.

(** A batch of new keys, no two alike. *)
Lemma foldl_upsert_fresh now rs : forall t,
  NoDup (record_key <$> rs) ->
  (forall r, r ∈ rs -> record_key r ∉ coin_key <$> t) ->
  foldl (BaseETL.upsert_row now) t rs
  = t ++ imap (fun k r => BaseETL.insert_values now (next_id t + Z.of_nat k) r) rs.
Proof.
  induction rs as [|r rs IH]; intros t Hnd Hnew; cbn [foldl imap].
  - now rewrite app_nil_r.
  - cbn in Hnd. apply NoDup_cons in Hnd. destruct Hnd as [Hr Hnd].
    assert (Hmiss : list_find (BaseETL.same_key r) t = None).
    { apply list_find_None, Forall_forall. intros c Hc Hk.
      apply (Hnew r); [apply elem_of_cons; now left | ].
      apply list_elem_of_fmap. exists c. split; [ | exact Hc].
      symmetry. now apply same_key_coin_key. }
    unfold BaseETL.upsert_row at 2. rewrite Hmiss. rewrite IH.
    + rewrite <- app_assoc. cbn [app]. rewrite Z.add_0_r. do 2 f_equal.
      apply imap_ext. intros k x _. cbn. f_equal.
      unfold next_id. rewrite length_app. cbn. lia.
    + exact Hnd.
    + intros r' Hr'. rewrite fmap_app. intros Hin. apply elem_of_app in Hin.
      destruct Hin as [Hin|Hin].
      * apply (Hnew r'); [apply elem_of_cons; now right | exact Hin].
      * cbn in Hin. apply list_elem_of_singleton in Hin.
        apply Hr. apply list_elem_of_fmap. exists r'. split; [ | exact Hr'].
        rewrite Hin. reflexivity.
Qed.

(** X7.  A batch of records with new keys, no two alike, is inserted as it
    is: [coins] grows by one row per record, each with the key and the
    values of its record, and [records_processed] grows by the size of the
    batch. *)
Theorem load_normalized_appends_new_keys
        (env : Env) (ph : Phase) (session : DB) (data : list CoinCreate.t) (st : state) :
  (data <> [] -> fault env ph OpLoadNormalized = None) ->
  NoDup (record_key <$> data) ->
  (forall r c, r ∈ data -> c ∈ coins session -> ~ BaseETL.same_key r c) ->
  exists session' st' rows,
    BaseETL.load_normalized env ph session data st = Some (Ok session', st')
    /\ coins session' = coins session ++ rows
    /\ length rows = length data
    /\ (forall k r, data !! k = Some r ->
          exists c, rows !! k = Some c /\ BaseETL.same_key r c /\ agrees r c)
    /\ records_processed st' = records_processed st + Z.of_nat (length data).
Proof.
  intros Hfault Hnd Hnew.
  assert (Hrun : exists session' st',
             BaseETL.load_normalized env ph session data st = Some (Ok session', st')).
  { destruct data as [|r data]; [cbn; eauto | ].
    rewrite load_normalized_ok by (try apply Hfault; discriminate). eauto. }
  destruct Hrun as (session' & st' & Hrun).
  pose proof (load_normalized_returns _ _ _ _ _ _ _ Hrun) as (Hcoins & _ & _ & _ & Hcount).
  rewrite foldl_upsert_fresh in Hcoins.
  - eexists session', st', _. split; [exact Hrun | ]. split; [exact Hcoins | ].
    split; [apply length_imap | ]. split; [ | exact Hcount].
    intros k r Hk. eexists. split.
    + rewrite list_lookup_imap, Hk. reflexivity.
    + split; [apply same_key_insert_values | apply agrees_insert_values].
  - exact Hnd.
  - intros r Hr Hin. apply list_elem_of_fmap in Hin. destruct Hin as (c & Hc & Hin).
    apply (Hnew r c Hr Hin). now apply same_key_coin_key.
Qed.

Lemma load_normalized_appends_new_keys_witness :
  exists session' st' rows,
    BaseETL.load_normalized calm (Attempt 0) sample_db [ethereum_record]
      (idle sample_db) = Some (Ok session', st')
    /\ coins session' = coins sample_db ++ rows
    /\ length rows = 1%nat
    /\ records_processed st' = 1.
Proof.
  destruct (load_normalized_appends_new_keys calm (Attempt 0) sample_db
              [ethereum_record] (idle sample_db))
    as (session' & st' & rows & Hrun & Hcoins & Hlen & _ & Hcount).
  - reflexivity.
  - repeat constructor. intros H. now apply elem_of_nil in H.
  - intros r c Hr Hc [H _]. apply list_elem_of_singleton in Hr, Hc. subst.
    discriminate.
  - exists session', st', rows. auto.
Defined.

End UpsertProps.

Section CheckpointProps.

(** What [update_checkpoint] does to the table when the store accepts it. *)
Lemma update_checkpoint_table self env ph session status err st session' st' :
  BaseETL.update_checkpoint self env ph session status err st = Some (Ok session', st') ->
  st' = st
  /\ fault env ph OpCheckpoint = None
  /\ ((exists i c,
         checkpoint_of (BaseETL.source_name self) session = Some (i, c)
         /\ etl_checkpoints session'
            = <[i := BaseETL.touch_checkpoint (utcnow env ph OpCheckpoint)
                       (records_processed st) status err c]> (etl_checkpoints session))
      \/ (checkpoint_of (BaseETL.source_name self) session = None
          /\ etl_checkpoints session'
             = etl_checkpoints session
               ++ [BaseETL.new_checkpoint (utcnow env ph OpCheckpoint)
                     (next_id (etl_checkpoints session)) (BaseETL.source_name self)
                     (records_processed st) status err])).
Proof.
  unfold BaseETL.update_checkpoint, mbind, store_call, checkpoint_of.
  destruct (fault env ph OpCheckpoint); [discriminate | ]. cbn.
  destruct (list_find _ (etl_checkpoints session)) as [[i c]|] eqn:E;
    intros [= <- <-]; (split; [reflexivity | ]); (split; [reflexivity | ]).
  - left. exists i, c. split; reflexivity.
  - right. split; reflexivity.
Qed.

Lemma update_checkpoint_unique self env ph session status err st session' st' :
  BaseETL.update_checkpoint self env ph session status err st = Some (Ok session', st') ->
  uq_checkpoint_source (etl_checkpoints session) ->
  uq_checkpoint_source (etl_checkpoints session').
Proof.
  intros Hrun Huq. apply update_checkpoint_table in Hrun.
  destruct Hrun as (_ & _ & [(i & c & Hfind & ->)|(Hfind & ->)]);
    unfold uq_checkpoint_source, checkpoint_of in *.
  - apply list_find_Some in Hfind. destruct Hfind as (Hi & _ & _).
    rewrite list_fmap_insert, list_insert_id; [exact Huq | ].
    now rewrite list_lookup_fmap, Hi.
  - rewrite fmap_app. apply NoDup_app. split; [exact Huq | ]. split.
    + intros x Hx Hx'. cbn in Hx'. apply list_elem_of_singleton in Hx'. subst x.
      apply list_elem_of_fmap in Hx. destruct Hx as (c & Hc & Hin).
      rewrite list_find_None, Forall_forall in Hfind. apply (Hfind c Hin).
      now symmetry.
    + apply NoDup_singleton.
Qed.

(** The row of the source after [update_checkpoint], in both branches. *)
Lemma update_checkpoint_row self env ph session status err st :
  fault env ph OpCheckpoint = None ->
  exists session' i c,
    BaseETL.update_checkpoint self env ph session status err st
    = Some (Ok session', st)
    /\ checkpoint_of (BaseETL.source_name self) session' = Some (i, c)
    /\ ETLCheckpoint.source c = BaseETL.source_name self
    /\ ETLCheckpoint.status c = status
    /\ ETLCheckpoint.last_run_at c = Some (utcnow env ph OpCheckpoint)
    /\ ETLCheckpoint.records_processed c = records_processed st
    /\ (status = "success" ->
        ETLCheckpoint.last_success_at c = Some (utcnow env ph OpCheckpoint))
    /\ (status = "failure" ->
        ETLCheckpoint.last_failure_at c = Some (utcnow env ph OpCheckpoint)
        /\ ETLCheckpoint.error_message c = err)
    /\ (status = "success" -> err = None -> ETLCheckpoint.error_message c = None)
    /\ (forall other, other <> BaseETL.source_name self ->
                      checkpoint_of other session' = checkpoint_of other session)
    /\ (raw_coinpaprika session' = raw_coinpaprika session
        /\ raw_coingecko session' = raw_coingecko session
        /\ raw_csv session' = raw_csv session
        /\ coins session' = coins session
        /\ etl_runs session' = etl_runs session).
Proof.
  intros Hfault. unfold BaseETL.update_checkpoint, mbind, checkpoint_of.
  rewrite (store_call_ok _ _ _ _ Hfault). cbn.
  destruct (list_find _ (etl_checkpoints session)) as [[i c]|] eqn:E.
  - eexists _, i, _. split; [reflexivity | ]. cbn.
    pose proof E as E'. apply list_find_Some in E'. destruct E' as (Hi & Hsrc & _).
    split; [apply (find_replaced _ _ _ _ _ E); exact Hsrc | ].
    split; [exact Hsrc | ].
    split; [reflexivity | ].
    split; [reflexivity | ].
    split; [reflexivity | ].
    split; [now intros -> | ].
    split; [now intros -> | ].
    split; [now intros -> _ | ].
    split; [ | repeat split].
    intros other Hother. apply (find_other_replaced _ _ i c); [exact Hi | | ]; cbn;
      congruence.
  - eexists _, (length (etl_checkpoints session)), _. split; [reflexivity | ]. cbn.
    split; [apply (find_appended _ _ _ E); reflexivity | ].
    split; [reflexivity | ].
    split; [reflexivity | ].
    split; [reflexivity | ].
    split; [reflexivity | ].
    split; [now intros -> | ].
    split; [now intros -> | ].
    split; [now intros _ -> | ].
    split; [ | repeat split].
    intros other Hother. apply find_other_appended. cbn. congruence.
Qed.

(** X8.  The first [update_checkpoint] of a source adds one checkpoint row
    and touches nothing else.  The row has the name of the source, the
    status given, the time of the call as [last_run_at], the count of the
    pipeline object and the error message given, whatever the status;
    [last_success_at] and [last_failure_at] are set only for the status
    ['success'] and ['failure']. *)
Theorem update_checkpoint_first_run
        (self : BaseETL.pipeline) (env : Env) (ph : Phase) (session : DB)
        (status : string) (error_message : option string) (st : state) :
  fault env ph OpCheckpoint = None ->
  (forall c, c ∈ etl_checkpoints session ->
             ETLCheckpoint.source c <> BaseETL.source_name self) ->
  let now := utcnow env ph OpCheckpoint in
  exists session' c,
    BaseETL.update_checkpoint self env ph session status error_message st
    = Some (Ok session', st)
    /\ etl_checkpoints session' = etl_checkpoints session ++ [c]
    /\ (raw_coinpaprika session' = raw_coinpaprika session
        /\ raw_coingecko session' = raw_coingecko session
        /\ raw_csv session' = raw_csv session
        /\ coins session' = coins session
        /\ etl_runs session' = etl_runs session)
    /\ ETLCheckpoint.source c = BaseETL.source_name self
    /\ ETLCheckpoint.last_run_at c = Some now
    /\ ETLCheckpoint.status c = status
    /\ ETLCheckpoint.records_processed c = records_processed st
    /\ ETLCheckpoint.last_success_at c
       = (if decide (status = "success") then Some now else None)
    /\ ETLCheckpoint.last_failure_at c
       = (if decide (status = "failure") then Some now else None)
    /\ ETLCheckpoint.error_message c = error_message
    /\ ETLCheckpoint.run_metadata c = None.
Proof.
  intros Hfault Hnew now.
  assert (Hfind : list_find (fun c => ETLCheckpoint.source c = BaseETL.source_name self)
                            (etl_checkpoints session) = None).
  { apply list_find_None, Forall_forall. exact Hnew. }
  unfold BaseETL.update_checkpoint, mbind. rewrite (store_call_ok _ _ _ _ Hfault).
  cbn. rewrite Hfind.
  exists (set_etl_checkpoints session
            (etl_checkpoints session
             ++ [BaseETL.new_checkpoint now (next_id (etl_checkpoints session))
                   (BaseETL.source_name self) (records_processed st) status
                   error_message])),
    (BaseETL.new_checkpoint now (next_id (etl_checkpoints session))
       (BaseETL.source_name self) (records_processed st) status error_message).
  split; [reflexivity | ]. split; [reflexivity | ]. split; [repeat split | ].
  unfold BaseETL.new_checkpoint.
  cbn [ETLCheckpoint.source ETLCheckpoint.last_run_at ETLCheckpoint.status
       ETLCheckpoint.records_processed ETLCheckpoint.last_success_at
       ETLCheckpoint.last_failure_at ETLCheckpoint.error_message
       ETLCheckpoint.run_metadata].
  split; [reflexivity | ]. split; [reflexivity | ]. split; [reflexivity | ].
  split; [reflexivity | ].
  split; [destruct (String.eqb_spec status "success"), (decide (status = "success"));
          congruence | ].
  split; [destruct (String.eqb_spec status "failure"), (decide (status = "failure"));
          congruence | ].
  split; reflexivity.
Qed.

Lemma update_checkpoint_first_run_witness :
  exists session' c,
    BaseETL.update_checkpoint no_file_etl calm (Attempt 0) sample_db "success"
      (Some "stale") (idle sample_db) = Some (Ok session', idle sample_db)
    /\ etl_checkpoints session' = [coingecko_checkpoint; c]
    /\ ETLCheckpoint.source c = "csv"
    /\ ETLCheckpoint.last_success_at c = Some 100
    /\ ETLCheckpoint.last_failure_at c = None
    /\ ETLCheckpoint.error_message c = Some "stale".
Proof.
  destruct (update_checkpoint_first_run no_file_etl calm (Attempt 0) sample_db
              "success" (Some "stale") (idle sample_db))
    as (session' & c & Hrun & Htable & _ & Hsrc & _ & _ & _ & Hok & Hbad & Herr & _).
  - reflexivity.
  - intros c Hc. apply list_elem_of_singleton in Hc. subst. discriminate.
  - exists session', c. repeat split; assumption.
Defined.

(** X9.  [update_checkpoint] keeps one checkpoint per source: if no two rows
    of [etl_checkpoints] have the same source before the call, none have
    after it.  The sources listed are those listed before, in their order,
    with the source of the pipeline added at the end if it had no row. *)
Theorem update_checkpoint_keeps_unique_source
        (self : BaseETL.pipeline) (env : Env) (ph : Phase) (session : DB)
        (status : string) (error_message : option string) (st : state)
        (session' : DB) (st' : state) :
  uq_checkpoint_source (etl_checkpoints session) ->
  BaseETL.update_checkpoint self env ph session status error_message st
  = Some (Ok session', st') ->
  uq_checkpoint_source (etl_checkpoints session')
  /\ ETLCheckpoint.source <$> etl_checkpoints session'
     = (ETLCheckpoint.source <$> etl_checkpoints session)
       ++ (if decide (BaseETL.source_name self
                      ∈ ETLCheckpoint.source <$> etl_checkpoints session)
           then [] else [BaseETL.source_name self]).
Proof.
  intros Huq Hrun. split; [eapply update_checkpoint_unique; eauto | ].
  apply update_checkpoint_table in Hrun.
  destruct Hrun as (_ & _ & [(i & c & Hfind & ->)|(Hfind & ->)]);
    unfold checkpoint_of in Hfind.
  - apply list_find_Some in Hfind. destruct Hfind as (Hi & Hsrc & _).
    rewrite decide_True.
    + rewrite app_nil_r, list_fmap_insert. apply list_insert_id.
      now rewrite list_lookup_fmap, Hi.
    + apply list_elem_of_fmap. exists c. split; [now symmetry | ].
      apply list_elem_of_lookup. eauto.
  - rewrite list_find_None, Forall_forall in Hfind.
    rewrite decide_False.
    + now rewrite fmap_app.
    + intros Hin. apply list_elem_of_fmap in Hin. destruct Hin as (c & Hc & Hin).
      apply (Hfind c Hin). now symmetry.
Qed.

Lemma sample_checkpoints_unique : uq_checkpoint_source (etl_checkpoints sample_db).
Proof. apply NoDup_singleton. Qed.

Lemma update_checkpoint_keeps_unique_source_witness :
  exists session',
    BaseETL.update_checkpoint no_file_etl calm (Attempt 0) sample_db "success" None
      (idle sample_db) = Some (Ok session', idle sample_db)
    /\ uq_checkpoint_source (etl_checkpoints session')
    /\ ETLCheckpoint.source <$> etl_checkpoints session' = ["coingecko"; "csv"].
Proof.
  destruct (update_checkpoint_row no_file_etl calm (Attempt 0) sample_db "success"
              None (idle sample_db) eq_refl) as (session' & i & c & Hrun & _).
  exists session'. split; [exact Hrun | ].
  exact (update_checkpoint_keeps_unique_source no_file_etl calm (Attempt 0) sample_db
           "success" None (idle sample_db) session' _ sample_checkpoints_unique Hrun).
Defined.

End CheckpointProps.

Section RunMoreProps.

(** The row added by [create_run_record]. *)
Lemma create_run_record_row self env ph session status err st :
  fault env ph OpRunRecord = None ->
  exists rec,
    BaseETL.create_run_record self env ph session status err st
    = Some (Ok (set_etl_runs session (etl_runs session ++ [rec])), st)
    /\ ETLRun.run_id rec = BaseETL.run_id self
    /\ ETLRun.source rec = BaseETL.source_name self
    /\ ETLRun.status rec = status
    /\ ETLRun.records_processed rec = records_processed st
    /\ ETLRun.duration_seconds rec = utcnow env ph OpRunRecord - BaseETL.started_at self
    /\ ETLRun.started_at rec = BaseETL.started_at self
    /\ ETLRun.completed_at rec = Some (utcnow env ph OpRunRecord)
    /\ ETLRun.error_message rec = err.
Proof.
  intros Hfault. unfold BaseETL.create_run_record, mbind.
  rewrite (store_call_ok _ _ _ _ Hfault). cbn.
  eexists. split; [reflexivity | ]. repeat split.
Qed.

(** [load_normalized] when [db.execute] is not refused (it is not called
    for an empty batch). *)
Lemma load_normalized_through env ph session data st :
  (data <> [] -> fault env ph OpLoadNormalized = None) ->
  exists session',
    BaseETL.load_normalized env ph session data st
    = Some (Ok session',
            {| db := db st;
               records_processed := records_processed st + Z.of_nat (length data);
               log := log st |})
    /\ coins session'
       = foldl (BaseETL.upsert_row (utcnow env ph OpLoadNormalized)) (coins session) data
    /\ raw_coinpaprika session' = raw_coinpaprika session
    /\ raw_coingecko session' = raw_coingecko session
    /\ raw_csv session' = raw_csv session
    /\ etl_checkpoints session' = etl_checkpoints session
    /\ etl_runs session' = etl_runs session.
Proof.
  intros Hfault. destruct data as [|r data].
  - exists session. cbn. rewrite Z.add_0_r. destruct st. repeat split.
  - rewrite load_normalized_ok by (try apply Hfault; discriminate).
    eexists. split; [reflexivity | ]. repeat split.
Qed.

(** The steps of an attempt up to the loads. *)
Lemma pipeline_body_extracted self env k session st raw_data session1 data :
  BaseETL.extract self k = Ok raw_data ->
  BaseETL.load_raw self (utcnow env (Attempt k) OpLoadRaw) session raw_data
  = Ok session1 ->
  BaseETL.transform self (utcnow env (Attempt k) OpTransform) raw_data = Ok data ->
  BaseETL.pipeline_body self env k session st
  = (let! session2 := BaseETL.load_normalized env (Attempt k) session1 data in
     let! session3 :=
       BaseETL.update_checkpoint self env (Attempt k) session2 "success" None in
     let! session4 :=
       BaseETL.create_run_record self env (Attempt k) session3 "success" None in
     let! processed := get_records_processed in
     do! tell (Completed (BaseETL.source_name self) (BaseETL.run_id self) processed) in
     mret (session4, true))
      (logged st [Extracting (BaseETL.source_name self);
                  Extracted (BaseETL.source_name self) (length raw_data);
                  LoadingRaw (BaseETL.source_name self);
                  Transforming (BaseETL.source_name self);
                  Transformed (BaseETL.source_name self) (length data);
                  LoadingNormalized (BaseETL.source_name self)]).
Proof.
  intros Hextract Hload Htransform.
  unfold BaseETL.pipeline_body. cbv zeta.
  rewrite mbind_tell, Hextract. cbn [lift].
  rewrite (mbind_ok (mret raw_data) _ _ _ _ eq_refl).
  rewrite !mbind_tell. rewrite Hload. cbn [lift].
  rewrite (mbind_ok (mret session1) _ _ _ _ eq_refl).
  rewrite mbind_tell, Htransform. cbn [lift].
  rewrite (mbind_ok (mret data) _ _ _ _ eq_refl).
  rewrite !mbind_tell, !logged_logged. reflexivity.
Qed.

(** An attempt that meets no failure: what it returns, commits and logs. *)
Lemma try_body_commits self env k st raw_data session1 data :
  attempt_goes_through self env k (db st) raw_data session1 data ->
  let processed := records_processed st + Z.of_nat (length data) in
  exists final,
    BaseETL.try_body self env k st
    = Some (Ok true,
            {| db := final; records_processed := processed;
               log := log st ++ success_events self k raw_data data processed |})
    /\ committed_by self env k session1 data processed final.
Proof.
  intros (Hextract & Hload & Htransform & Fs & Fl & Fc & Fr & Fm) processed.
  unfold BaseETL.try_body. rewrite mbind_tell. unfold get_db_context. rewrite Fs.
  cbn [db logged].
  rewrite (pipeline_body_extracted _ _ _ _ _ _ _ _ Hextract Hload Htransform).
  rewrite logged_logged.
  match goal with |- context [logged st ?l] => set (st0 := logged st l) end.
  destruct (load_normalized_through env (Attempt k) session1 data st0 Fl)
    as (s2 & E2 & C2 & R21 & R22 & R23 & K2 & U2).
  rewrite (mbind_ok _ _ _ _ _ E2).
  match goal with |- context [mbind _ _ ?s] => set (st2 := s) end.
  destruct (update_checkpoint_row self env (Attempt k) s2 "success" None st2 Fc)
    as (s3 & i & c & E3 & Hfind & _ & Hstatus & Hrun & Hcount & Hsucc & _ & Herr
        & Hother & (R31 & R32 & R33 & C3 & U3)).
  rewrite (mbind_ok _ _ _ _ _ E3).
  destruct (create_run_record_row self env (Attempt k) s3 "success" None st2 Fr)
    as (rec & E4 & Q1 & Q2 & Q3 & Q4 & Q5 & Q6 & Q7 & Q8).
  rewrite (mbind_ok _ _ _ _ _ E4). cbn. rewrite Fm.
  eexists. split.
  { unfold set_db, success_events. cbn. rewrite <- !app_assoc. reflexivity. }
  unfold committed_by. cbn.
  split; [congruence | ].
  split; [repeat split; congruence | ].
  split.
  { exists i, c. split; [exact Hfind | ]. split; [exact Hstatus | ].
    split; [now apply Herr | ]. split; [exact Hrun | ].
    split; [now apply Hsucc | exact Hcount]. }
  split.
  { intros other Hne. transitivity (checkpoint_of other s3); [reflexivity | ].
    rewrite (Hother other Hne). now apply checkpoint_of_same. }
  split.
  { intros Huq. apply (update_checkpoint_unique _ _ _ _ _ _ _ _ _ E3).
    now rewrite K2. }
  exists rec. rewrite U3, U2. repeat split; assumption.
Qed.


(** An attempt returns only [True], and only when every step went through;
    otherwise it raises and nothing is committed.  The count
    [self.records_processed] and the log only grow. *)
Lemma try_body_cases self env k st :
  exists r st' events,
    BaseETL.try_body self env k st = Some (r, st')
    /\ log st' = log st ++ events
    /\ attempts_logged events = 1%nat
    /\ records_processed st <= records_processed st'
    /\ ((exists raw_data session1 data,
           r = Ok true
           /\ attempt_goes_through self env k (db st) raw_data session1 data
           /\ records_processed st' = records_processed st + Z.of_nat (length data)
           /\ committed_by self env k session1 data (records_processed st') (db st'))
        \/ (exists e, r = Raise e /\ db st' = db st)).
Proof.
  destruct (fault env (Attempt k) OpSession) as [e|] eqn:Fs.
  { unfold BaseETL.try_body. rewrite mbind_tell. unfold get_db_context. rewrite Fs.
    eexists _, _, [_]. split; [reflexivity | ]. cbn.
    split; [reflexivity | ]. split; [reflexivity | ]. split; [lia | ]. right. eauto. }
  destruct (BaseETL.extract self k) as [raw_data|e] eqn:Hextract.
  2:{ unfold BaseETL.try_body. rewrite mbind_tell. unfold get_db_context. rewrite Fs.
      unfold BaseETL.pipeline_body. cbv zeta. rewrite mbind_tell, Hextract. cbn.
      eexists _, _, [_; _]. split; [reflexivity | ]. cbn.
      split; [now rewrite <- app_assoc | ]. split; [reflexivity | ]. split; [lia | ].
      right. eauto. }
  destruct (BaseETL.load_raw self (utcnow env (Attempt k) OpLoadRaw) (db st) raw_data)
    as [session1|e] eqn:Hload.
  2:{ unfold BaseETL.try_body. rewrite mbind_tell. unfold get_db_context. rewrite Fs.
      unfold BaseETL.pipeline_body. cbv zeta. rewrite mbind_tell, Hextract. cbn [lift].
      rewrite (mbind_ok (mret raw_data) _ _ _ _ eq_refl). rewrite !mbind_tell.
      cbn [db logged]. rewrite Hload. cbn.
      eexists _, _, [_; _; _; _]. split; [reflexivity | ]. cbn.
      split; [now rewrite <- !app_assoc | ]. split; [reflexivity | ]. split; [lia | ].
      right. eauto. }
  destruct (BaseETL.transform self (utcnow env (Attempt k) OpTransform) raw_data)
    as [data|e] eqn:Htransform.
  2:{ unfold BaseETL.try_body. rewrite mbind_tell. unfold get_db_context. rewrite Fs.
      unfold BaseETL.pipeline_body. cbv zeta. rewrite mbind_tell, Hextract. cbn [lift].
      rewrite (mbind_ok (mret raw_data) _ _ _ _ eq_refl). rewrite !mbind_tell.
      cbn [db logged]. rewrite Hload. cbn [lift].
      rewrite (mbind_ok (mret session1) _ _ _ _ eq_refl). rewrite mbind_tell.
      rewrite Htransform. cbn.
      eexists _, _, [_; _; _; _; _]. split; [reflexivity | ]. cbn.
      split; [now rewrite <- !app_assoc | ]. split; [reflexivity | ]. split; [lia | ].
      right. eauto. }
  (* the loads and the bookkeeping *)
  assert (Hopen : forall st',
             (exists r st2,
                 (let! session2 := BaseETL.load_normalized env (Attempt k) session1 data in
                  let! session3 :=
                    BaseETL.update_checkpoint self env (Attempt k) session2
                                              "success" None in
                  let! session4 :=
                    BaseETL.create_run_record self env (Attempt k) session3
                                              "success" None in
                  let! processed := get_records_processed in
                  do! tell (Completed (BaseETL.source_name self) (BaseETL.run_id self)
                                      processed) in
                  mret (session4, true))
                   (logged st
                      ([Starting (BaseETL.source_name self) (BaseETL.run_id self) (k + 1)]
                       ++ [Extracting (BaseETL.source_name self);
                           Extracted (BaseETL.source_name self) (length raw_data);
                           LoadingRaw (BaseETL.source_name self);
                           Transforming (BaseETL.source_name self);
                           Transformed (BaseETL.source_name self) (length data);
                           LoadingNormalized (BaseETL.source_name self)]))
                 = Some (Raise r, st2)
                 /\ st' = (Raise r : result bool, st2)) ->
             BaseETL.try_body self env k st = Some st').
  { intros st' (r & st2 & Hrest & ->).
    unfold BaseETL.try_body. rewrite mbind_tell. unfold get_db_context. rewrite Fs.
    cbn [db logged].
    rewrite (pipeline_body_extracted _ _ _ _ _ _ _ _ Hextract Hload Htransform).
    rewrite logged_logged, Hrest. reflexivity. }
  set (st0 := logged st _) in Hopen.
  destruct (decide (data = [])) as [Hnil|Hdata];
    [ | destruct (fault env (Attempt k) OpLoadNormalized) as [e|] eqn:Fl ].
  2:{ (* [db.execute] is refused *)
      eexists _, _, _. split.
      { apply Hopen. eexists _, _. split; [ | reflexivity].
        unfold BaseETL.load_normalized. destruct data; [congruence | ].
        unfold mbind at 1 2. rewrite (store_call_raise _ _ _ _ _ Fl). reflexivity. }
      cbn. split; [reflexivity | ]. split; [reflexivity | ]. split; [lia | ].
      right. eauto. }
  all: assert (Fl' : data <> [] -> fault env (Attempt k) OpLoadNormalized = None)
         by (intros; congruence).
  all: destruct (load_normalized_through env (Attempt k) session1 data st0 Fl')
         as (s2 & E2 & _).
  all: destruct (fault env (Attempt k) OpCheckpoint) as [e|] eqn:Fc.
  1,3: (eexists _, _, _; split;
        [ apply Hopen; eexists _, _; split; [ | reflexivity];
          rewrite (mbind_ok _ _ _ _ _ E2);
          unfold mbind; rewrite (update_checkpoint_raise _ _ _ _ _ _ _ _ Fc);
          reflexivity
        | cbn; split; [reflexivity | ]; split; [reflexivity | ]; split; [lia | ];
          right; eauto ]).
  all: match type of E2 with _ = Some (_, ?s) => set (st2 := s) in * end.
  all: destruct (update_checkpoint_row self env (Attempt k) s2 "success" None st2 Fc)
         as (s3 & i & c & E3 & _).
  all: destruct (fault env (Attempt k) OpRunRecord) as [e|] eqn:Fr.
  1,3: (eexists _, _, _; split;
        [ apply Hopen; eexists _, _; split; [ | reflexivity];
          rewrite (mbind_ok _ _ _ _ _ E2), (mbind_ok _ _ _ _ _ E3);
          unfold mbind; rewrite (create_run_record_raise _ _ _ _ _ _ _ _ Fr);
          reflexivity
        | cbn; split; [reflexivity | ]; split; [reflexivity | ]; split; [lia | ];
          right; eauto ]).
  all: destruct (fault env (Attempt k) OpCommit) as [e|] eqn:Fm.
  1,3: (destruct (create_run_record_row self env (Attempt k) s3 "success" None st2 Fr)
          as (rec & E4 & _);
        eexists _, _, _; split;
        [ unfold BaseETL.try_body; rewrite mbind_tell; unfold get_db_context;
          rewrite Fs; cbn [db logged];
          rewrite (pipeline_body_extracted _ _ _ _ _ _ _ _ Hextract Hload Htransform);
          rewrite logged_logged; fold st0;
          rewrite (mbind_ok _ _ _ _ _ E2), (mbind_ok _ _ _ _ _ E3),
            (mbind_ok _ _ _ _ _ E4); cbn; rewrite Fm; reflexivity
        | cbn; split; [rewrite <- app_assoc; reflexivity | ];
          split; [reflexivity | ]; split; [lia | ]; right; eauto ]).
  all: assert (Hgo : attempt_goes_through self env k (db st) raw_data session1 data)
         by (repeat split; assumption).
  all: destruct (try_body_commits self env k st raw_data session1 data Hgo)
         as (final & Htry & Hfinal).
  all: eexists _, _, _; (split; [exact Htry | ]); cbn.
  all: split; [reflexivity | ]; split; [reflexivity | ]; split; [lia | ].
  all: left; exists raw_data, session1, data; auto.
Qed.


Lemma waits_logged_app l1 l2 :
  waits_logged (l1 ++ l2) = waits_logged l1 ++ waits_logged l2.
Proof. unfold waits_logged. apply omap_app. Qed.

Lemma waits_logged_failed_attempt self env k :
  waits_logged (failed_attempt_events self env k) = [].
Proof.
  unfold failed_attempt_events. now destruct (fault env (Attempt k) OpSession).
Qed.

Lemma waits_logged_failure self max_retries backoff attempt e :
  waits_logged (failure_events self max_retries backoff attempt e)
  = if (Z.of_nat (S attempt) <? max_retries)%Z
    then [(backoff ^ Z.of_nat (S attempt))%Q] else [].
Proof.
  unfold failure_events. now destruct (Z.of_nat (S attempt) <? max_retries)%Z.
Qed.

(** The loop passes over the attempts whose [extract] fails: each is
    announced, followed by its error and, unless it was the last attempt
    allowed, by a wait of [backoff_factor ** attempt] seconds. *)
Lemma run_loop_skips_failures self env max_retries backoff m :
  waits_accepted backoff (Z.min (Z.of_nat m) (max_retries - 1)) ->
  (forall k, (k < m)%nat -> exists e, BaseETL.extract self k = Raise e) ->
  (m <= Z.to_nat max_retries)%nat ->
  forall d attempt fuel last_error st,
    (attempt + d = m)%nat ->
    exists events,
      BaseETL.run_loop self env max_retries backoff (d + fuel) attempt last_error st
      = BaseETL.run_loop self env max_retries backoff fuel m
          (match d with
           | O => last_error
           | S _ => Some (attempt_error self env (m - 1))
           end)
          (logged st events)
      /\ attempts_logged events = d
      /\ waits_logged events
         = map (fun k => (backoff ^ Z.of_nat k)%Q)
               (seq (S attempt) (Nat.min d (Z.to_nat max_retries - S attempt))).
Proof.
  intros Hb Hfail Hm.
  induction d as [|d IH]; intros attempt fuel last_error st Hsum.
  - exists []. rewrite logged_nil. replace attempt with m by lia. repeat split.
  - destruct (Hfail attempt) as [e He]; [lia | ].
    assert (Hcond : (Z.of_nat attempt <? max_retries)%Z = true)
      by (apply Z.ltb_lt; lia).
    cbn [Nat.add].
    assert (Hwait : (Z.of_nat (S attempt) <? max_retries)%Z = true ->
                    sleepable (backoff ^ Z.of_nat (S attempt))).
    { intros Hc. apply Z.ltb_lt in Hc. apply Hb; lia. }
    rewrite (run_loop_retry _ _ _ _ _ _ _ _ _ _ Hwait Hcond
               (try_body_extract_fails self env attempt st e He)).
    destruct (IH (S attempt) fuel (Some (attempt_error self env attempt))
                 (logged (logged st (failed_attempt_events self env attempt))
                         (failure_events self max_retries backoff attempt
                                         (attempt_error self env attempt))))
      as (events & Hrun & Hcount & Hwaits); [lia | ].
    eexists. rewrite Hrun, !logged_logged. split; [ | split].
    + f_equal. destruct d as [|d]; [ | reflexivity].
      do 2 f_equal. lia.
    + rewrite !attempts_logged_app, attempts_logged_failed_attempt,
        attempts_logged_failure, Hcount. lia.
    + rewrite !waits_logged_app, waits_logged_failed_attempt, waits_logged_failure,
        Hwaits. cbn [app].
      destruct (Z.of_nat (S attempt) <? max_retries)%Z eqn:Hnext.
      * apply Z.ltb_lt in Hnext.
        replace (Z.to_nat max_retries - S attempt)%nat
          with (S (Z.to_nat max_retries - S (S attempt)))%nat by lia.
        reflexivity.
      * apply Z.ltb_ge in Hnext.
        replace (Z.to_nat max_retries - S attempt)%nat with 0%nat by lia.
        replace (Z.to_nat max_retries - S (S attempt))%nat with 0%nat by lia.
        rewrite !Nat.min_0_r. reflexivity.
Qed.

(** Under the hypothesis on the waits, [**] returns each of them. *)
Lemma float_pow_waits backoff m (ks : list nat) :
  waits_accepted backoff m ->
  Forall (fun k => (1 <= k)%nat /\ Z.of_nat k <= m) ks ->
  Ok <$> map (fun k => (backoff ^ Z.of_nat k)%Q) ks
  = (fun k => float_pow backoff (Z.of_nat k)) <$> ks.
Proof.
  intros Hb. induction 1 as [|k ks [H1 H2] _ IH]; [reflexivity | ].
  cbn [map fmap list_fmap]. cbn [map fmap list_fmap] in IH.
  rewrite (float_pow_ok _ _ (Hb k H1 H2)). f_equal. exact IH.
Qed.

Lemma seq_bounds (start len : nat) :
  Forall (fun k => (start <= k < start + len)%nat) (seq start len).
Proof.
  apply Forall_forall. intros k Hk. apply list_elem_of_In, in_seq in Hk. exact Hk.
Qed.

(** X10.  Exponential backoff.  When [extract] fails in every attempt and
    the waits [backoff_factor ** k], [k = 1 .. max_retries - 1], are
    lengths that [time.sleep] takes (from 0 to 9e9 seconds), [run] returns
    [False], and it sleeps between the attempts only: for
    [backoff_factor ** k] seconds after the k-th failed attempt,
    [k = 1 .. max_retries - 1], and not after the last one. *)
Theorem run_backoff_schedule
        (self : BaseETL.pipeline) (env : Env) (max_retries : Z)
        (backoff_factor : Q) (st : state) :
  waits_accepted backoff_factor (max_retries - 1) ->
  (forall k, exists e, BaseETL.extract self k = Raise e) ->
  exists st' events,
    BaseETL.run self env max_retries backoff_factor st = Some (Ok false, st')
    /\ log st' = log st ++ events
    /\ Ok <$> waits_logged events
       = (fun k => float_pow backoff_factor (Z.of_nat k))
           <$> seq 1 (Z.to_nat max_retries - 1).
Proof.
  intros Hb Hfail.
  assert (Hpow : Ok <$> map (fun k => (backoff_factor ^ Z.of_nat k)%Q)
                          (seq 1 (Z.to_nat max_retries - 1))
                 = (fun k => float_pow backoff_factor (Z.of_nat k))
                     <$> seq 1 (Z.to_nat max_retries - 1)).
  { apply (float_pow_waits _ _ _ Hb).
    eapply Forall_impl; [apply seq_bounds | ]. cbn beta. intros k Hk. lia. }
  rewrite <- Hpow. clear Hpow.
  destruct (run_loop_skips_failures self env max_retries backoff_factor
              (Z.to_nat max_retries)
              (waits_accepted_le _ _ _ (Z.le_min_r _ _) Hb)
              (fun k _ => Hfail k) ltac:(lia)
              (Z.to_nat max_retries) 0%nat 1%nat None st eq_refl)
    as (events & Hrun & _ & Hwaits).
  unfold BaseETL.run. replace (S (Z.to_nat max_retries))
    with (Z.to_nat max_retries + 1)%nat by lia.
  rewrite Hrun, run_loop_done by (apply Z.ltb_ge; lia).
  rewrite Nat.min_r in Hwaits by lia.
  destruct (finalize_fault env) as [e|] eqn:Hff.
  - rewrite (finalize_failed _ _ _ _ _ Hff).
    eexists _, (events ++ [CheckpointFailed e]). split; [reflexivity | ]. cbn.
    split; [now rewrite app_assoc | ].
    rewrite waits_logged_app, Hwaits. cbn [waits_logged omap]. now rewrite app_nil_r.
  - destruct (finalize_committed self env
                (match Z.to_nat max_retries with
                 | O => None
                 | S _ => Some (attempt_error self env (Z.to_nat max_retries - 1))
                 end) (logged st events) Hff)
      as (session' & i & c & rec & Hfin & _).
    rewrite Hfin. eexists _, events. split; [reflexivity | ]. cbn [log logged set_db].
    split; [reflexivity | ]. now rewrite Hwaits.
Qed.

Lemma run_backoff_schedule_witness :
  exists st' events,
    BaseETL.run failing_etl calm 3 2 (idle sample_db) = Some (Ok false, st')
    /\ log st' = events
    /\ Ok <$> waits_logged events = [float_pow 2 1; float_pow 2 2].
Proof.
  destruct (run_backoff_schedule failing_etl calm 3 2 (idle sample_db))
    as (st' & events & Hrun & Hlog & Hwaits).
  - exact default_backoff.
  - intros k. eexists. reflexivity.
  - exists st', events. auto.
Defined.

(** X11.  [run] stops at the first attempt that goes through.  If [extract]
    fails in the attempts before attempt [m] (counted from 0), the waits
    [backoff_factor ** 1], ..., [backoff_factor ** m] are lengths that
    [time.sleep] takes (from 0 to 9e9 seconds), attempt [m] meets no
    failure and [m < max_retries], then [run] returns [True] after [m + 1]
    attempts, having slept these waits; the tables hold what that attempt
    wrote on top of the tables before the run. *)
Theorem run_stops_at_first_success
        (self : BaseETL.pipeline) (env : Env) (max_retries : Z)
        (backoff_factor : Q) (st : state) (m : nat)
        (raw_data : list Dict) (session1 : DB) (data : list CoinCreate.t) :
  waits_accepted backoff_factor (Z.of_nat m) ->
  Z.of_nat m < max_retries ->
  (forall k, (k < m)%nat -> exists e, BaseETL.extract self k = Raise e) ->
  attempt_goes_through self env m (db st) raw_data session1 data ->
  let processed := records_processed st + Z.of_nat (length data) in
  exists st' events,
    BaseETL.run self env max_retries backoff_factor st = Some (Ok true, st')
    /\ log st' = log st ++ events
    /\ attempts_logged events = S m
    /\ Ok <$> waits_logged events
       = (fun k => float_pow backoff_factor (Z.of_nat k)) <$> seq 1 m
    /\ records_processed st' = processed
    /\ committed_by self env m session1 data processed (db st').
Proof.
  intros Hb Hm Hfail Hgo processed.
  destruct (run_loop_skips_failures self env max_retries backoff_factor m
              (waits_accepted_le _ _ _ (Z.le_min_l _ _) Hb) Hfail
              ltac:(lia) m 0%nat (S (Z.to_nat max_retries - m)) None st eq_refl)
    as (events & Hrun & Hcount & Hwaits).
  unfold BaseETL.run.
  replace (S (Z.to_nat max_retries)) with (m + S (Z.to_nat max_retries - m))%nat by lia.
  rewrite Hrun.
  destruct (try_body_commits self env m (logged st events) raw_data session1 data Hgo)
    as (final & Htry & Hfinal).
  rewrite (run_loop_success _ _ _ _ _ _ _ _ _ _ (proj2 (Z.ltb_lt _ _) Hm) Htry).
  eexists _, _. split; [reflexivity | ]. cbn.
  split; [now rewrite <- app_assoc | ].
  split.
  { rewrite attempts_logged_app, Hcount. cbn. lia. }
  split.
  { rewrite waits_logged_app, Hwaits. cbn [waits_logged omap]. rewrite app_nil_r.
    rewrite Nat.min_l by lia. apply (float_pow_waits _ _ _ Hb).
    eapply Forall_impl; [apply seq_bounds | ]. cbn beta. intros k Hk. lia. }
  split; [reflexivity | exact Hfinal].
Qed.

Lemma flaky_goes_through :
  attempt_goes_through flaky_etl calm 1 sample_db [bitcoin_item; nameless_item]
    (CoinGeckoETL.load_raw 101 sample_db [bitcoin_item; nameless_item])
    (CoinGeckoETL.transform strict_runtime 101 [bitcoin_item; nameless_item]).
Proof. repeat split. Qed.

Lemma run_stops_at_first_success_witness :
  exists st' events,
    BaseETL.run flaky_etl calm 3 2 (idle sample_db) = Some (Ok true, st')
    /\ log st' = events
    /\ attempts_logged events = 2%nat
    /\ Ok <$> waits_logged events = [float_pow 2 1]
    /\ records_processed st' = 1.
Proof.
  destruct (run_stops_at_first_success flaky_etl calm 3 2 (idle sample_db) 1%nat
              [bitcoin_item; nameless_item]
              (CoinGeckoETL.load_raw 101 sample_db [bitcoin_item; nameless_item])
              (CoinGeckoETL.transform strict_runtime 101 [bitcoin_item; nameless_item]))
    as (st' & events & Hrun & Hlog & Hatt & Hwaits & Hcount & _).
  - apply (waits_accepted_le 2 (3 - 1)); [cbn; lia | exact default_backoff].
  - lia.
  - intros [|k] Hk; [eexists; reflexivity | lia].
  - exact flaky_goes_through.
  - exists st', events. auto.
Defined.

(** The final transaction keeps the unique constraint on [source]. *)
Lemma finalize_keeps_unique self env last_error st b st' :
  BaseETL.finalize self env last_error st = Some (Ok b, st') ->
  uq_checkpoint_source (etl_checkpoints (db st)) ->
  uq_checkpoint_source (etl_checkpoints (db st')).
Proof.
  intros Hrun Huq. destruct (finalize_fault env) as [e|] eqn:Hff.
  - rewrite (finalize_failed _ _ _ _ _ Hff) in Hrun. now injection Hrun as <- <-.
  - revert Hff. unfold finalize_fault. cbn [first_fault].
    destruct (fault env Finalize OpSession) as [e1|] eqn:E1; [discriminate | ].
    destruct (fault env Finalize OpCheckpoint) as [e2|] eqn:E2; [discriminate | ].
    destruct (fault env Finalize OpRunRecord) as [e3|] eqn:E3; [discriminate | ].
    destruct (fault env Finalize OpCommit) as [e4|] eqn:E4; [discriminate | ].
    intros _.
    destruct (update_checkpoint_row self env Finalize (db st) "failure" last_error
                st E2) as (s1 & i & c & Hup & _).
    destruct (create_run_record_row self env Finalize s1 "failure" last_error st E3)
      as (rec & Hrec & _).
    revert Hrun. unfold BaseETL.finalize, mbind, try_except, get_db_context.
    rewrite E1, Hup, Hrec. cbn. rewrite E4. intros [= <- <-]. cbn.
    exact (update_checkpoint_unique _ _ _ _ _ _ _ _ _ Hup Huq).
Qed.

(** The general shape of a run. *)
Lemma run_loop_outcome self env max_retries backoff :
  waits_accepted backoff (max_retries - 1) ->
  forall fuel attempt last_error st,
    (Z.to_nat (max_retries - Z.of_nat attempt) < fuel)%nat ->
    exists b st' events,
      BaseETL.run_loop self env max_retries backoff fuel attempt last_error st
      = Some (Ok b, st')
      /\ log st' = log st ++ events
      /\ (attempts_logged events <= Z.to_nat (max_retries - Z.of_nat attempt))%nat
      /\ records_processed st <= records_processed st'
      /\ (raw_keeps_checkpoints self ->
          uq_checkpoint_source (etl_checkpoints (db st)) ->
          uq_checkpoint_source (etl_checkpoints (db st')))
      /\ (b = true ->
          exists k raw_data session1 data,
            (attempt <= k)%nat /\ Z.of_nat k < max_retries
            /\ attempt_goes_through self env k (db st) raw_data session1 data
            /\ committed_by self env k session1 data (records_processed st') (db st'))
      /\ (b = false ->
          match finalize_fault env with
          | Some e => db st' = db st
          | None =>
              exists i c rec last,
                checkpoint_of (BaseETL.source_name self) (db st') = Some (i, c)
                /\ ETLCheckpoint.status c = "failure"
                /\ ETLCheckpoint.error_message c = last
                /\ etl_runs (db st') = etl_runs (db st) ++ [rec]
                /\ ETLRun.run_id rec = BaseETL.run_id self
                /\ ETLRun.source rec = BaseETL.source_name self
                /\ ETLRun.status rec = "failure"
                /\ ETLRun.error_message rec = last
                /\ (raw_coinpaprika (db st') = raw_coinpaprika (db st)
                    /\ raw_coingecko (db st') = raw_coingecko (db st)
                    /\ raw_csv (db st') = raw_csv (db st)
                    /\ coins (db st') = coins (db st))
          end).
Proof.
  intros Hback.
  induction fuel as [|fuel IH]; intros attempt last_error st Hfuel; [lia | ].
  destruct (Z.of_nat attempt <? max_retries)%Z eqn:Hcond.
  - destruct (try_body_cases self env attempt st)
      as (r & st1 & ev1 & E & Hlog1 & Hone & Hcount1
          & [(raw & s1 & data & -> & Hgo & Hproc & Hfinal)|(e & -> & Hdb)]).
    + exists true, st1, ev1. split; [now apply run_loop_success | ].
      apply Z.ltb_lt in Hcond.
      split; [exact Hlog1 | ]. split; [lia | ]. split; [exact Hcount1 | ].
      split.
      { intros Hraw Huq. destruct Hfinal as (_ & _ & _ & _ & Hkeep & _).
        apply Hkeep. destruct Hgo as (_ & Hload & _).
        now rewrite (Hraw _ _ _ _ Hload). }
      split; [ | discriminate].
      intros _. exists attempt, raw, s1, data. split; [lia | ]. split; [exact Hcond | ].
      split; assumption.
    + rewrite (run_loop_retry_all _ _ _ _ _ _ _ _ e st1 Hback Hcond E).
      apply Z.ltb_lt in Hcond.
      destruct (IH (S attempt) (Some e)
                   (logged st1 (failure_events self max_retries backoff attempt e)))
        as (b & st' & ev2 & Hrun & Hlog2 & Hatt & Hcount2 & Hkeep & Htrue & Hfalse);
        [lia | ].
      exists b, st', (ev1 ++ failure_events self max_retries backoff attempt e ++ ev2).
      split; [exact Hrun | ].
      cbn [log logged db records_processed] in *.
      split; [rewrite Hlog2, Hlog1, <- !app_assoc; reflexivity | ].
      split.
      { rewrite !attempts_logged_app, attempts_logged_failure, Hone. lia. }
      split; [lia | ].
      rewrite Hdb in *. split; [exact Hkeep | ]. split.
      * intros Hb. destruct (Htrue Hb) as (k & raw & s1 & data & Hk & Hk' & Hgo & Hfin).
        exists k, raw, s1, data. split; [lia | ]. split; [exact Hk' | ].
        split; assumption.
      * exact Hfalse.
  - rewrite run_loop_done by exact Hcond.
    destruct (finalize_fault env) as [e|] eqn:Hff.
    + rewrite (finalize_failed _ _ _ _ _ Hff).
      eexists _, _, [_]. split; [reflexivity | ]. cbn.
      split; [reflexivity | ]. split; [unfold attempts_logged; cbn; lia | ].
      split; [lia | ]. split; [auto | ]. split; [discriminate | reflexivity].
    + destruct (finalize_committed self env last_error st Hff)
        as (session' & i & c & rec & Hrun & Hfind & Hstatus & Herr & Hruns
            & (R1 & R2 & R3 & R4) & _ & Htabs).
      pose proof (finalize_keeps_unique _ _ _ _ _ _ Hrun) as Hkeep.
      rewrite Hrun. eexists _, _, []. split; [reflexivity | ]. cbn.
      split; [now rewrite app_nil_r | ]. split; [unfold attempts_logged; cbn; lia | ].
      split; [lia | ]. split; [intros _; exact Hkeep | ]. split; [discriminate | ].
      intros _. exists i, c, rec, last_error. repeat split; try assumption;
        apply Htabs.
Qed.


(** X12.  An attempt is all or nothing.  It returns only [True], and then
    every step went through and its writes are committed; otherwise it
    raises and the committed tables are as before the attempt, whichever
    step failed (the commit included).  The count [records_processed] of
    the pipeline object is not part of the transaction: it never
    decreases. *)
Theorem attempt_commits_or_leaves_no_trace
        (self : BaseETL.pipeline) (env : Env) (k : nat) (st : state) :
  exists r st',
    BaseETL.try_body self env k st = Some (r, st')
    /\ records_processed st <= records_processed st'
    /\ ((r = Ok true
         /\ exists raw_data session1 data,
             attempt_goes_through self env k (db st) raw_data session1 data
             /\ committed_by self env k session1 data (records_processed st') (db st'))
        \/ (exists e, r = Raise e /\ db st' = db st)).
Proof.
  destruct (try_body_cases self env k st)
    as (r & st' & events & E & _ & _ & Hcount
        & [(raw & s1 & data & -> & Hgo & _ & Hfinal)|Hraise]).
  - exists (Ok true), st'. split; [exact E | ]. split; [exact Hcount | ].
    left. split; [reflexivity | ]. exists raw, s1, data. split; assumption.
  - exists r, st'. split; [exact E | ]. split; [exact Hcount | ]. now right.
Qed.

(** X13.  The boolean returned by [run] is on record.  For a pipeline
    whose [load_raw] leaves the table of runs alone, and waits
    [backoff_factor ** k], [k = 1 .. max_retries - 1], that [time.sleep]
    takes (from 0 to 9e9 seconds), [run] returns a boolean.  When [True],
    one run record with status ['success'] was added and the checkpoint of
    the source has status ['success']; when [False], one run record with
    status ['failure'] was added and the checkpoint has status
    ['failure'], both with the same error message, unless the final
    transaction failed, in which case the tables are as before the run.
    No more than [max_retries] attempts are made. *)
Theorem run_outcome_on_record
        (self : BaseETL.pipeline) (env : Env) (max_retries : Z)
        (backoff_factor : Q) (st : state) :
  waits_accepted backoff_factor (max_retries - 1) ->
  raw_keeps_runs self ->
  exists b st' events,
    BaseETL.run self env max_retries backoff_factor st = Some (Ok b, st')
    /\ log st' = log st ++ events
    /\ (attempts_logged events <= Z.to_nat max_retries)%nat
    /\ (b = true ->
        exists i c rec,
          checkpoint_of (BaseETL.source_name self) (db st') = Some (i, c)
          /\ ETLCheckpoint.status c = "success"
          /\ ETLCheckpoint.error_message c = None
          /\ ETLCheckpoint.records_processed c = records_processed st'
          /\ etl_runs (db st') = etl_runs (db st) ++ [rec]
          /\ ETLRun.run_id rec = BaseETL.run_id self
          /\ ETLRun.status rec = "success"
          /\ ETLRun.error_message rec = None
          /\ ETLRun.records_processed rec = records_processed st')
    /\ (b = false ->
        match finalize_fault env with
        | Some e => db st' = db st
        | None =>
            exists i c rec,
              checkpoint_of (BaseETL.source_name self) (db st') = Some (i, c)
              /\ ETLCheckpoint.status c = "failure"
              /\ etl_runs (db st') = etl_runs (db st) ++ [rec]
              /\ ETLRun.run_id rec = BaseETL.run_id self
              /\ ETLRun.status rec = "failure"
              /\ ETLRun.error_message rec = ETLCheckpoint.error_message c
        end).
Proof.
  intros Hb Hraw.
  destruct (run_loop_outcome self env max_retries backoff_factor Hb
              (S (Z.to_nat max_retries)) 0%nat None st)
    as (b & st' & events & Hrun & Hlog & Hatt & _ & _ & Htrue & Hfalse); [lia | ].
  exists b, st', events. split; [exact Hrun | ]. split; [exact Hlog | ].
  split; [lia | ]. split.
  - intros Hbt. destruct (Htrue Hbt)
      as (k & raw & s1 & data & _ & _ & (_ & Hload & _) & Hfinal).
    destruct Hfinal as (_ & _ & (i & c & Hfind & Hst & Herr & _ & _ & Hcount) & _ & _
                        & (rec & Hruns & Q1 & _ & Q3 & Q4 & _ & _ & _ & Q8)).
    exists i, c, rec. rewrite <- (Hraw _ _ _ _ Hload). repeat split; assumption.
  - intros Hbf. specialize (Hfalse Hbf).
    destruct (finalize_fault env) as [e|]; [exact Hfalse | ].
    destruct Hfalse as (i & c & rec & last & Hfind & Hst & Herr & Hruns & Q1 & _ & Q3
                        & Q4 & _).
    exists i, c, rec. repeat split; try assumption. congruence.
Qed.

Lemma coingecko_keeps_runs py run_id now extract :
  raw_keeps_runs (CoinGeckoETL.init py run_id now extract).
Proof.
  intros t session raw session' [= <-]. now rewrite CoinGecko_load_raw_rows.
Qed.

Lemma coingecko_keeps_checkpoints py run_id now extract :
  raw_keeps_checkpoints (CoinGeckoETL.init py run_id now extract).
Proof.
  intros t session raw session' [= <-]. now rewrite CoinGecko_load_raw_rows.
Qed.

Lemma working_goes_through :
  attempt_goes_through working_etl calm 0 sample_db [bitcoin_item; nameless_item]
    (CoinGeckoETL.load_raw 100 sample_db [bitcoin_item; nameless_item])
    (CoinGeckoETL.transform strict_runtime 100 [bitcoin_item; nameless_item]).
Proof. repeat split. Qed.

Lemma run_outcome_on_record_witness :
  exists st' events i c rec,
    BaseETL.run working_etl calm 3 2 (idle sample_db) = Some (Ok true, st')
    /\ log st' = events
    /\ checkpoint_of "coingecko" (db st') = Some (i, c)
    /\ ETLCheckpoint.status c = "success"
    /\ etl_runs (db st') = [rec]
    /\ ETLRun.status rec = "success".
Proof.
  destruct (run_outcome_on_record working_etl calm 3 2 (idle sample_db))
    as (b & st' & events & Hrun & Hlog & _ & Htrue & _).
  - exact default_backoff.
  - apply coingecko_keeps_runs.
  - assert (Hb : b = true).
    { destruct (try_body_commits working_etl calm 0 (idle sample_db) _ _ _
                  working_goes_through) as (final & Htry & _).
      unfold BaseETL.run in Hrun.
      rewrite (run_loop_success working_etl calm 3 2 _ 0%nat None _ _ _ eq_refl Htry)
        in Hrun.
      now injection Hrun as <- <-. }
    subst b. destruct (Htrue eq_refl) as (i & c & rec & H1 & H2 & _ & _ & H5 & _ & H7 & _).
    exists st', events, i, c, rec. repeat split; assumption.
Defined.

(** An attempt whose checkpoint update is refused, the loads being done. *)
Lemma try_body_checkpoint_refused self env k st raw_data session1 data e :
  BaseETL.extract self k = Ok raw_data ->
  BaseETL.load_raw self (utcnow env (Attempt k) OpLoadRaw) (db st) raw_data
  = Ok session1 ->
  BaseETL.transform self (utcnow env (Attempt k) OpTransform) raw_data = Ok data ->
  fault env (Attempt k) OpSession = None ->
  (data <> [] -> fault env (Attempt k) OpLoadNormalized = None) ->
  fault env (Attempt k) OpCheckpoint = Some e ->
  exists events,
    BaseETL.try_body self env k st
    = Some (Raise e,
            {| db := db st;
               records_processed := records_processed st + Z.of_nat (length data);
               log := log st ++ events |})
    /\ attempts_logged events = 1%nat.
Proof.
  intros Hextract Hload Htransform Fs Fl Fc.
  unfold BaseETL.try_body. rewrite mbind_tell. unfold get_db_context. rewrite Fs.
  cbn [db logged].
  rewrite (pipeline_body_extracted _ _ _ _ _ _ _ _ Hextract Hload Htransform).
  rewrite logged_logged.
  match goal with |- context [logged st ?l] => set (st0 := logged st l) end.
  destruct (load_normalized_through env (Attempt k) session1 data st0 Fl)
    as (s2 & E2 & _).
  rewrite (mbind_ok _ _ _ _ _ E2).
  unfold mbind. rewrite (update_checkpoint_raise _ _ _ _ _ _ _ _ Fc).
  eexists. split; [reflexivity | ]. reflexivity.
Qed.

(** X14.  [records_processed] is never reset between the attempts of a
    run.  If the first attempt loads its batch and is then refused the
    checkpoint update, the wait [backoff_factor ** 1] is a length that
    [time.sleep] takes (from 0 to 9e9 seconds), and the second attempt
    goes through (so [max_retries > 1]), the run returns [True] and the
    checkpoint and the run record count the records of both batches,
    though only the second was committed. *)
Theorem run_counts_failed_attempts
        (self : BaseETL.pipeline) (env : Env) (max_retries : Z)
        (backoff_factor : Q) (st : state) (e : string)
        (raw0 raw1 : list Dict) (loaded0 loaded1 : DB) (data0 data1 : list CoinCreate.t) :
  waits_accepted backoff_factor 1 ->
  1 < max_retries ->
  BaseETL.extract self 0 = Ok raw0 ->
  BaseETL.load_raw self (utcnow env (Attempt 0) OpLoadRaw) (db st) raw0 = Ok loaded0 ->
  BaseETL.transform self (utcnow env (Attempt 0) OpTransform) raw0 = Ok data0 ->
  fault env (Attempt 0) OpSession = None ->
  (data0 <> [] -> fault env (Attempt 0) OpLoadNormalized = None) ->
  fault env (Attempt 0) OpCheckpoint = Some e ->
  attempt_goes_through self env 1 (db st) raw1 loaded1 data1 ->
  let processed :=
    records_processed st + Z.of_nat (length data0) + Z.of_nat (length data1) in
  exists st',
    BaseETL.run self env max_retries backoff_factor st = Some (Ok true, st')
    /\ records_processed st' = processed
    /\ committed_by self env 1 loaded1 data1 processed (db st').
Proof.
  intros Hb Hmax Hextract Hload Htransform Fs Fl Fc Hgo processed.
  destruct (try_body_checkpoint_refused self env 0 st raw0 loaded0 data0 e
              Hextract Hload Htransform Fs Fl Fc) as (events & Htry & _).
  assert (Hc0 : (Z.of_nat 0 <? max_retries)%Z = true) by (apply Z.ltb_lt; cbn; lia).
  assert (Hc1 : (Z.of_nat 1 <? max_retries)%Z = true) by (apply Z.ltb_lt; cbn; lia).
  unfold BaseETL.run.
  rewrite (run_loop_retry _ _ _ _ _ _ _ _ _ _
             (fun _ => Hb 1%nat ltac:(lia) ltac:(cbn; lia)) Hc0 Htry).
  destruct (Z.to_nat max_retries) as [|fuel] eqn:Hfuel; [lia | ].
  match goal with
  | |- context [BaseETL.run_loop _ _ _ _ _ _ _ ?s] => set (st1 := s)
  end.
  destruct (try_body_commits self env 1 st1 raw1 loaded1 data1 Hgo)
    as (final & Htry1 & Hfinal).
  rewrite (run_loop_success _ _ _ _ _ _ _ _ _ _ Hc1 Htry1).
  eexists. split; [reflexivity | ]. split; [reflexivity | exact Hfinal].
Qed.

Lemma flaky_checkpoint_goes_through :
  attempt_goes_through working_etl checkpoint_down_once 1 sample_db
    [bitcoin_item; nameless_item]
    (CoinGeckoETL.load_raw 101 sample_db [bitcoin_item; nameless_item])
    (CoinGeckoETL.transform strict_runtime 101 [bitcoin_item; nameless_item]).
Proof. repeat split. Qed.

Lemma run_counts_failed_attempts_witness :
  exists st',
    BaseETL.run working_etl checkpoint_down_once 3 2 (idle sample_db)
    = Some (Ok true, st')
    /\ records_processed st' = 2
    /\ exists rec, etl_runs (db st') = [rec] /\ ETLRun.records_processed rec = 2.
Proof.
  destruct (run_counts_failed_attempts working_etl checkpoint_down_once 3 2
              (idle sample_db) "deadlock detected"
              [bitcoin_item; nameless_item] [bitcoin_item; nameless_item]
              (CoinGeckoETL.load_raw 100 sample_db [bitcoin_item; nameless_item])
              (CoinGeckoETL.load_raw 101 sample_db [bitcoin_item; nameless_item])
              (CoinGeckoETL.transform strict_runtime 100 [bitcoin_item; nameless_item])
              (CoinGeckoETL.transform strict_runtime 101 [bitcoin_item; nameless_item]))
    as (st' & Hrun & Hcount & Hfinal); try reflexivity.
  - apply (waits_accepted_le 2 (3 - 1)); [lia | exact default_backoff].
  - exact flaky_checkpoint_goes_through.
  - exists st'. split; [exact Hrun | ]. split; [exact Hcount | ].
    destruct Hfinal as (_ & _ & _ & _ & _ & (rec & Hruns & _ & _ & _ & Hrec & _)).
    exists rec. split; [ | exact Hrec].
    rewrite Hruns, CoinGecko_load_raw_rows. reflexivity.
Defined.

(** X15.  A missing CSV file is not an error.  [extract] returns no rows,
    nothing is loaded ([db.execute] is not even called) and the run is
    recorded as a success with the count of records left as it was. *)
Theorem csv_missing_file_is_a_success
        (py : PyRuntime) (run_id : string) (started_at : Time)
        (files : nat -> option (result (list Dict)))
        (env : Env) (max_retries : Z) (backoff_factor : Q) (st : state) :
  0 < max_retries ->
  files 0%nat = None ->
  fault env (Attempt 0) OpSession = None ->
  fault env (Attempt 0) OpCheckpoint = None ->
  fault env (Attempt 0) OpRunRecord = None ->
  fault env (Attempt 0) OpCommit = None ->
  let self :=
    CSVSourceETL.init py run_id started_at (fun k => CSVSourceETL.extract (files k)) in
  exists st' i c rec,
    BaseETL.run self env max_retries backoff_factor st = Some (Ok true, st')
    /\ records_processed st' = records_processed st
    /\ (raw_csv (db st') = raw_csv (db st) /\ coins (db st') = coins (db st))
    /\ checkpoint_of "csv" (db st') = Some (i, c)
    /\ ETLCheckpoint.status c = "success"
    /\ ETLCheckpoint.records_processed c = records_processed st
    /\ etl_runs (db st') = etl_runs (db st) ++ [rec]
    /\ ETLRun.status rec = "success"
    /\ ETLRun.records_processed rec = records_processed st.
Proof.
  intros Hmax Hfile Fs Fc Fr Fm self.
  assert (Hgo : attempt_goes_through self env 0 (db st) [] (db st) []).
  { split; [cbn; now rewrite Hfile | ]. split; [reflexivity | ].
    split; [reflexivity | ]. split; [exact Fs | ]. split; [congruence | ].
    split; [exact Fc | ]. split; [exact Fr | exact Fm]. }
  destruct (try_body_commits self env 0 st [] (db st) [] Hgo) as (final & Htry & Hfinal).
  assert (Hc0 : (Z.of_nat 0 <? max_retries)%Z = true) by (apply Z.ltb_lt; cbn; lia).
  unfold BaseETL.run. rewrite (run_loop_success _ _ _ _ _ _ _ _ _ _ Hc0 Htry).
  destruct Hfinal as (Hcoins & (_ & _ & Hraw) & (i & c & Hfind & Hst & _ & _ & _ & Hcount)
                      & _ & _ & (rec & Hruns & _ & _ & Q3 & Q4 & _)).
  cbn [length] in *. rewrite Z.add_0_r in *.
  eexists _, i, c, rec. split; [reflexivity | ]. cbn.
  split; [reflexivity | ]. split; [split; assumption | ].
  repeat split; assumption.
Qed.

Lemma csv_missing_file_is_a_success_witness :
  exists st' i c rec,
    BaseETL.run no_file_etl calm 3 2 (idle sample_db) = Some (Ok true, st')
    /\ coins (db st') = coins sample_db
    /\ checkpoint_of "csv" (db st') = Some (i, c)
    /\ ETLCheckpoint.status c = "success"
    /\ etl_runs (db st') = [rec]
    /\ ETLRun.records_processed rec = 0.
Proof.
  destruct (csv_missing_file_is_a_success strict_runtime "run-4" 50 (fun _ => None)
              calm 3 2 (idle sample_db))
    as (st' & i & c & rec & Hrun & _ & (_ & Hcoins) & Hfind & Hst & _ & Hruns & _ & Hrec);
    try reflexivity.
  exists st', i, c, rec. repeat split; assumption.
Defined.

End RunMoreProps.

Section TransformMoreProps.





(** A row that is complete but for a rank of [1e999] is skipped; the same
    row with a rank that is no number is kept, without a rank. *)
Example csv_row_kept_iff_sample :
  CSVSourceETL.transform strict_runtime 0
    [ [("coin_id", VStr "bitcoin"); ("symbol", VStr "btc"); ("name", VStr "Bitcoin");
       ("rank", VStr "9999999999999999999999999999999999999999999999999999999999999999999999999999999999999999999999999999999999999999999999999999999999999999999999999999999999999999999999999999999999999999999999999999999999999999999999999999999999999999999999999999999999999999999999999999999999999999999999999999999999999999999999999")];
      [("coin_id", VStr "bitcoin"); ("symbol", VStr "btc"); ("name", VStr "Bitcoin");
       ("rank", VStr "first")] ]
  = [ {| CoinCreate.coin_id := "bitcoin";
         CoinCreate.symbol := "BTC";
         CoinCreate.name := "Bitcoin";
         CoinCreate.current_price := None;
         CoinCreate.market_cap := None;
         CoinCreate.volume_24h := None;
         CoinCreate.price_change_24h := None;
         CoinCreate.rank := None;
         CoinCreate.source := "csv";
         CoinCreate.last_updated := Some 0 |} ].
Proof. vm_compute. reflexivity. Qed.

End TransformMoreProps.

Section ServiceMoreProps.

(** X17.  A source that is not registered is refused without touching
    anything: [run_single_source] logs the name and returns [False]; no
    class is called and the tables are as they were. *)
Theorem run_single_source_unknown_source
        (etl_sources : ETLService.registry) (source_name : string) (st : state) :
  source_name ∉ etl_sources.*1 ->
  ETLService.run_single_source etl_sources source_name st
  = Some (Ok false,
          {| db := db st; records_processed := records_processed st;
             log := log st ++ [UnknownSource source_name] |}).
Proof.
  intros Hnew. apply run_single_source_unknown. now apply lookup_source_None.
Qed.

Lemma run_single_source_unknown_source_witness :
  ETLService.run_single_source sample_sources "binance" (idle sample_db)
  = Some (Ok false,
          {| db := sample_db; records_processed := 0;
             log := [UnknownSource "binance"] |}).
Proof.
  apply (run_single_source_unknown_source sample_sources "binance" (idle sample_db)).
  cbn. rewrite !not_elem_of_cons. repeat split; try discriminate.
  apply not_elem_of_nil.
Defined.

Lemma collect_sequential_app etl_sources l1 : forall l2 results st results' st',
  ETLService.collect_sequential etl_sources l1 results st = Some (Ok results', st') ->
  ETLService.collect_sequential etl_sources (l1 ++ l2) results st
  = ETLService.collect_sequential etl_sources l2 results' st'.
Proof.
  induction l1 as [|source rest IH]; intros l2 results st results' st' H.
  - injection H as <- <-. reflexivity.
  - cbn [app ETLService.collect_sequential] in *. unfold mbind in *.
    destruct (ETLService.run_single_source etl_sources source st)
      as [[[b|e] st1]|]; try discriminate.
    now apply IH.
Qed.

(** The sources before the first class that raises are run. *)
Lemma collect_sequential_returns etl_sources sources :
  (forall name, name ∈ sources ->
                exists cls etl, ETLService.lookup_source etl_sources name = Some cls
                                /\ ETLService.construct cls = Ok etl) ->
  forall results st,
  exists results' st',
    ETLService.collect_sequential etl_sources sources results st
    = Some (Ok results', st').
Proof.
  induction sources as [|source rest IH]; intros Hok results st.
  - cbn. eauto.
  - destruct (Hok source) as (cls & etl & Hlook & Hnew); [apply elem_of_cons; now left | ].
    destruct (run_returns etl (ETLService.world cls) 3 2
                {| db := db st; records_processed := 0; log := log st |}
                default_backoff) as (b & st1 & Hrun).
    rewrite <- (run_single_source_runs _ _ _ _ _ Hlook Hnew) in Hrun.
    cbn [ETLService.collect_sequential]. rewrite (mbind_ok _ _ _ _ _ Hrun).
    apply IH. intros name Hname. apply Hok. apply elem_of_cons. now right.
Qed.

(** X18.  The sequential branch of [run_all_sources] has no guard: when
    the class of a source raises on construction, the sources registered
    before it have been run, those after it are not, and the exception
    leaves [run_all_sources]; no result is returned. *)
Theorem run_all_sources_sequential_propagates
        (before after : ETLService.registry) (name : string)
        (cls : ETLService.etl_class) (e : string)
        (completed : list string) (st : state) :
  let etl_sources := before ++ (name, cls) :: after in
  NoDup (etl_sources.*1) ->
  ETLService.construct cls = Raise e ->
  (forall n c, (n, c) ∈ before -> exists etl, ETLService.construct c = Ok etl) ->
  exists results st',
    ETLService.collect_sequential etl_sources (before.*1) ∅ st = Some (Ok results, st')
    /\ ETLService.run_all_sources etl_sources false completed st
       = Some (Raise e, st').
Proof.
  intros etl_sources Hnd Hnew Hbefore.
  destruct (collect_sequential_returns etl_sources (before.*1)) with (results := (∅ : gmap string bool)) (st := st)
    as (results & st' & Hrun).
  { intros n Hn. apply list_elem_of_fmap in Hn. destruct Hn as ([n' c] & -> & Hin).
    destruct (Hbefore n' c Hin) as [etl Hetl]. exists c, etl. split; [ | exact Hetl].
    apply lookup_source_elem; [exact Hnd | ].
    apply elem_of_app. now left. }
  exists results, st'. split; [exact Hrun | ].
  unfold ETLService.run_all_sources.
  subst etl_sources. rewrite fmap_app. cbn [fmap list_fmap].
  rewrite (collect_sequential_app _ _ _ _ _ _ _ Hrun).
  cbn [ETLService.collect_sequential]. unfold mbind.
  rewrite (run_single_source_construct_raises _ _ cls e); [reflexivity | | exact Hnew].
  apply lookup_source_elem; [exact Hnd | ].
  apply elem_of_app. right. apply elem_of_cons. now left.
Qed.

Lemma run_all_sources_sequential_propagates_witness :
  exists results st',
    ETLService.collect_sequential
      ([("coinpaprika", working_class)] ++ ("coingecko", broken_class) :: [])
      ["coinpaprika"] ∅ (idle sample_db) = Some (Ok results, st')
    /\ ETLService.run_all_sources
         ([("coinpaprika", working_class)] ++ ("coingecko", broken_class) :: [])
         false [] (idle sample_db)
       = Some (Raise "No module named httpx", st').
Proof.
  apply (run_all_sources_sequential_propagates [("coinpaprika", working_class)] []
           "coingecko" broken_class "No module named httpx" [] (idle sample_db)).
  - apply (bool_decide_unpack _). vm_compute. exact I.
  - reflexivity.
  - intros n c Hin. apply list_elem_of_singleton in Hin. injection Hin as -> ->.
    eexists. reflexivity.
Defined.

End ServiceMoreProps.

Section StatusProps.

Lemma dict_set_fresh {V} (d : list (string * V)) (key : string) (v : V) :
  key ∉ d.*1 -> dict_set d key v = d ++ [(key, v)].
Proof.
  induction d as [|[k x] d IH]; intros Hnew; [reflexivity | ].
  cbn in Hnew |- *. apply not_elem_of_cons in Hnew. destruct Hnew as [Hne Hnew].
  destruct (String.eqb_spec k key) as [->|_]; [congruence | ].
  now rewrite IH.
Qed.

Lemma foldl_dict_set_unique {A V} (f : A -> string) (g : A -> V) (l : list A) :
  forall acc,
    NoDup (acc.*1 ++ (f <$> l)) ->
    foldl (fun d x => dict_set d (f x) (g x)) acc l
    = acc ++ ((fun x => (f x, g x)) <$> l).
Proof.
  induction l as [|x l IH]; intros acc Hnd; cbn.
  - now rewrite app_nil_r.
  - rewrite dict_set_fresh.
    + rewrite IH.
      * now rewrite <- app_assoc.
      * rewrite fmap_app. cbn. rewrite <- app_assoc. exact Hnd.
    + apply NoDup_app in Hnd. destruct Hnd as (_ & Hdisj & _).
      intros Hin. apply (Hdisj _ Hin). cbn. apply elem_of_cons. now left.
Qed.

Lemma set_db_same st : set_db st (db st) = st.
Proof. now destruct st. Qed.

(** The report of [get_etl_status]. *)
Lemma get_etl_status_result env ph isoformat st :
  uq_checkpoint_source (etl_checkpoints (db st)) ->
  ETLService.get_etl_status env ph isoformat st
  = match status_query_fault env ph with
    | Some e => Some (Raise e, st)
    | None => Some (Ok (status_item isoformat <$> etl_checkpoints (db st)), st)
    end.
Proof.
  intros Huq. unfold ETLService.get_etl_status, get_db_context, status_query_fault.
  cbn [first_fault].
  destruct (fault env ph OpSession) as [e1|]; [reflexivity | ].
  unfold mbind, store_call.
  destruct (fault env ph OpCheckpoint) as [e2|]; [reflexivity | ].
  cbn. destruct (fault env ph OpCommit) as [e3|]; [reflexivity | ].
  rewrite set_db_same. do 3 f_equal.
  rewrite (foldl_dict_set_unique ETLCheckpoint.source
             (ETLService.status_entry isoformat)); [reflexivity | exact Huq].
Qed.

(** X19.  [get_etl_status] reads and does not write: tables and log are as
    before, also when the query fails, and then the exception leaves the
    function.  With one checkpoint per source, the mapping returned has
    one entry per checkpoint row, in the order of the rows: the status,
    the count and the error message of the row, and its three times in
    ISO format, [None] where the row has none. *)
Theorem get_etl_status_reflects_checkpoints
        (env : Env) (ph : Phase) (isoformat : Time -> string) (st : state) :
  uq_checkpoint_source (etl_checkpoints (db st)) ->
  (forall e, status_query_fault env ph = Some e ->
             ETLService.get_etl_status env ph isoformat st = Some (Raise e, st))
  /\ (status_query_fault env ph = None ->
      exists status,
        ETLService.get_etl_status env ph isoformat st = Some (Ok status, st)
        /\ status.*1 = ETLCheckpoint.source <$> etl_checkpoints (db st)
        /\ forall i c,
            etl_checkpoints (db st) !! i = Some c ->
            exists entry,
              status !! i = Some (ETLCheckpoint.source c, entry)
              /\ ETLService.ss_status entry = ETLCheckpoint.status c
              /\ ETLService.ss_records_processed entry
                 = ETLCheckpoint.records_processed c
              /\ ETLService.ss_error_message entry = ETLCheckpoint.error_message c
              /\ ETLService.ss_last_run entry
                 = isoformat <$> ETLCheckpoint.last_run_at c
              /\ ETLService.ss_last_success entry
                 = isoformat <$> ETLCheckpoint.last_success_at c
              /\ ETLService.ss_last_failure entry
                 = isoformat <$> ETLCheckpoint.last_failure_at c).
Proof.
  intros Huq. rewrite (get_etl_status_result env ph isoformat st Huq). split.
  - now intros e ->.
  - intros ->. eexists. split; [reflexivity | ]. split.
    + rewrite <- list_fmap_compose. reflexivity.
    + intros i c Hi. eexists. split.
      * rewrite list_lookup_fmap, Hi. reflexivity.
      * repeat split.
Qed.

Lemma get_etl_status_reflects_checkpoints_witness :
  exists status entry,
    ETLService.get_etl_status calm Finalize sample_isoformat (idle sample_db)
    = Some (Ok status, idle sample_db)
    /\ status = [("coingecko", entry)]
    /\ ETLService.ss_status entry = "success"
    /\ ETLService.ss_last_run entry = Some "2024-01-01T00:00:00".
Proof.
  destruct (get_etl_status_reflects_checkpoints calm Finalize sample_isoformat
              (idle sample_db) sample_checkpoints_unique) as [_ Hok].
  destruct (Hok eq_refl) as (status & Hrun & Hkeys & Hrows).
  destruct (Hrows 0%nat coingecko_checkpoint eq_refl)
    as (entry & Hentry & Hst & _ & _ & Hlast & _).
  exists status, entry. split; [exact Hrun | ].
  split; [ | split; assumption].
  destruct status as [|x [|y status]]; cbn in Hkeys, Hentry; try discriminate.
  now injection Hentry as ->.
Defined.


(** *** The order of texts *)

Lemma ascii_compare_lt_trans (a b c : ascii) :
  Ascii.compare a b = Lt -> Ascii.compare b c = Lt -> Ascii.compare a c = Lt.
Proof.
  unfold Ascii.compare. rewrite !N.compare_lt_iff. apply N.lt_trans.
Qed.

Lemma ascii_compare_eq (a b : ascii) : Ascii.compare a b = Eq -> a = b.
Proof.
  unfold Ascii.compare. intros H. apply N.compare_eq in H.
  rewrite <- (ascii_N_embedding a), <- (ascii_N_embedding b). now rewrite H.
Qed.

Lemma ascii_compare_refl (a : ascii) : Ascii.compare a a = Eq.
Proof. unfold Ascii.compare. apply N.compare_refl. Qed.

Lemma string_ltb_trans (s1 s2 s3 : string) :
  String.ltb s1 s2 = true -> String.ltb s2 s3 = true -> String.ltb s1 s3 = true.
Proof.
  unfold String.ltb. revert s2 s3.
  induction s1 as [|a s1 IH]; intros [|b s2] [|c s3]; cbn; try discriminate; auto.
  destruct (Ascii.compare a b) eqn:Eab; try discriminate;
    destruct (Ascii.compare b c) eqn:Ebc; try discriminate.
  - apply ascii_compare_eq in Eab, Ebc. subst.
    rewrite ascii_compare_refl. apply IH.
  - apply ascii_compare_eq in Eab. subst. now rewrite Ebc.
  - apply ascii_compare_eq in Ebc. subst. now rewrite Eab.
  - now rewrite (ascii_compare_lt_trans a b c Eab Ebc).
Qed.

Lemma string_ltb_irrefl (s : string) : String.ltb s s = false.
Proof.
  unfold String.ltb. induction s as [|a s IH]; cbn; [reflexivity | ].
  rewrite ascii_compare_refl. exact IH.
Qed.

Lemma string_ltb_total (s1 s2 : string) :
  String.ltb s1 s2 = false -> s1 = s2 \/ String.ltb s2 s1 = true.
Proof.
  unfold String.ltb. rewrite (String.compare_antisym s2 s1).
  destruct (String.compare s1 s2) eqn:E; try discriminate; intros _.
  - left. now apply String.compare_eq_iff.
  - now right.
Qed.

Lemma string_ltb_empty (s : string) : String.ltb s "" = false.
Proof. now destruct s. Qed.

(** *** The loops of [health_check] *)

Lemma health_sources_loop isoformat table : forall sources_status overall_status,
  NoDup (sources_status.*1 ++ (ETLCheckpoint.source <$> table)) ->
  Routes.sources_loop sources_status overall_status (status_item isoformat <$> table)
  = (sources_status
       ++ ((fun c => (ETLCheckpoint.source c, ETLCheckpoint.status c)) <$> table),
     if existsb (has_status "failure") table then "degraded" else overall_status).
Proof.
  unfold Routes.sources_loop.
  induction table as [|c table IH]; intros ss overall Hnd; cbn.
  - now rewrite app_nil_r.
  - rewrite dict_set_fresh.
    + rewrite IH.
      * rewrite <- app_assoc. cbn. unfold has_status.
        destruct (String.eqb (ETLCheckpoint.status c) "failure"),
          (existsb _ table); reflexivity.
      * rewrite fmap_app. cbn. rewrite <- app_assoc. exact Hnd.
    + apply NoDup_app in Hnd. destruct Hnd as (_ & Hdisj & _).
      intros Hin. apply (Hdisj _ Hin). cbn. apply elem_of_cons. now left.
Qed.

Lemma latest_loop_cons isoformat start c table :
  Routes.latest_run_loop start (status_item isoformat <$> (c :: table))
  = Routes.latest_run_loop (if has_last_run isoformat c
       then match start with
            | Some latest =>
                if negb (truthy start)
                   || match ETLCheckpoint.last_run_at c with
                      | Some t => String.ltb latest (isoformat t)
                      | None => false
                      end
                then option_map isoformat (ETLCheckpoint.last_run_at c) else start
            | None => option_map isoformat (ETLCheckpoint.last_run_at c)
            end
       else start) (status_item isoformat <$> table).
Proof.
  unfold Routes.latest_run_loop, has_last_run. cbn [fmap list_fmap foldl status_item].
  cbn [ETLService.status_entry ETLService.ss_last_run].
  f_equal. destruct (ETLCheckpoint.last_run_at c) as [t|]; cbn [option_map];
    [ | reflexivity].
  destruct (truthy (Some (isoformat t))); [ | reflexivity].
  destruct start as [latest|]; reflexivity.
Qed.

Lemma latest_loop_truthy isoformat table : forall start,
  truthy (Routes.latest_run_loop start (status_item isoformat <$> table))
  = truthy start || existsb (has_last_run isoformat) table.
Proof.
  induction table as [|c table IH]; intros start.
  - cbn. now rewrite orb_false_r.
  - rewrite latest_loop_cons, IH. cbn [existsb].
    unfold has_last_run at 1 3.
    destruct (truthy (option_map isoformat (ETLCheckpoint.last_run_at c))) eqn:Hc;
      [ | reflexivity].
    destruct start as [latest|]; [ | now rewrite Hc].
    destruct (truthy (Some latest)) eqn:Hl; cbn [negb orb].
    + destruct (ETLCheckpoint.last_run_at c) as [t|]; [ | now rewrite Hl].
      destruct (String.ltb latest (isoformat t)); [now rewrite Hc | now rewrite Hl].
    + now rewrite Hc.
Qed.

(** The run found is that of a row and no row has a later one. *)
Lemma latest_loop_greatest isoformat table : forall start latest,
  Routes.latest_run_loop start (status_item isoformat <$> table) = Some latest ->
  truthy (Some latest) = true ->
  (start = Some latest
   \/ exists c t, c ∈ table /\ ETLCheckpoint.last_run_at c = Some t
                  /\ latest = isoformat t)
  /\ (forall s, start = Some s -> String.ltb latest s = false)
  /\ (forall c t, c ∈ table -> ETLCheckpoint.last_run_at c = Some t ->
                  String.ltb latest (isoformat t) = false).
Proof.
  induction table as [|c table IH]; intros start latest Hrun Htrue.
  - cbn in Hrun. subst start. split; [now left | ]. split.
    + intros s [= <-]. apply string_ltb_irrefl.
    + intros c t Hc. now apply elem_of_nil in Hc.
  - rewrite latest_loop_cons in Hrun.
    destruct (IH _ latest Hrun Htrue) as (Hfrom & Hstart & Hrows). clear IH Hrun.
    assert (Hge : forall s1 s2, String.ltb latest s1 = false ->
                                String.ltb s2 s1 = true ->
                                String.ltb latest s2 = false).
    { intros s1 s2 H1 H2. destruct (String.ltb latest s2) eqn:E; [ | reflexivity].
      now rewrite (string_ltb_trans _ _ _ E H2) in H1. }
    unfold has_last_run in *.
    destruct (ETLCheckpoint.last_run_at c) as [t|] eqn:Ht; cbn [option_map] in *.
    2:{ cbn [truthy] in *. split; [ | split].
        - destruct Hfrom as [H|(c' & t' & Hc' & H1 & H2)]; [now left | right].
          exists c', t'. split; [apply elem_of_cons; now right | auto].
        - exact Hstart.
        - intros c' t' Hc' Ht'. apply elem_of_cons in Hc'.
          destruct Hc' as [->|Hc']; [congruence | eauto]. }
    destruct (truthy (Some (isoformat t))) eqn:Hc.
    2:{ split; [ | split].
        - destruct Hfrom as [H|(c' & t' & Hc' & H1 & H2)]; [now left | right].
          exists c', t'. split; [apply elem_of_cons; now right | auto].
        - exact Hstart.
        - intros c' t' Hc' Ht'. apply elem_of_cons in Hc'.
          destruct Hc' as [->|Hc']; [ | eauto].
          rewrite Ht in Ht'. injection Ht' as <-.
          destruct (isoformat t); [apply string_ltb_empty | discriminate]. }
    destruct start as [s0|].
    + destruct (negb (truthy (Some s0)) || String.ltb s0 (isoformat t)) eqn:Hnew.
      * (* the row takes the place of the start *)
        pose proof (Hstart _ eq_refl) as Hlt.
        split; [ | split].
        -- right. destruct Hfrom as [[= <-]|(c' & t' & Hc' & H1 & H2)].
           ++ exists c, t. split; [apply elem_of_cons; now left | auto].
           ++ exists c', t'. split; [apply elem_of_cons; now right | auto].
        -- intros s [= <-]. apply orb_true_iff in Hnew. destruct Hnew as [Hnew|Hnew].
           ++ apply negb_true_iff in Hnew. destruct s0; [apply string_ltb_empty | ].
              discriminate.
           ++ exact (Hge _ _ Hlt Hnew).
        -- intros c' t' Hc' Ht'. apply elem_of_cons in Hc'.
           destruct Hc' as [->|Hc']; [ | eauto].
           rewrite Ht in Ht'. now injection Ht' as <-.
      * apply orb_false_iff in Hnew. destruct Hnew as [_ Hnew].
        pose proof (Hstart _ eq_refl) as Hlt.
        split; [ | split].
        -- destruct Hfrom as [H|(c' & t' & Hc' & H1 & H2)]; [now left | right].
           exists c', t'. split; [apply elem_of_cons; now right | auto].
        -- exact Hstart.
        -- intros c' t' Hc' Ht'. apply elem_of_cons in Hc'.
           destruct Hc' as [->|Hc']; [ | eauto].
           rewrite Ht in Ht'. injection Ht' as <-.
           destruct (String.ltb latest (isoformat t)) eqn:E; [ | reflexivity].
           destruct (String.ltb latest s0) eqn:E0; [discriminate | ].
           destruct (string_ltb_total _ _ Hnew) as [->|Hlt']; [congruence | ].
           now rewrite (string_ltb_trans _ _ _ E Hlt') in E0.
    + pose proof (Hstart _ eq_refl) as Hlt.
      split; [ | split].
      * right. destruct Hfrom as [[= <-]|(c' & t' & Hc' & H1 & H2)].
        -- exists c, t. split; [apply elem_of_cons; now left | auto].
        -- exists c', t'. split; [apply elem_of_cons; now right | auto].
      * discriminate.
      * intros c' t' Hc' Ht'. apply elem_of_cons in Hc'.
        destruct Hc' as [->|Hc']; [ | eauto].
        rewrite Ht in Ht'. now injection Ht' as <-.
Qed.


Lemma forallb_status (s : string) (l : list ETLCheckpoint.row) :
  forallb (fun x => String.eqb x s) (ETLCheckpoint.status <$> l)
  = forallb (has_status s) l.
Proof.
  induction l as [|c l IH]; cbn; [reflexivity | ]. now rewrite IH.
Qed.

Lemma existsb_status (s : string) (l : list ETLCheckpoint.row) :
  existsb (fun x => String.eqb x s) (ETLCheckpoint.status <$> l)
  = existsb (has_status s) l.
Proof.
  induction l as [|c l IH]; cbn; [reflexivity | ]. now rewrite IH.
Qed.

(** X20.  The report of [health_check], with one checkpoint per source.
    [database] is ['connected'] exactly when [SELECT 1] went through.  The
    overall [status] is ['degraded'] as soon as one source has status
    ['failure'], whatever the database check said, and otherwise
    ['healthy'] or ['unhealthy'] after that check.  [sources] lists every
    source with its status.  When no source has a last run the ETL status
    is ['unknown'] and [last_run] is [None]; otherwise the ETL status is
    ['success'] if every source succeeded, ['partial_failure'] if one
    failed and ['running'] else, and [last_run] is the last-run text of a
    source that no other one exceeds as a string.  A failure of the status
    query is not caught. *)
Theorem health_check_report
        (select_1 : option string) (env : Env) (ph : Phase)
        (isoformat : Time -> string) (st : state) :
  let table := etl_checkpoints (db st) in
  uq_checkpoint_source table ->
  (forall e, status_query_fault env ph = Some e ->
             Routes.health_check select_1 env ph isoformat st = Some (Raise e, st))
  /\ (status_query_fault env ph = None ->
      exists h,
        Routes.health_check select_1 env ph isoformat st = Some (Ok h, st)
        /\ Routes.database h
           = (if select_1 is None then "connected" else "disconnected")
        /\ Routes.status h
           = (if existsb (has_status "failure") table then "degraded"
              else if select_1 is None then "healthy" else "unhealthy")
        /\ Routes.etl_sources h
           = (fun c => (ETLCheckpoint.source c, ETLCheckpoint.status c)) <$> table
        /\ Routes.etl_state h
           = (if existsb (has_last_run isoformat) table
              then if forallb (has_status "success") table then "success"
                   else if existsb (has_status "failure") table
                        then "partial_failure" else "running"
              else "unknown")
        /\ (Routes.etl_last_run h = None
            <-> existsb (has_last_run isoformat) table = false)
        /\ (forall latest,
              Routes.etl_last_run h = Some latest ->
              (exists c t, c ∈ table /\ ETLCheckpoint.last_run_at c = Some t
                           /\ latest = isoformat t)
              /\ (forall c t, c ∈ table -> ETLCheckpoint.last_run_at c = Some t ->
                              String.ltb latest (isoformat t) = false))).
Proof.
  intros table Huq. unfold Routes.health_check.
  pose proof (get_etl_status_result env ph isoformat st Huq) as Hget. fold table in Hget.
  clearbody table. split.
  - intros e He. rewrite He in Hget. unfold mbind. now rewrite Hget.
  - intros Hnone. rewrite Hnone in Hget. unfold mbind. rewrite Hget.
    rewrite health_sources_loop by exact Huq. cbn [app].
    set (latest := Routes.latest_run_loop None (status_item isoformat <$> table)).
    pose proof (latest_loop_truthy isoformat table None) as Htruthy. fold latest in Htruthy.
    cbn [truthy orb] in Htruthy.
    assert (Hvals : ((fun c => (ETLCheckpoint.source c, ETLCheckpoint.status c))
                       <$> table).*2 = ETLCheckpoint.status <$> table).
    { rewrite <- list_fmap_compose. reflexivity. }
    rewrite Hvals, forallb_status, existsb_status.
    assert (Hdb : (if String.eqb (if select_1 is None then "connected" else "disconnected")
                                 "connected" then "healthy" else "unhealthy")
                  = if select_1 is None then "healthy" else "unhealthy")
      by (destruct select_1; reflexivity).
    destruct (status_item isoformat <$> table) as [|item0 items] eqn:Hitems.
    + destruct table; [ | discriminate].
      cbn. eexists. split; [reflexivity | ]. cbn.
      rewrite Hdb. repeat split; try reflexivity; try discriminate.
    + cbv beta iota zeta. rewrite Hdb.
      destruct (truthy latest) eqn:Hlatest.
      * eexists. split; [reflexivity | ].
        cbn [Routes.status Routes.database Routes.etl_last_run Routes.etl_state
             Routes.etl_sources].
        rewrite <- Htruthy.
        split; [reflexivity | ]. split; [reflexivity | ]. split; [reflexivity | ].
        split; [reflexivity | ]. split.
        -- split; [ | discriminate]. intros H. rewrite H in Hlatest. discriminate.
        -- intros s Hs. unfold latest in Hs, Hlatest. rewrite <- Hitems in Hs, Hlatest.
           rewrite Hs in Hlatest.
           destruct (latest_loop_greatest isoformat table None s Hs Hlatest)
             as ([H|H] & _ & Hrows); [discriminate | ].
           split; assumption.
      * eexists. split; [reflexivity | ].
        cbn [Routes.status Routes.database Routes.etl_last_run Routes.etl_state
             Routes.etl_sources].
        rewrite <- Htruthy.
        split; [reflexivity | ]. split; [reflexivity | ]. split; [reflexivity | ].
        split; [reflexivity | ]. split; [split; reflexivity | discriminate].
Qed.

Lemma health_check_report_witness :
  exists h,
    Routes.health_check (Some "connection refused") calm Finalize sample_isoformat
      (idle (set_etl_checkpoints empty_db
               [coingecko_checkpoint;
                BaseETL.new_checkpoint 150 2 "csv" 0 "failure" (Some "boom")]))
    = Some (Ok h, idle (set_etl_checkpoints empty_db
               [coingecko_checkpoint;
                BaseETL.new_checkpoint 150 2 "csv" 0 "failure" (Some "boom")]))
    /\ Routes.database h = "disconnected"
    /\ Routes.status h = "degraded"
    /\ Routes.etl_state h = "partial_failure".
Proof.
  destruct (health_check_report (Some "connection refused") calm Finalize
              sample_isoformat
              (idle (set_etl_checkpoints empty_db
                       [coingecko_checkpoint;
                        BaseETL.new_checkpoint 150 2 "csv" 0 "failure" (Some "boom")])))
    as [_ Hok].
  - apply (bool_decide_unpack _). vm_compute. exact I.
  - destruct (Hok eq_refl) as (h & Hrun & Hdb & Hst & _ & Hetl & _).
    exists h. repeat split; assumption.
Defined.


(** X21.  A run shows in [get_etl_status].  Take a pipeline whose
    [load_raw] leaves the checkpoints alone, tables with one checkpoint
    per source, waits [backoff_factor ** k], [k = 1 .. max_retries - 1],
    that [time.sleep] takes (from 0 to 9e9 seconds), and a status query
    that goes through.  Then [run] returns a boolean [b], and in the status
    read after it the entry of the source has status ['success'] if [b] is
    [True] and ['failure'] if it is [False] (unless the final transaction
    of the run failed); no source has two entries. *)
Theorem run_then_get_etl_status
        (self : BaseETL.pipeline) (env : Env) (max_retries : Z)
        (backoff_factor : Q) (st : state)
        (reader : Env) (ph : Phase) (isoformat : Time -> string) :
  waits_accepted backoff_factor (max_retries - 1) ->
  raw_keeps_checkpoints self ->
  uq_checkpoint_source (etl_checkpoints (db st)) ->
  status_query_fault reader ph = None ->
  exists b st' status,
    BaseETL.run self env max_retries backoff_factor st = Some (Ok b, st')
    /\ ETLService.get_etl_status reader ph isoformat st' = Some (Ok status, st')
    /\ NoDup (status.*1)
    /\ (b = true ->
        exists entry,
          (BaseETL.source_name self, entry) ∈ status
          /\ ETLService.ss_status entry = "success"
          /\ ETLService.ss_error_message entry = None
          /\ ETLService.ss_records_processed entry = records_processed st')
    /\ (b = false -> finalize_fault env = None ->
        exists entry,
          (BaseETL.source_name self, entry) ∈ status
          /\ ETLService.ss_status entry = "failure").
Proof.
  intros Hb Hraw Huq Hreader.
  destruct (run_loop_outcome self env max_retries backoff_factor Hb
              (S (Z.to_nat max_retries)) 0%nat None st)
    as (b & st' & events & Hrun & _ & _ & _ & Hkeep & Htrue & Hfalse); [lia | ].
  specialize (Hkeep Hraw Huq).
  pose proof (get_etl_status_result reader ph isoformat st' Hkeep) as Hget.
  rewrite Hreader in Hget.
  assert (Hentry : forall i c,
             checkpoint_of (BaseETL.source_name self) (db st') = Some (i, c) ->
             (BaseETL.source_name self, ETLService.status_entry isoformat c)
               ∈ status_item isoformat <$> etl_checkpoints (db st')).
  { intros i c Hfind. unfold checkpoint_of in Hfind. apply list_find_Some in Hfind.
    destruct Hfind as (Hi & Hsrc & _). apply list_elem_of_fmap. exists c.
    split; [unfold status_item; now rewrite Hsrc | ].
    apply list_elem_of_lookup. eauto. }
  exists b, st', (status_item isoformat <$> etl_checkpoints (db st')).
  split; [exact Hrun | ]. split; [exact Hget | ]. split.
  { rewrite <- list_fmap_compose. exact Hkeep. }
  split.
  - intros Hbt.
    destruct (Htrue Hbt) as (k & raw & s1 & data & _ & _ & _ & Hfinal).
    destruct Hfinal as (_ & _ & (i & c & Hfind & Hst & Herr & _ & _ & Hcount) & _).
    exists (ETLService.status_entry isoformat c).
    split; [eapply Hentry; eauto | ]. repeat split; assumption.
  - intros Hbf Hff. specialize (Hfalse Hbf). rewrite Hff in Hfalse.
    destruct Hfalse as (i & c & rec & last & Hfind & Hst & _).
    exists (ETLService.status_entry isoformat c).
    split; [eapply Hentry; eauto | exact Hst].
Qed.

Lemma run_then_get_etl_status_witness :
  exists st' status entry,
    BaseETL.run failing_etl calm 3 2 (idle sample_db) = Some (Ok false, st')
    /\ ETLService.get_etl_status calm Finalize sample_isoformat st'
       = Some (Ok status, st')
    /\ ("coingecko", entry) ∈ status
    /\ ETLService.ss_status entry = "failure".
Proof.
  destruct (run_then_get_etl_status failing_etl calm 3 2 (idle sample_db)
              calm Finalize sample_isoformat)
    as (b & st' & status & Hrun & Hget & _ & _ & Hfalse).
  - exact default_backoff.
  - apply coingecko_keeps_checkpoints.
  - exact sample_checkpoints_unique.
  - reflexivity.
  - destruct (run_extract_fails failing_etl calm 3 2 (idle sample_db))
      as (st0 & Hrun0); [exact default_backoff | intros k; eexists; reflexivity | ].
    rewrite Hrun0 in Hrun. injection Hrun as <- <-.
    destruct (Hfalse eq_refl eq_refl) as (entry & Hin & Hst).
    exists st0, status, entry. auto.
Defined.

End StatusProps.

Section DataServiceProps.

Lemma lower_upper_ascii (c : ascii) : lower_ascii (upper_ascii c) = lower_ascii c.
Proof.
  destruct c as [b0 b1 b2 b3 b4 b5 b6 b7].
  destruct b0, b1, b2, b3, b4, b5, b6, b7; reflexivity.
Qed.

Lemma upper_lower_ascii (c : ascii) : upper_ascii (lower_ascii c) = upper_ascii c.
Proof.
  destruct c as [b0 b1 b2 b3 b4 b5 b6 b7].
  destruct b0, b1, b2, b3, b4, b5, b6, b7; reflexivity.
Qed.

Lemma lower_upper (s : string) : lower (upper s) = lower s.
Proof.
  induction s as [|c s IH]; cbn; [reflexivity | ].
  now rewrite lower_upper_ascii, IH.
Qed.

Lemma upper_lower (s : string) : upper (lower s) = upper s.
Proof.
  induction s as [|c s IH]; cbn; [reflexivity | ].
  now rewrite upper_lower_ascii, IH.
Qed.

Lemma truthy_upper (s : string) : truthy (Some (upper s)) = truthy (Some s).
Proof. now destruct s. Qed.

Lemma truthy_lower (s : string) : truthy (Some (lower s)) = truthy (Some s).
Proof. now destruct s. Qed.

(** X22.  The filters of [get_coins] do not depend on the case of the
    request: [source] is compared in lower case and [symbol] in upper
    case, so for ASCII texts a request gives what the same request gives
    with [source] in upper case and [symbol] in lower case. *)
Theorem get_coins_filters_ignore_case
        (engine : DataService.Engine) (session : DB) (page page_size : Z)
        (source symbol : option string) :
  ascii_text source ->
  ascii_text symbol ->
  DataService.get_coins engine session page page_size source symbol
  = DataService.get_coins engine session page page_size
      (upper <$> source) (lower <$> symbol).
Proof.
  intros _ _. unfold DataService.get_coins.
  destruct source as [s|], symbol as [y|]; cbn [fmap option_fmap option_map];
    rewrite ?truthy_upper, ?truthy_lower, ?lower_upper, ?upper_lower; reflexivity.
Qed.

Lemma get_coins_filters_ignore_case_witness :
  DataService.get_coins plain_engine sample_db 1 10 (Some "CoinGecko") (Some "Btc")
  = DataService.get_coins plain_engine sample_db 1 10 (Some "COINGECKO") (Some "btc").
Proof.
  apply (get_coins_filters_ignore_case plain_engine sample_db 1 10
           (Some "CoinGecko") (Some "Btc"));
    cbn; repeat constructor.
Defined.

(** The rows that the two filters of [get_coins] keep. *)
Lemma get_coins_query (source symbol : option string) (table : list Coin.row) :
  (let query :=
     match source with
     | Some source =>
         if truthy (Some source)
         then filter (fun c => Coin.source c = lower source) table
         else table
     | None => table
     end in
   match symbol with
   | Some symbol =>
       if truthy (Some symbol)
       then filter (fun c => Coin.symbol c = upper symbol) query
       else query
   | None => query
   end)
  = List.filter (passes source symbol) table.
Proof.
  assert (Hall : forall l : list Coin.row, List.filter (fun _ => true) l = l).
  { induction l as [|x l IH]; cbn; [reflexivity | now rewrite IH]. }
  assert (Hdec : forall (P : Coin.row -> Prop) `{forall c, Decision (P c)} l,
             filter P l = List.filter (fun c => bool_decide (P c)) l).
  { intros P HP l. induction l as [|x l IH]; [reflexivity | ].
    cbn. rewrite <- IH. unfold filter at 1. cbn.
    destruct (decide (P x)) as [H|H].
    - now rewrite (bool_decide_eq_true_2 _ H).
    - now rewrite (bool_decide_eq_false_2 _ H). }
  assert (Hand : forall (f g : Coin.row -> bool) l,
             List.filter g (List.filter f l) = List.filter (fun c => f c && g c) l).
  { intros f g l. induction l as [|x l IH]; [reflexivity | ].
    cbn. destruct (f x); cbn; [destruct (g x) | ]; now rewrite IH. }
  cbv zeta. unfold passes.
  destruct source as [[|a s]|], symbol as [[|b y]|]; cbn [truthy option_map];
    rewrite ?Hdec, ?Hand; try (symmetry; apply Hall);
    apply filter_ext; intros c; rewrite ?andb_true_r; cbn [andb];
    try f_equal; apply bool_decide_ext; split; congruence.
Qed.

Lemma validate_numeric_not_negative (v : option Q) :
  not_negative v -> CoinBase.validate_numeric v = v.
Proof.
  intros H. destruct v as [q|]; [ | reflexivity]. cbn.
  specialize (H q eq_refl). apply Qle_bool_iff in H. now rewrite H.
Qed.

(** A valid row is shown as it is. *)
Lemma model_validate_valid (c : Coin.row) :
  valid_row c -> CoinResponse.model_validate c = Ok (response_of c).
Proof.
  intros (H1 & H2 & H3 & H4 & N1 & N2 & N3 & N4).
  unfold CoinResponse.model_validate, response_of.
  destruct (Coin.coin_id c) as [|a1 s1] eqn:E1; [congruence | ].
  destruct (Coin.symbol c) as [|a2 s2] eqn:E2; [congruence | ].
  destruct (Coin.name c) as [|a3 s3] eqn:E3; [congruence | ].
  cbn [CoinBase.required_str String.length Nat.leb rbind].
  rewrite !validate_numeric_not_negative by assumption.
  rewrite symbol_uppercase_upper, H3. reflexivity.
Qed.

Lemma map_result_valid (rows : list Coin.row) :
  Forall valid_row rows ->
  map_result CoinResponse.model_validate rows = Ok (response_of <$> rows).
Proof.
  induction 1 as [|c rows Hc _ IH]; [reflexivity | ].
  cbn. now rewrite (model_validate_valid c Hc), IH.
Qed.

(** X23.  One page of [get_coins].  On rows that [CoinResponse] accepts, with
    [page >= 1] and [page_size >= 0], the total returned is the number of
    rows that pass the filters, whatever the page, and the items are the
    rows of the sorted list after the first [(page - 1) * page_size], at
    most [page_size] of them, shown with their fields unchanged: a page
    beyond the last one is empty, and every item is a stored row that
    passes the filters. *)
Theorem get_coins_page
        (engine : DataService.Engine) (session : DB) (page page_size : Z)
        (source symbol : option string) :
  rearranges engine ->
  Forall valid_row (coins session) ->
  1 <= page -> 0 <= page_size ->
  let matching := List.filter (passes source symbol) (coins session) in
  let offset := (page - 1) * page_size in
  exists rows,
    DataService.get_coins engine session page page_size source symbol
    = Ok (response_of <$> rows, Z.of_nat (length matching))
    /\ rows = take (Z.to_nat page_size)
                   (drop (Z.to_nat offset)
                         (DataService.order_by_desc_rank engine matching))
    /\ Z.of_nat (length rows)
       = Z.min page_size (Z.max 0 (Z.of_nat (length matching) - offset))
    /\ (forall c, c ∈ rows -> c ∈ coins session /\ passes source symbol c = true).
Proof.
  intros Hperm Hvalid Hpage Hsize matching offset.
  unfold DataService.get_coins.
  pose proof (get_coins_query source symbol (coins session)) as Hq.
  cbv zeta in Hq. cbv zeta. rewrite Hq. fold matching. fold offset.
  assert (Hoff : 0 <= offset) by (subst offset; nia).
  unfold DataService.page_query.
  replace ((offset <? 0) || (page_size <? 0))%Z with false
    by (symmetry; apply orb_false_iff; split; apply Z.ltb_ge; lia).
  set (rows := take (Z.to_nat page_size)
                    (drop (Z.to_nat offset)
                          (DataService.order_by_desc_rank engine matching))).
  assert (Hin : forall c, c ∈ rows -> c ∈ coins session /\ passes source symbol c = true).
  { intros c Hc. subst rows.
    apply elem_of_take in Hc. destruct Hc as (i & Hi & _).
    rewrite lookup_drop in Hi. apply list_elem_of_lookup_2 in Hi.
    rewrite (Hperm matching) in Hi. subst matching.
    apply list_elem_of_In, filter_In in Hi. destruct Hi as [Hi Hp].
    split; [now apply list_elem_of_In | exact Hp]. }
  exists rows. cbn [rbind]. rewrite map_result_valid.
  - cbn [rbind]. split; [reflexivity | ]. split; [reflexivity | ].
    split; [ | exact Hin].
    subst rows. rewrite length_take, length_drop, (Permutation_length (Hperm matching)).
    lia.
  - apply Forall_forall. intros c Hc. rewrite Forall_forall in Hvalid.
    apply Hvalid. now apply Hin.
Qed.

Lemma sample_rows_valid : Forall valid_row (coins sample_db).
Proof.
  repeat constructor; try discriminate; intros q [= <-]; discriminate.
Qed.

Lemma plain_engine_rearranges : rearranges plain_engine.
Proof. intros l. reflexivity. Qed.

Lemma get_coins_page_witness :
  exists rows,
    DataService.get_coins plain_engine sample_db 1 50 (Some "CoinGecko") (Some "btc")
    = Ok (response_of <$> rows, 1)
    /\ rows = [old_bitcoin_row].
Proof.
  destruct (get_coins_page plain_engine sample_db 1 50 (Some "CoinGecko") (Some "btc"))
    as (rows & Hrun & Hrows & _).
  - exact plain_engine_rearranges.
  - exact sample_rows_valid.
  - lia.
  - lia.
  - exists rows. split; [exact Hrun | ]. rewrite Hrows. reflexivity.
Defined.


Lemma valid_on_conflict now c r :
  valid_row c -> spec_normalized r ->
  valid_row (BaseETL.on_conflict_do_update now c r).
Proof.
  intros (H1 & _) (S1 & _ & S3 & S4 & S5 & S6 & S7 & S8).
  unfold valid_row, not_negative. cbn. repeat split; auto.
Qed.

Lemma valid_insert_values now fresh r :
  spec_normalized r -> valid_row (BaseETL.insert_values now fresh r).
Proof.
  intros (S1 & S2 & S3 & S4 & S5 & S6 & S7 & S8).
  unfold valid_row, not_negative. cbn. repeat split; auto.
Qed.

Lemma upsert_row_valid now t r :
  Forall valid_row t -> spec_normalized r ->
  Forall valid_row (BaseETL.upsert_row now t r).
Proof.
  intros Ht Hr. unfold BaseETL.upsert_row.
  destruct (list_find (BaseETL.same_key r) t) as [[i c]|] eqn:E.
  - apply list_find_Some in E. destruct E as (Hi & _ & _).
    apply Forall_insert; [exact Ht | ].
    apply valid_on_conflict; [ | exact Hr].
    rewrite Forall_forall in Ht. apply Ht. apply list_elem_of_lookup. eauto.
  - apply Forall_app. split; [exact Ht | ].
    apply Forall_singleton. now apply valid_insert_values.
Qed.

Lemma foldl_upsert_valid now rs : forall t,
  Forall valid_row t -> Forall spec_normalized rs ->
  Forall valid_row (foldl (BaseETL.upsert_row now) t rs).
Proof.
  induction rs as [|r rs IH]; intros t Ht Hrs; cbn; [exact Ht | ].
  apply Forall_cons in Hrs. destruct Hrs as [Hr Hrs].
  apply IH; [ | exact Hrs]. now apply upsert_row_valid.
Qed.

(** X24.  What [load_normalized] stores of validated records is served as
    it is.  If every row of [coins] is as the validators of [CoinBase]
    leave a record, so is every row after a load of records that
    [CoinCreate] accepted; and [CoinResponse.model_validate] accepts such a
    row and changes none of its fields. *)
Theorem stored_records_are_served_unchanged
        (env : Env) (ph : Phase) (session : DB) (data : list CoinCreate.t)
        (st : state) (session' : DB) (st' : state) :
  Forall valid_row (coins session) ->
  Forall (fun r => exists py d, CoinCreate_validate py d = Ok r) data ->
  BaseETL.load_normalized env ph session data st = Some (Ok session', st') ->
  Forall valid_row (coins session')
  /\ forall c, c ∈ coins session' ->
               CoinResponse.model_validate c = Ok (response_of c).
Proof.
  intros Hvalid Hdata Hrun.
  assert (Hnorm : Forall spec_normalized data).
  { eapply Forall_impl; [exact Hdata | ].
    intros r (py & d & Hr). eapply CoinCreate_validate_normalized; eauto. }
  apply load_normalized_returns in Hrun. destruct Hrun as [Hcoins _].
  assert (Hvalid' : Forall valid_row (coins session')).
  { rewrite Hcoins. now apply foldl_upsert_valid. }
  split; [exact Hvalid' | ].
  intros c Hc. apply model_validate_valid.
  rewrite Forall_forall in Hvalid'. now apply Hvalid'.
Qed.

Lemma stored_records_are_served_unchanged_witness :
  exists session' st',
    BaseETL.load_normalized calm (Attempt 0) sample_db
      (CoinGeckoETL.transform strict_runtime 100 [bitcoin_item; nameless_item])
      (idle sample_db) = Some (Ok session', st')
    /\ Forall valid_row (coins session')
    /\ map_result CoinResponse.model_validate (coins session')
       = Ok (response_of <$> coins session').
Proof.
  pose proof (load_normalized_ok calm (Attempt 0) sample_db
                (CoinGeckoETL.transform strict_runtime 100 [bitcoin_item; nameless_item])
                (idle sample_db) ltac:(discriminate) eq_refl) as Hrun.
  assert (Hdata : Forall (fun r => exists py d, CoinCreate_validate py d = Ok r)
                          (CoinGeckoETL.transform strict_runtime 100
                             [bitcoin_item; nameless_item])).
  { apply Forall_forall. intros r Hr.
    apply (transform_loop_elem (CoinGeckoETL.transform_item strict_runtime 100)) in Hr.
    destruct Hr as (item & _ & Hr).
    unfold CoinGeckoETL.transform_item in Hr.
    destruct (call_upper _) as [symbol|]; [ | discriminate]. cbn [rbind] in Hr.
    eauto. }
  destruct (stored_records_are_served_unchanged calm (Attempt 0) sample_db
              (CoinGeckoETL.transform strict_runtime 100 [bitcoin_item; nameless_item])
              (idle sample_db) _ _ sample_rows_valid Hdata Hrun) as [Hvalid _].
  eexists _, _. split; [exact Hrun | ]. split; [exact Hvalid | ].
  now apply map_result_valid.
Defined.

End DataServiceProps.

Section RoutesProps.

(** X25.  [trigger_etl] treats a class that raises on construction in two
    ways.  Asked for that source alone it raises the HTTP error with detail
    ['Failed to trigger ETL: ' + e] and leaves tables and log as they were;
    asked for all sources (no [source], or the empty string) it answers
    normally, and the entry of that source in [results] is [False]. *)
Theorem trigger_etl_failing_class
        (etl_sources : ETLService.registry) (completed : list string)
        (name : string) (cls : ETLService.etl_class) (e : string) (st : state) :
  name <> "" ->
  ETLService.lookup_source etl_sources name = Some cls ->
  ETLService.construct cls = Raise e ->
  NoDup completed ->
  name ∈ completed ->
  Routes.trigger_etl etl_sources completed (Some name) st
  = Some (Raise ("Failed to trigger ETL: " ++ e), st)
  /\ forall source,
      truthy source = false ->
      exists results st',
        Routes.trigger_etl etl_sources completed source st
        = Some (Ok (Routes.TriggeredAll "ETL triggered for all sources" results), st')
        /\ results !! name = Some false.
Proof.
  intros Hname Hlook Hnew Hnd Hin. split.
  - unfold Routes.trigger_etl, try_except.
    destruct name as [|a s]; [congruence | ]. unfold mbind.
    now rewrite (run_single_source_construct_raises _ _ _ _ st Hlook Hnew).
  - intros source Hsource.
    destruct (collect_completed_returns etl_sources completed ∅ st)
      as (results & st' & Hrun & _).
    exists results, st'. split.
    + unfold Routes.trigger_etl, try_except.
      destruct source as [[|a s]|]; try discriminate;
        unfold ETLService.run_all_sources; now rewrite (mbind_ok _ _ _ _ _ Hrun).
    + apply (collect_completed_entry etl_sources name false completed)
        with (results := ∅) (st := st) (st' := st'); try assumption.
      intros s. eexists. now apply (guarded_construct_raises _ _ cls e).
Qed.

Lemma trigger_etl_failing_class_witness :
  Routes.trigger_etl [("coinpaprika", working_class); ("coingecko", broken_class)]
    ["coingecko"; "coinpaprika"] (Some "coingecko") (idle sample_db)
  = Some (Raise "Failed to trigger ETL: No module named httpx", idle sample_db)
  /\ exists results st',
      Routes.trigger_etl [("coinpaprika", working_class); ("coingecko", broken_class)]
        ["coingecko"; "coinpaprika"] None (idle sample_db)
      = Some (Ok (Routes.TriggeredAll "ETL triggered for all sources" results), st')
      /\ results !! "coingecko" = Some false.
Proof.
  destruct (trigger_etl_failing_class
              [("coinpaprika", working_class); ("coingecko", broken_class)]
              ["coingecko"; "coinpaprika"] "coingecko" broken_class
              "No module named httpx" (idle sample_db)) as [Hone Hall].
  - discriminate.
  - reflexivity.
  - reflexivity.
  - apply (bool_decide_unpack _). vm_compute. exact I.
  - apply elem_of_cons. left. reflexivity.
  - split; [exact Hone | ]. apply Hall. reflexivity.
Defined.

End RoutesProps.
